(** * Conditions Watch: a shallow embedding of the weather-to-sheet scripts

    The repository holds four revisions of one linear script:

    - [NowcastLong]: [src/index.js], first revision (Nowcast temperature,
      long sheet layout with four columns);
    - [AreaLong]: [src/index.js], second revision (areas, precipitation and
      cloud cover, long layout with seven columns);
    - [Wide]: the revision writing one column per location;
    - [SampleData]: the generator that uploads historical rows in batches.

    Network calls are the only effects that matter here.  A program is a
    function from the history of calls issued so far to an outcome and the
    extended history; what the outside world answers is read from an
    environment that may depend on that history.  Console output is not
    modelled. *)

From Stdlib Require Import List String Ascii Bool Arith NArith ZArith QArith Lia Permutation.
From Equations Require Import Equations.
Import ListNotations.

Set Implicit Arguments.
Unset Strict Implicit.

Local Open Scope string_scope.
Local Open Scope nat_scope.
Local Open Scope list_scope.

(** ** JavaScript numbers and values *)

(** The operations the scripts use on numbers: the literal [0], binary [+]
    and the truthiness test of [x || 0]. *)
Class JsNumber (num : Type) : Type := {
  num_zero : num;
  num_add : num -> num -> num;
  num_truthy : num -> bool
}.

(** Rational numbers as a carrier on which examples can be evaluated. *)
#[export] Instance Q_JsNumber : JsNumber Q := {|
  num_zero := 0%Q;
  num_add := Qplus;
  num_truthy := fun q => negb (Qeq_bool q 0)
|}.

(** ** Outcomes of a program *)

Inductive Error : Type :=
| ApiError (message : string) (code : nat)
| TypeError
| RejectedFetch
| RejectedJson
| ConfigError
| SheetApiError.

Inductive Outcome (A : Type) : Type :=
| Returned (a : A)
| Thrown (e : Error).

Arguments Thrown {A} e.

(** ** Configuration: [config/locations.json] *)

Module Location.

Record t (num : Type) : Type := {
  name : string;
  latitude : num;
  longitude : num;
  area : option string
}.

End Location.

Section Runtime.

Context {num : Type} {NumOps : JsNumber num}.

(** The values that end up in readings and sheet cells. *)
Inductive JsValue : Type :=
| Undefined
| Null
| Num (n : num)
| Str (s : string).

(** [x || 0] for an optional numeric field. *)
Definition or_zero (field : option num) : JsValue :=
  match field with
  | Some v => if num_truthy v then Num v else Num num_zero
  | None => Num num_zero
  end.

(** A possibly absent numeric field read as a value. *)
Definition field_value (field : option num) : JsValue :=
  match field with
  | Some v => Num v
  | None => Undefined
  end.

(** ** Weather provider responses *)

(** [details] objects of the MET API; each field may be absent. *)
Record Details : Type := {
  air_temperature : option num;
  cloud_area_fraction : option num;
  precipitation_amount : option num
}.

(** [next_1_hours]: its own [details] may be absent. *)
Record Period : Type := {
  period_details : option Details
}.

(** One entry of [properties.timeseries]; [instant] stands for
    [data.instant.details]. *)
Record TimeseriesEntry : Type := {
  time : string;
  instant : Details;
  next_1_hours : option Period
}.

(** An HTTP response; [json] is what [response.json()] resolves to,
    [None] when it rejects. *)
Record Response : Type := {
  ok : bool;
  status : nat;
  json : option (list TimeseriesEntry)
}.

Inductive Endpoint : Type :=
| NowcastComplete
| LocationforecastCompact.

(** ** Calls and histories *)

Inductive Call : Type :=
| HttpGet (endpoint : Endpoint) (lat lon : num)
| SheetValuesGet (range : string)
| SheetValuesUpdate (range : string) (values : list (list JsValue))
| SheetValuesAppend (range : string) (values : list (list JsValue))
| SetTimeout (ms : nat).

(** Calls issued so far, most recent first. *)
Definition History : Type := list Call.

Definition is_sheet_call (c : Call) : bool :=
  match c with
  | SheetValuesGet _ | SheetValuesUpdate _ _ | SheetValuesAppend _ _ => true
  | HttpGet _ _ _ | SetTimeout _ => false
  end.

Definition is_sheet_write (c : Call) : bool :=
  match c with
  | SheetValuesUpdate _ _ | SheetValuesAppend _ _ => true
  | SheetValuesGet _ | HttpGet _ _ _ | SetTimeout _ => false
  end.

Definition is_http_get (c : Call) : bool :=
  match c with
  | HttpGet _ _ _ => true
  | _ => false
  end.

(** ** The environment of a run *)

Record Env : Type := {
  (** [process.argv] *)
  argv : list string;
  (** [JSON.parse(data).locations]; [None] when reading or parsing fails *)
  config_locations : option (list (Location.t num));
  (** whether [JSON.parse(process.env.GOOGLE_CREDENTIALS)] succeeds *)
  credentials_parse : bool;
  (** [new Date()] rendered as YYYY-MM-DD and HH *)
  now_date : string;
  now_hour : string;
  (** the answer of the weather provider; [None] when [fetch] rejects *)
  http_response : History -> Endpoint -> num -> num -> option Response;
  (** [data.values] of a [values.get]; [None] when the call fails,
      [Some None] when the range holds no values *)
  sheet_values : History -> string -> option (option (list (list string)));
  (** whether a [values.update] or [values.append] is accepted *)
  sheet_accepts : History -> Call -> bool
}.

(** ** Programs *)

Definition Prog (A : Type) : Type := History -> Outcome A * History.

Definition ret {A : Type} (a : A) : Prog A := fun h => (Returned a, h).

Definition throw {A : Type} (e : Error) : Prog A := fun h => (Thrown e, h).

Definition bind {A B : Type} (m : Prog A) (k : A -> Prog B) : Prog B :=
  fun h =>
    match m h with
    | (Returned a, h') => k a h'
    | (Thrown e, h') => (Thrown e, h')
    end.

End Runtime.

Arguments JsValue num : clear implicits.
Arguments Details num : clear implicits.
Arguments Period num : clear implicits.
Arguments TimeseriesEntry num : clear implicits.
Arguments Response num : clear implicits.
Arguments Call num : clear implicits.
Arguments History num : clear implicits.
Arguments Env num : clear implicits.
Arguments Prog num A : clear implicits.

Declare Scope prog_scope.
Delimit Scope prog_scope with prog.
Notation "x <- m ;; k" := (bind m (fun x => k))
  (at level 100, m at next level, right associativity) : prog_scope.
Notation "m ;;; k" := (bind m (fun _ => k))
  (at level 100, right associativity) : prog_scope.

(** ** Primitive calls *)

Section Primitives.

Context {num : Type} {NumOps : JsNumber num}.
Variable env : Env num.

(** [await fetch(url, ...)] *)
Definition fetch (endpoint : Endpoint) (lat lon : num) : Prog num (Response num) :=
  fun h =>
    match http_response env h endpoint lat lon with
    | Some r => (Returned r, HttpGet endpoint lat lon :: h)
    | None => (Thrown RejectedFetch, HttpGet endpoint lat lon :: h)
    end.

(** [await response.json()] followed by [.properties.timeseries] *)
Definition response_timeseries (r : Response num) : Prog num (list (TimeseriesEntry num)) :=
  match json r with
  | Some ts => ret ts
  | None => throw RejectedJson
  end.

(** [timeseries[0]] followed by a property access on it, which throws when
    the series is empty. *)
Definition first_entry (ts : list (TimeseriesEntry num)) : Prog num (TimeseriesEntry num) :=
  match ts with
  | current :: _ => ret current
  | [] => throw TypeError
  end.

(** [await new Promise(resolve => setTimeout(resolve, ms))] *)
Definition setTimeout (ms : nat) : Prog num unit :=
  fun h => (Returned tt, SetTimeout ms :: h).

(** [await sheets.spreadsheets.values.get(...)], then
    [headerResponse.data.values?.[0] || []] *)
Definition values_get_first_row (range : string) : Prog num (list string) :=
  fun h =>
    match sheet_values env h range with
    | Some (Some (row :: _)) => (Returned row, SheetValuesGet range :: h)
    | Some (Some []) | Some None => (Returned [], SheetValuesGet range :: h)
    | None => (Thrown SheetApiError, SheetValuesGet range :: h)
    end.

(** [await sheets.spreadsheets.values.update(...)] *)
Definition values_update (range : string) (values : list (list (JsValue num))) : Prog num unit :=
  fun h =>
    let c := SheetValuesUpdate range values in
    if sheet_accepts env h c then (Returned tt, c :: h) else (Thrown SheetApiError, c :: h).

(** [await sheets.spreadsheets.values.append(...)] *)
Definition values_append (range : string) (values : list (list (JsValue num))) : Prog num unit :=
  fun h =>
    let c := SheetValuesAppend range values in
    if sheet_accepts env h c then (Returned tt, c :: h) else (Thrown SheetApiError, c :: h).

(** [loadLocations()] *)
Definition loadLocations : Prog num (list (Location.t num)) :=
  match config_locations env with
  | Some locations => ret locations
  | None => throw ConfigError
  end.

(** [new google.auth.GoogleAuth({credentials: JSON.parse(...), ...})] *)
Definition googleAuth : Prog num unit :=
  if credentials_parse env then ret tt else throw ConfigError.

(** [process.argv.includes('--dry-run')] *)
Definition dryRun : bool := existsb (String.eqb "--dry-run") (argv env).

(** The top level: [try { ... } catch { process.exit(1) }], started with
    no call issued; the result is the exit status and the calls made. *)
Definition run_main (body : Prog num unit) : nat * History num :=
  match body [] with
  | (Returned _, h) => (0, h)
  | (Thrown _, h) => (1, h)
  end.

End Primitives.

(** ** Plain objects used as maps *)

(** An object literal [{}] filled by assignments: the own properties in
    creation order.  Property order as observed by [Object.entries] puts
    array-index keys first, in ascending numeric order, then the other
    keys in creation order. *)
Section JsObject.

Variable V : Type.

Definition JsObject : Type := list (string * V).

Definition digit_of (c : ascii) : option N :=
  let n := N_of_ascii c in
  if ((48 <=? n) && (n <=? 57))%N then Some (n - 48)%N else None.

Fixpoint parse_digits (s : string) (acc : N) : option N :=
  match s with
  | EmptyString => Some acc
  | String c s' =>
      match digit_of c with
      | Some d => parse_digits s' (10 * acc + d)%N
      | None => None
      end
  end.

(** A canonical numeric string denoting an integer below [2^32 - 1]. *)
Definition array_index (s : string) : option N :=
  match s with
  | EmptyString => None
  | String c rest =>
      if (Ascii.eqb c "0" && negb (String.eqb rest EmptyString))%bool then None
      else
        match parse_digits s 0 with
        | Some n => if (n <? 4294967295)%N then Some n else None
        | None => None
        end
  end.

(** The property names every object inherits from [Object.prototype];
    they all denote functions or objects, hence truthy values without a
    [push] method. *)
Definition Object_prototype_keys : list string :=
  [ "constructor"; "__defineGetter__"; "__defineSetter__"; "hasOwnProperty";
    "__lookupGetter__"; "__lookupSetter__"; "isPrototypeOf";
    "propertyIsEnumerable"; "toString"; "valueOf"; "__proto__";
    "toLocaleString" ].

Definition inherited (key : string) : bool :=
  existsb (String.eqb key) Object_prototype_keys.

Fixpoint own_property (o : JsObject) (key : string) : option V :=
  match o with
  | [] => None
  | (k, v) :: o' => if String.eqb k key then Some v else own_property o' key
  end.

(** Assignment to an existing own property keeps its position. *)
Fixpoint replace_property (o : JsObject) (key : string) (v : V) : JsObject :=
  match o with
  | [] => []
  | (k, w) :: o' =>
      if String.eqb k key then (k, v) :: o' else (k, w) :: replace_property o' key v
  end.

Fixpoint insert_indexed (n : N) (p : string * V) (l : list (N * (string * V)))
  : list (N * (string * V)) :=
  match l with
  | [] => [(n, p)]
  | (m, q) :: l' =>
      if (n <? m)%N then (n, p) :: l else (m, q) :: insert_indexed n p l'
  end.

Fixpoint indexed_properties (o : JsObject) : list (N * (string * V)) :=
  match o with
  | [] => []
  | p :: o' =>
      match array_index (fst p) with
      | Some n => insert_indexed n p (indexed_properties o')
      | None => indexed_properties o'
      end
  end.

Definition named_properties (o : JsObject) : JsObject :=
  filter (fun p => match array_index (fst p) with Some _ => false | None => true end) o.

Definition Object_entries (o : JsObject) : list (string * V) :=
  map snd (indexed_properties o) ++ named_properties o.

End JsObject.

(** The same indexed property with the value that [g] gives its key. *)
Definition retag (V W : Type) (g : string -> W) (p : N * (string * V)) : N * (string * W) :=
  (fst p, (fst (snd p), g (fst (snd p)))).

(** * Second revision of [src/index.js]: areas, precipitation, cloud cover *)

Module AreaLong.

Module Weather.

Record t (num : Type) : Type := {
  temperature : JsValue num;
  precipitation : num;
  cloudCover : JsValue num;
  timestamp : string
}.

End Weather.

Module Reading.

Record t (num : Type) : Type := {
  area : string;
  location : string;
  latitude : num;
  longitude : num;
  temperature : JsValue num;
  precipitation : num;
  cloudCover : JsValue num
}.

End Reading.

Section Script.

Context {num : Type} {NumOps : JsNumber num}.
Variable env : Env num.

Local Open Scope prog_scope.

(** [entry.data.next_1_hours?.details?.precipitation_amount] *)
Definition next_hour_precipitation (entry : TimeseriesEntry num) : option num :=
  match next_1_hours entry with
  | Some period =>
      match period_details period with
      | Some d => precipitation_amount d
      | None => None
      end
  | None => None
  end.

(** The loop [for (let i = 0; i < Math.min(6, nowcastTimeseries.length); i++)]. *)
Definition precipitation_loop (nowcastTimeseries : list (TimeseriesEntry num)) : num :=
  fold_left
    (fun precipitationSum i =>
       match nth_error nowcastTimeseries i with
       | Some entry =>
           match next_hour_precipitation entry with
           | Some amount => num_add precipitationSum amount
           | None => precipitationSum
           end
       | None => precipitationSum
       end)
    (seq 0 (Nat.min 6 (List.length nowcastTimeseries)))
    num_zero.

Definition fetchWeather (latitude longitude : num) : Prog num (Weather.t num) :=
  nowcastResponse <- fetch env NowcastComplete latitude longitude ;;
  if negb (ok nowcastResponse)
  then throw (ApiError "Nowcast API error" (status nowcastResponse))
  else
    nowcastTimeseries <- response_timeseries nowcastResponse ;;
    current <- first_entry nowcastTimeseries ;;
    let temperature := field_value (air_temperature (instant current)) in
    let precipitationSum := precipitation_loop nowcastTimeseries in
    forecastResponse <- fetch env LocationforecastCompact latitude longitude ;;
    cloudCover <-
      (if ok forecastResponse
       then
         forecastTimeseries <- response_timeseries forecastResponse ;;
         forecastCurrent <- first_entry forecastTimeseries ;;
         ret (or_zero (cloud_area_fraction (instant forecastCurrent)))
       else ret Null) ;;
    ret {| Weather.temperature := temperature;
           Weather.precipitation := precipitationSum;
           Weather.cloudCover := cloudCover;
           Weather.timestamp := time current |}.

(** [location.area || 'Other'] *)
Definition area_or_other (location : Location.t num) : string :=
  match Location.area location with
  | Some a => if String.eqb a "" then "Other" else a
  | None => "Other"
  end.

(** The callback of [locations.reduce]. *)
Definition group_step (acc : JsObject (list (Location.t num))) (location : Location.t num)
  : Outcome (JsObject (list (Location.t num))) :=
  let area := area_or_other location in
  match own_property acc area with
  | Some areaLocations => Returned (replace_property acc area (areaLocations ++ [location]))
  | None =>
      if inherited area then Thrown TypeError
      else Returned (acc ++ [(area, [location])])
  end.

Fixpoint group_reduce (locations : list (Location.t num)) (acc : JsObject (list (Location.t num)))
  : Outcome (JsObject (list (Location.t num))) :=
  match locations with
  | [] => Returned acc
  | location :: rest =>
      match group_step acc location with
      | Returned acc' => group_reduce rest acc'
      | Thrown e => Thrown e
      end
  end.

Definition locationsByArea (locations : list (Location.t num))
  : Prog num (JsObject (list (Location.t num))) :=
  match group_reduce locations [] with
  | Returned acc => ret acc
  | Thrown e => throw e
  end.

(** The body of the inner loop: fetch, push the reading, pause. *)
Definition collect_one (location : Location.t num) (weatherData : list (Reading.t num))
  : Prog num (list (Reading.t num)) :=
  weather <- fetchWeather (Location.latitude location) (Location.longitude location) ;;
  let weatherData :=
    weatherData ++
    [ {| Reading.area := area_or_other location;
         Reading.location := Location.name location;
         Reading.latitude := Location.latitude location;
         Reading.longitude := Location.longitude location;
         Reading.temperature := Weather.temperature weather;
         Reading.precipitation := Weather.precipitation weather;
         Reading.cloudCover := Weather.cloudCover weather |} ] in
  setTimeout 1000 ;;;
  ret weatherData.

(** [for (const location of areaLocations)] *)
Fixpoint collect_area (areaLocations : list (Location.t num)) (weatherData : list (Reading.t num))
  : Prog num (list (Reading.t num)) :=
  match areaLocations with
  | [] => ret weatherData
  | location :: rest =>
      weatherData <- collect_one location weatherData ;;
      collect_area rest weatherData
  end.

(** [for (const [area, areaLocations] of Object.entries(locationsByArea))] *)
Fixpoint collect_entries (entries : list (string * list (Location.t num)))
  (weatherData : list (Reading.t num)) : Prog num (list (Reading.t num)) :=
  match entries with
  | [] => ret weatherData
  | (_, areaLocations) :: rest =>
      weatherData <- collect_area areaLocations weatherData ;;
      collect_entries rest weatherData
  end.

(** The Reading Collector: grouping followed by the two nested loops. *)
Definition collect (locations : list (Location.t num)) : Prog num (list (Reading.t num)) :=
  byArea <- locationsByArea locations ;;
  collect_entries (Object_entries byArea) [].

Definition appendToSheet (auth : unit) (locations : list (Location.t num))
  (weatherData : list (Reading.t num)) : Prog num unit :=
  let date := now_date env in
  let hour := now_hour env in
  existingHeaders <- values_get_first_row env "Sheet1!A1:G1" ;;
  (if List.length existingHeaders =? 0
   then values_update env "Sheet1!A1"
          [[Str "Date"; Str "Hour"; Str "Area"; Str "Location"; Str "Temperature";
            Str "Precipitation"; Str "CloudCover"]]
   else ret tt) ;;;
  let rows :=
    map (fun weather =>
           [ Str date; Str hour; Str (Reading.area weather); Str (Reading.location weather);
             Reading.temperature weather; Num (Reading.precipitation weather);
             Reading.cloudCover weather ])
        weatherData in
  values_append env "Sheet1!A:G" rows.

(** The body of the [try] block of [main]. *)
Definition main_try : Prog num unit :=
  locations <- loadLocations env ;;
  weatherData <- collect locations ;;
  if dryRun env then ret tt
  else
    auth <- googleAuth env ;;
    appendToSheet auth locations weatherData.

Definition main : nat * History num := run_main main_try.

End Script.

End AreaLong.

(** * First revision of [src/index.js]: Nowcast temperature, long layout *)

Module NowcastLong.

Module Weather.

Record t (num : Type) : Type := {
  temperature : JsValue num;
  timestamp : string
}.

End Weather.

Module Reading.

Record t (num : Type) : Type := {
  location : string;
  latitude : num;
  longitude : num;
  temperature : JsValue num
}.

End Reading.

Section Script.

Context {num : Type} {NumOps : JsNumber num}.
Variable env : Env num.

Local Open Scope prog_scope.

Definition fetchWeather (latitude longitude : num) : Prog num (Weather.t num) :=
  response <- fetch env NowcastComplete latitude longitude ;;
  if negb (ok response)
  then throw (ApiError "Weather API error" (status response))
  else
    timeseries <- response_timeseries response ;;
    current <- first_entry timeseries ;;
    ret {| Weather.temperature := field_value (air_temperature (instant current));
           Weather.timestamp := time current |}.

(** The body of the loop of [main]: fetch, push the reading, pause. *)
Definition collect_one (location : Location.t num) (weatherData : list (Reading.t num))
  : Prog num (list (Reading.t num)) :=
  weather <- fetchWeather (Location.latitude location) (Location.longitude location) ;;
  let weatherData :=
    weatherData ++
    [ {| Reading.location := Location.name location;
         Reading.latitude := Location.latitude location;
         Reading.longitude := Location.longitude location;
         Reading.temperature := Weather.temperature weather |} ] in
  setTimeout 1000 ;;;
  ret weatherData.

(** The Reading Collector: [for (const location of locations)]. *)
Fixpoint collect (locations : list (Location.t num)) (weatherData : list (Reading.t num))
  : Prog num (list (Reading.t num)) :=
  match locations with
  | [] => ret weatherData
  | location :: rest =>
      weatherData <- collect_one location weatherData ;;
      collect rest weatherData
  end.

Definition appendToSheet (auth : unit) (locations : list (Location.t num))
  (weatherData : list (Reading.t num)) : Prog num unit :=
  let date := now_date env in
  let hour := now_hour env in
  existingHeaders <- values_get_first_row env "Sheet1!A1:D1" ;;
  (if List.length existingHeaders =? 0
   then values_update env "Sheet1!A1"
          [[Str "Date"; Str "Hour"; Str "Location"; Str "Temperature"]]
   else ret tt) ;;;
  let rows :=
    map (fun weather =>
           [ Str date; Str hour; Str (Reading.location weather);
             Reading.temperature weather ])
        weatherData in
  values_append env "Sheet1!A:D" rows.

(** The body of the [try] block of [main]. *)
Definition main_try : Prog num unit :=
  locations <- loadLocations env ;;
  weatherData <- collect locations [] ;;
  if dryRun env then ret tt
  else
    auth <- googleAuth env ;;
    appendToSheet auth locations weatherData.

Definition main : nat * History num := run_main main_try.

End Script.

End NowcastLong.

(** * The wide-layout revision: one column per location *)

Module Wide.

Module Weather.

Record t (num : Type) : Type := {
  temperature : JsValue num;
  timestamp : string
}.

End Weather.

Module Reading.

Record t (num : Type) : Type := {
  location : string;
  latitude : num;
  longitude : num;
  temperature : JsValue num
}.

End Reading.

Section Script.

Context {num : Type} {NumOps : JsNumber num}.
Variable env : Env num.

Local Open Scope prog_scope.

Definition fetchWeather (latitude longitude : num) : Prog num (Weather.t num) :=
  response <- fetch env LocationforecastCompact latitude longitude ;;
  if negb (ok response)
  then throw (ApiError "Weather API error" (status response))
  else
    timeseries <- response_timeseries response ;;
    current <- first_entry timeseries ;;
    ret {| Weather.temperature := field_value (air_temperature (instant current));
           Weather.timestamp := time current |}.

(** [currentLocationNames.includes(name)] *)
Definition includes (names : list string) (name : string) : bool :=
  existsb (String.eqb name) names.

(** [locations.map(l => l.name).filter(name => !currentLocationNames.includes(name))] *)
Definition newLocationNames (existingHeaders : list string) (locations : list (Location.t num))
  : list string :=
  let currentLocationNames := skipn 2 existingHeaders in
  filter (fun name => negb (includes currentLocationNames name))
         (map (@Location.name num) locations).

(** [weatherData.find(w => w.location === locationName)] *)
Definition find_reading (weatherData : list (Reading.t num)) (locationName : string)
  : option (Reading.t num) :=
  find (fun w => String.eqb (Reading.location w) locationName) weatherData.

(** The loop [for (let i = 2; i < existingHeaders.length; i++)] that pushes
    one cell per location column onto [row]. *)
Definition build_row (date hour : string) (existingHeaders : list string)
  (weatherData : list (Reading.t num)) : list (JsValue num) :=
  fold_left
    (fun row i =>
       match nth_error existingHeaders i with
       | Some locationName =>
           match find_reading weatherData locationName with
           | Some weather => row ++ [Reading.temperature weather]
           | None => row ++ [Str ""]
           end
       | None => row
       end)
    (seq 2 (List.length existingHeaders - 2))
    [Str date; Str hour].

Definition header_cells (headers : list string) : list (JsValue num) :=
  map (@Str num) headers.

Definition appendToSheet (auth : unit) (locations : list (Location.t num))
  (weatherData : list (Reading.t num)) : Prog num unit :=
  let date := now_date env in
  let hour := now_hour env in
  existingHeaders <- values_get_first_row env "Sheet1!A1:ZZ1" ;;
  existingHeaders <-
    (if List.length existingHeaders =? 0
     then
       let existingHeaders := ["Date"; "Hour"] in
       values_update env "Sheet1!A1" [header_cells existingHeaders] ;;;
       ret existingHeaders
     else ret existingHeaders) ;;
  let newNames := newLocationNames existingHeaders locations in
  existingHeaders <-
    (if 0 <? List.length newNames
     then
       let existingHeaders := existingHeaders ++ newNames in
       values_update env "Sheet1!A1" [header_cells existingHeaders] ;;;
       ret existingHeaders
     else ret existingHeaders) ;;
  let row := build_row date hour existingHeaders weatherData in
  values_append env "Sheet1!A:ZZ" [row].

Definition collect_one (location : Location.t num) (weatherData : list (Reading.t num))
  : Prog num (list (Reading.t num)) :=
  weather <- fetchWeather (Location.latitude location) (Location.longitude location) ;;
  let weatherData :=
    weatherData ++
    [ {| Reading.location := Location.name location;
         Reading.latitude := Location.latitude location;
         Reading.longitude := Location.longitude location;
         Reading.temperature := Weather.temperature weather |} ] in
  setTimeout 1000 ;;;
  ret weatherData.

Fixpoint collect (locations : list (Location.t num)) (weatherData : list (Reading.t num))
  : Prog num (list (Reading.t num)) :=
  match locations with
  | [] => ret weatherData
  | location :: rest =>
      weatherData <- collect_one location weatherData ;;
      collect rest weatherData
  end.

(** The body of the [try] block of [main]; this revision has no dry run. *)
Definition main_try : Prog num unit :=
  locations <- loadLocations env ;;
  weatherData <- collect locations [] ;;
  auth <- googleAuth env ;;
  appendToSheet auth locations weatherData.

Definition main : nat * History num := run_main main_try.

End Script.

End Wide.

(** * The sample-data generator: bulk upload in batches *)

Module SampleData.

Section Script.

Context {num : Type} {NumOps : JsNumber num}.
Variable env : Env num.

Local Open Scope prog_scope.

Definition batchSize : nat := 1000.

(** [rows.slice(start, stop)] for [start <= stop]. *)
Definition slice {A : Type} (rows : list A) (start stop : nat) : list A :=
  firstn (stop - start) (skipn start rows).

(** The loop [for (let i = 0; i < rows.length; i += batchSize)], entered
    at index [i]. *)
Equations? upload_from (rows : list (list (JsValue num))) (i : nat) (h : History num)
  : Outcome unit * History num by wf (List.length rows - i) lt :=
  upload_from rows i h with lt_dec i (List.length rows) => {
    | left _ with values_append env "Sheet1!A:D" (slice rows i (i + batchSize)) h => {
        | (Returned _, h') => upload_from rows (i + batchSize) h'
        | (Thrown e, h') => (Thrown e, h') }
    | right _ => (Returned tt, h) }.
Proof. unfold batchSize. lia. Qed.

(** [generateSampleData] draws on the clock and on [Math.random]; its
    result is the argument [rows] here. *)
Definition appendToSheet (auth : unit) (rows : list (list (JsValue num))) : Prog num unit :=
  existingHeaders <- values_get_first_row env "Sheet1!A1:D1" ;;
  (if List.length existingHeaders =? 0
   then values_update env "Sheet1!A1"
          [[Str "Date"; Str "Hour"; Str "Location"; Str "Temperature"]]
   else ret tt) ;;;
  upload_from rows 0.

End Script.

End SampleData.

(** * Vocabulary of the properties *)

Section Vocabulary.

Context {num : Type} {NumOps : JsNumber num}.

(** ** Precipitation, in the words of the specification *)

(** What one entry adds to the accumulation: its [next_1_hours]
    precipitation amount, or 0 when the entry lacks that field. *)
Definition contribution (entry : TimeseriesEntry num) : num :=
  match AreaLong.next_hour_precipitation entry with
  | Some amount => amount
  | None => num_zero
  end.

(** The sum of the contributions of the first [min 6 (length series)]
    entries. *)
Definition precipitation_sum (series : list (TimeseriesEntry num)) : num :=
  fold_left num_add
    (map contribution (firstn (Nat.min 6 (List.length series)) series))
    num_zero.

(** The loop adds the amounts that are present and skips the others. *)
Definition accumulate (sum : num) (entry : TimeseriesEntry num) : num :=
  match AreaLong.next_hour_precipitation entry with
  | Some amount => num_add sum amount
  | None => sum
  end.

Definition precipitation_accumulated (series : list (TimeseriesEntry num)) : num :=
  fold_left accumulate (firstn (Nat.min 6 (List.length series)) series) num_zero.

(** ** Answers of the weather provider *)

(** A response with a success status whose series has a current entry. *)
Definition usable (r : Response num) : bool :=
  ok r && match json r with Some (_ :: _) => true | _ => false end.

(** A response that cannot make the cloud-cover lookup throw. *)
Definition harmless (r : Response num) : bool :=
  negb (ok r) || match json r with Some (_ :: _) => true | _ => false end.

Definition answers (test : Response num -> bool) (a : option (Response num)) : bool :=
  match a with
  | Some r => test r
  | None => false
  end.

(** Every request to [endpoint] is answered by a response passing [test]. *)
Definition always (env : Env num) (endpoint : Endpoint) (test : Response num -> bool) : Prop :=
  forall h lat lon, answers test (http_response env h endpoint lat lon) = true.

(** [c], issued after the calls [before], is a Nowcast (primary) request
    answered with a non-success status. *)
Definition failed_primary (env : Env num) (before : History num) (c : Call num) : bool :=
  match c with
  | HttpGet NowcastComplete lat lon =>
      match http_response env before NowcastComplete lat lon with
      | Some r => negb (ok r)
      | None => false
      end
  | _ => false
  end.

(** No primary request of the history was answered with a non-success
    status. *)
Fixpoint no_failed_primary (env : Env num) (h : History num) : Prop :=
  match h with
  | [] => True
  | c :: before => failed_primary env before c = false /\ no_failed_primary env before
  end.

Definition sheet_free (h : History num) : Prop :=
  forallb (fun c => negb (is_sheet_call c)) h = true.

Definition http_free (h : History num) : Prop :=
  forallb (fun c => negb (is_http_get c)) h = true.

(** The state of a run while it collects readings. *)
Definition collecting (env : Env num) (h : History num) : Prop :=
  no_failed_primary env h /\ sheet_free h.

(** The state of a run that an exception has just ended: only the most
    recent call may be a failed primary request. *)
Definition aborted (env : Env num) (h : History num) : Prop :=
  match h with
  | [] => True
  | c :: before => is_sheet_call c = false /\ collecting env before
  end.

(** Pre- and postcondition of every step of the collection phase. *)
Definition collects {A : Type} (env : Env num) (m : Prog num A) : Prop :=
  forall h, collecting env h ->
    match m h with
    | (Returned _, h') => collecting env h'
    | (Thrown _, h') => aborted env h'
    end.

(** A step that only talks to the spreadsheet API. *)
Definition sheet_only {A : Type} (m : Prog num A) : Prop :=
  forall h, exists calls, snd (m h) = calls ++ h /\ http_free calls.

(** ** Fetch order of the area revision *)

(** The labels of a list, each kept once, in order of first appearance. *)
Fixpoint distinct (labels : list string) : list string :=
  match labels with
  | [] => []
  | a :: rest => a :: filter (fun b => negb (String.eqb b a)) (distinct rest)
  end.

Definition in_area (a : string) (location : Location.t num) : bool :=
  String.eqb (AreaLong.area_or_other location) a.

(** The object built by [locations.reduce]: one property per area, in
    order of first appearance, holding the locations of the area in input
    order. *)
Definition grouped (locations : list (Location.t num)) : JsObject (list (Location.t num)) :=
  map (fun a => (a, filter (in_area a) locations))
      (distinct (map AreaLong.area_or_other locations)).

(** The order in which [Object.entries] lists the areas of [locations]. *)
Definition area_sequence (locations : list (Location.t num)) : list string :=
  map fst (Object_entries
             (map (fun a => (a, tt)) (distinct (map AreaLong.area_or_other locations)))).

(** The locations area by area, each area in input order. *)
Definition area_order (locations : list (Location.t num)) : list (Location.t num) :=
  flat_map (fun a => filter (in_area a) locations) (area_sequence locations).

(** The locations of every area are adjacent in the list: once the label
    changes, the earlier label does not come back. *)
Fixpoint adjacent_areas (labels : list string) : Prop :=
  match labels with
  | [] => True
  | a :: rest =>
      match rest with
      | [] => True
      | b :: _ => a = b \/ ~ In a rest
      end /\ adjacent_areas rest
  end.

Definition no_index_label (labels : list string) : Prop :=
  Forall (fun a => array_index a = None) labels.

Definition no_inherited_label (labels : list string) : Prop :=
  Forall (fun a => inherited a = false) labels.

(** Identity of a location and of the reading made for it. *)
Definition place (location : Location.t num) : string * num * num :=
  (Location.name location, Location.latitude location, Location.longitude location).

Definition place_long (w : NowcastLong.Reading.t num) : string * num * num :=
  (NowcastLong.Reading.location w, NowcastLong.Reading.latitude w,
   NowcastLong.Reading.longitude w).

Definition place_area (w : AreaLong.Reading.t num) : string * num * num :=
  (AreaLong.Reading.location w, AreaLong.Reading.latitude w,
   AreaLong.Reading.longitude w).

(** The calls one location costs, oldest first. *)
Definition calls_long (location : Location.t num) : list (Call num) :=
  [ HttpGet NowcastComplete (Location.latitude location) (Location.longitude location);
    SetTimeout 1000 ].

Definition calls_area (location : Location.t num) : list (Call num) :=
  [ HttpGet NowcastComplete (Location.latitude location) (Location.longitude location);
    HttpGet LocationforecastCompact (Location.latitude location) (Location.longitude location);
    SetTimeout 1000 ].

(** ** Long layout: cells by column name *)

Definition long_header : list string := ["Date"; "Hour"; "Location"; "Temperature"].

Definition area_header : list string :=
  ["Date"; "Hour"; "Area"; "Location"; "Temperature"; "Precipitation"; "CloudCover"].

Definition long_cell (date hour : string) (w : NowcastLong.Reading.t num) (column : string)
  : JsValue num :=
  if String.eqb column "Date" then Str date
  else if String.eqb column "Hour" then Str hour
  else if String.eqb column "Location" then Str (NowcastLong.Reading.location w)
  else if String.eqb column "Temperature" then NowcastLong.Reading.temperature w
  else Undefined.

Definition area_cell (date hour : string) (w : AreaLong.Reading.t num) (column : string)
  : JsValue num :=
  if String.eqb column "Date" then Str date
  else if String.eqb column "Hour" then Str hour
  else if String.eqb column "Area" then Str (AreaLong.Reading.area w)
  else if String.eqb column "Location" then Str (AreaLong.Reading.location w)
  else if String.eqb column "Temperature" then AreaLong.Reading.temperature w
  else if String.eqb column "Precipitation" then Num (AreaLong.Reading.precipitation w)
  else if String.eqb column "CloudCover" then AreaLong.Reading.cloudCover w
  else Undefined.

(** ** Wide layout *)

(** The header the wide writer works from: the default when the sheet has
    none. *)
Definition wide_base (existing : list string) : list string :=
  match existing with
  | [] => ["Date"; "Hour"]
  | _ :: _ => existing
  end.

(** The header update issued for new location columns, if any. *)
Definition column_update (header added : list string) : list (Call num) :=
  match added with
  | [] => []
  | _ :: _ => [SheetValuesUpdate "Sheet1!A1" [Wide.header_cells (header ++ added)]]
  end.

(** The header update issued for an empty sheet, if any. *)
Definition default_update (existing : list string) : list (Call num) :=
  match existing with
  | [] => [SheetValuesUpdate "Sheet1!A1" [Wide.header_cells ["Date"; "Hour"]]]
  | _ :: _ => []
  end.

(** The cell of a location column. *)
Definition wide_cell (weatherData : list (Wide.Reading.t num)) (column : string) : JsValue num :=
  match Wide.find_reading weatherData column with
  | Some weather => Wide.Reading.temperature weather
  | None => Str ""
  end.

(** ** Bulk upload *)

(** The batches of the [values.append] calls of a history, oldest first. *)
Fixpoint appended (h : History num) : list (list (list (JsValue num))) :=
  match h with
  | [] => []
  | SheetValuesAppend _ values :: before => appended before ++ [values]
  | _ :: before => appended before
  end.

End Vocabulary.

(** * Example data *)

Module Examples.

Definition details (t c p : option Q) : Details Q :=
  {| air_temperature := t; cloud_area_fraction := c; precipitation_amount := p |}.

(** An entry with temperature 5.2, no cloud fraction, and the given
    next-hour precipitation. *)
Definition entry (p : option Q) : TimeseriesEntry Q :=
  {| time := "2025-12-03T00:00:00Z";
     instant := details (Some (52 # 10)%Q) None None;
     next_1_hours := Some {| period_details := Some (details None None p) |} |}.

(** An entry without [next_1_hours]. *)
Definition bare_entry : TimeseriesEntry Q :=
  {| time := "2025-12-03T01:00:00Z";
     instant := details (Some (52 # 10)%Q) (Some 0%Q) None;
     next_1_hours := None |}.

Definition series : list (TimeseriesEntry Q) :=
  [ entry (Some (1 # 2)%Q); bare_entry; entry (Some (3 # 10)%Q); entry None;
    entry (Some (1 # 10)%Q); entry (Some 1%Q); entry (Some 7%Q) ].

Definition success : Response Q := {| ok := true; status := 200; json := Some series |}.

Definition failure : Response Q := {| ok := false; status := 503; json := None |}.

Definition at_place (n : string) (lat : Q) (a : option string) : Location.t Q :=
  {| Location.name := n; Location.latitude := lat; Location.longitude := 10%Q;
     Location.area := a |}.

Definition oslo : Location.t Q := at_place "Oslo" 59 None.

(** Three locations whose areas interleave. *)
Definition interleaved : list (Location.t Q) :=
  [ at_place "A" 1 (Some "X"); at_place "B" 2 (Some "Y"); at_place "C" 3 (Some "X") ].

(** Three locations listed area by area. *)
Definition by_area : list (Location.t Q) :=
  [ at_place "A" 1 (Some "X"); at_place "C" 3 (Some "X"); at_place "B" 2 None ].

(** A provider that always answers [success]; an empty sheet that accepts
    every write. *)
Definition fair_weather (args : list string) (locations : list (Location.t Q)) : Env Q :=
  {| argv := args;
     config_locations := Some locations;
     credentials_parse := true;
     now_date := "2025-12-03";
     now_hour := "00";
     http_response := fun _ _ _ _ => Some success;
     sheet_values := fun _ _ => Some None;
     sheet_accepts := fun _ _ => true |}.

(** The same provider, except that the cloud-cover endpoint is down. *)
Definition no_clouds : Env Q :=
  {| argv := ["node"; "src/index.js"];
     config_locations := Some [oslo];
     credentials_parse := true;
     now_date := "2025-12-03";
     now_hour := "00";
     http_response := fun _ endpoint _ _ =>
       match endpoint with
       | NowcastComplete => Some success
       | LocationforecastCompact => Some failure
       end;
     sheet_values := fun _ _ => Some None;
     sheet_accepts := fun _ _ => true |}.

(** A provider whose Nowcast endpoint answers requests for latitude 3
    with a non-success status. *)
Definition third_fails : Env Q :=
  {| argv := ["node"; "src/index.js"];
     config_locations := Some interleaved;
     credentials_parse := true;
     now_date := "2025-12-03";
     now_hour := "00";
     http_response := fun _ endpoint lat _ =>
       match endpoint with
       | NowcastComplete => if Qeq_bool lat 3 then Some failure else Some success
       | LocationforecastCompact => Some success
       end;
     sheet_values := fun _ _ => Some None;
     sheet_accepts := fun _ _ => true |}.

(** A provider that is down altogether. *)
Definition outage : Env Q :=
  {| argv := ["node"; "src/index.js"];
     config_locations := Some [oslo];
     credentials_parse := true;
     now_date := "2025-12-03";
     now_hour := "00";
     http_response := fun _ _ _ _ => Some failure;
     sheet_values := fun _ _ => Some None;
     sheet_accepts := fun _ _ => true |}.

(** A sheet that already has a wide header with one location column. *)
Definition wide_sheet : Env Q :=
  {| argv := ["node"; "src/index.js"];
     config_locations := Some [oslo];
     credentials_parse := true;
     now_date := "2025-12-03";
     now_hour := "06";
     http_response := fun _ _ _ _ => Some success;
     sheet_values := fun _ _ => Some (Some [["Date"; "Hour"; "Bergen"]]);
     sheet_accepts := fun _ _ => true |}.

Definition wide_reading (n : string) (t : Q) : Wide.Reading.t Q :=
  {| Wide.Reading.location := n; Wide.Reading.latitude := 59%Q;
     Wide.Reading.longitude := 10%Q; Wide.Reading.temperature := Num t |}.

Definition bergen : Location.t Q := at_place "Bergen" 60 (Some "West").

Definition two_places : list (Location.t Q) := [oslo; bergen].

Definition two_readings : list (Wide.Reading.t Q) :=
  [wide_reading "Oslo" (52 # 10); wide_reading "Bergen" 7].

Definition long_reading (n : string) (t : Q) : NowcastLong.Reading.t Q :=
  {| NowcastLong.Reading.location := n; NowcastLong.Reading.latitude := 59%Q;
     NowcastLong.Reading.longitude := 10%Q; NowcastLong.Reading.temperature := Num t |}.

Definition area_reading (a n : string) (t : Q) : AreaLong.Reading.t Q :=
  {| AreaLong.Reading.area := a; AreaLong.Reading.location := n;
     AreaLong.Reading.latitude := 59%Q; AreaLong.Reading.longitude := 10%Q;
     AreaLong.Reading.temperature := Num t; AreaLong.Reading.precipitation := (1 # 2)%Q;
     AreaLong.Reading.cloudCover := Null |}.

(** Historical rows, numbered. *)
Definition sample_row (d : nat) : list (JsValue Q) :=
  [Str "2025-10-01"; Str "12"; Str "Oslo"; Num (Z.of_nat d # 1)%Q].

Definition sample_rows (n : nat) : list (list (JsValue Q)) := map sample_row (seq 0 n).

End Examples.

(** * Vocabulary of further properties *)

Section FurtherVocabulary.

Context {num : Type} {NumOps : JsNumber num}.

(** ** The collection phase of the wide revision *)

(** [c], issued after the calls [before], is a Locationforecast request
    answered with a non-success status; it is the only request the wide
    revision makes. *)
Definition failed_forecast (env : Env num) (before : History num) (c : Call num) : bool :=
  match c with
  | HttpGet LocationforecastCompact lat lon =>
      match http_response env before LocationforecastCompact lat lon with
      | Some r => negb (ok r)
      | None => false
      end
  | _ => false
  end.

Fixpoint no_failed_forecast (env : Env num) (h : History num) : Prop :=
  match h with
  | [] => True
  | c :: before => failed_forecast env before c = false /\ no_failed_forecast env before
  end.

Definition wide_collecting (env : Env num) (h : History num) : Prop :=
  no_failed_forecast env h /\ sheet_free h.

Definition wide_aborted (env : Env num) (h : History num) : Prop :=
  match h with
  | [] => True
  | c :: before => is_sheet_call c = false /\ wide_collecting env before
  end.

Definition wide_collects {A : Type} (env : Env num) (m : Prog num A) : Prop :=
  forall h, wide_collecting env h ->
    match m h with
    | (Returned _, h') => wide_collecting env h'
    | (Thrown _, h') => wide_aborted env h'
    end.

(** Identity of a reading of the wide revision, and the calls one
    location costs there, oldest first. *)
Definition place_wide (w : Wide.Reading.t num) : string * num * num :=
  (Wide.Reading.location w, Wide.Reading.latitude w, Wide.Reading.longitude w).

Definition calls_wide (location : Location.t num) : list (Call num) :=
  [ HttpGet LocationforecastCompact (Location.latitude location)
            (Location.longitude location);
    SetTimeout 1000 ].

(** ** A provider that answers by coordinates *)

(** The provider answers every request as [answer] says, whatever came
    before. *)
Definition steady (env : Env num) (answer : Endpoint -> num -> num -> Response num) : Prop :=
  forall h endpoint lat lon, http_response env h endpoint lat lon = Some (answer endpoint lat lon).

(** The temperature a response reports: that of its current entry. *)
Definition reported_temperature (r : Response num) : JsValue num :=
  match json r with
  | Some (current :: _) => field_value (air_temperature (instant current))
  | _ => Undefined
  end.

(** The precipitation a Nowcast response adds up to. *)
Definition reported_precipitation (r : Response num) : num :=
  match json r with
  | Some series => precipitation_accumulated series
  | None => num_zero
  end.

(** The cloud cover a forecast response stands for. *)
Definition reported_cloud_cover (r : Response num) : JsValue num :=
  if ok r then
    match json r with
    | Some (current :: _) => or_zero (cloud_area_fraction (instant current))
    | _ => Undefined
    end
  else Null.

Definition long_reading_of (answer : Endpoint -> num -> num -> Response num)
  (l : Location.t num) : NowcastLong.Reading.t num :=
  {| NowcastLong.Reading.location := Location.name l;
     NowcastLong.Reading.latitude := Location.latitude l;
     NowcastLong.Reading.longitude := Location.longitude l;
     NowcastLong.Reading.temperature :=
       reported_temperature
         (answer NowcastComplete (Location.latitude l) (Location.longitude l)) |}.

Definition wide_reading_of (answer : Endpoint -> num -> num -> Response num)
  (l : Location.t num) : Wide.Reading.t num :=
  {| Wide.Reading.location := Location.name l;
     Wide.Reading.latitude := Location.latitude l;
     Wide.Reading.longitude := Location.longitude l;
     Wide.Reading.temperature :=
       reported_temperature
         (answer LocationforecastCompact (Location.latitude l) (Location.longitude l)) |}.

Definition area_reading_of (answer : Endpoint -> num -> num -> Response num)
  (l : Location.t num) : AreaLong.Reading.t num :=
  {| AreaLong.Reading.area := AreaLong.area_or_other l;
     AreaLong.Reading.location := Location.name l;
     AreaLong.Reading.latitude := Location.latitude l;
     AreaLong.Reading.longitude := Location.longitude l;
     AreaLong.Reading.temperature :=
       reported_temperature
         (answer NowcastComplete (Location.latitude l) (Location.longitude l));
     AreaLong.Reading.precipitation :=
       reported_precipitation
         (answer NowcastComplete (Location.latitude l) (Location.longitude l));
     AreaLong.Reading.cloudCover :=
       reported_cloud_cover
         (answer LocationforecastCompact (Location.latitude l) (Location.longitude l)) |}.

(** ** Counting requests *)



(** ** The spreadsheet as seen by a writer *)

(** The sheet answers every read. *)
Definition sheet_answers (env : Env num) : Prop :=
  forall h range, sheet_values env h range <> None.

(** The sheet accepts every write. *)
Definition sheet_accepts_all (env : Env num) : Prop :=
  forall h c, sheet_accepts env h c = true.

(** The header a read of [range] yields after the calls [h]. *)
Definition header_read (env : Env num) (range : string) (h : History num) : list string :=
  match sheet_values env h range with
  | Some (Some (row :: _)) => row
  | _ => []
  end.

(** The write of a default header, issued only for an empty sheet. *)
Definition header_write (existing header : list string) : list (Call num) :=
  match existing with
  | [] => [SheetValuesUpdate "Sheet1!A1" [map (@Str num) header]]
  | _ :: _ => []
  end.

(** A writer appended at most once, as its last call. *)
Definition appends_at_most_once (h : History num) (result : Outcome unit * History num)
  : Prop :=
  (appended (snd result) = appended h /\ fst result <> Returned tt)
  \/ (exists range values before,
        snd result = SheetValuesAppend range values :: before
        /\ appended before = appended h).

(** ** Batches in closed form *)

(** The slices [rows.slice(k * 1000, k * 1000 + 1000)] for every [k]
    below the number of batches. *)
Definition batches_of (rows : list (list (JsValue num))) : list (list (list (JsValue num))) :=
  map (fun k => SampleData.slice rows (k * 1000) (k * 1000 + 1000))
      (seq 0 ((List.length rows + 999) / 1000)).

(** The slices taken from index [i] on. *)
Definition batches_from (rows : list (list (JsValue num))) (i : nat)
  : list (list (list (JsValue num))) :=
  map (fun k => SampleData.slice rows (i + k * 1000) (i + k * 1000 + 1000))
      (seq 0 ((List.length rows - i + 999) / 1000)).

End FurtherVocabulary.

(** * Further example data *)

Module MoreExamples.

(** A run without a readable configuration. *)
Definition no_config : Env Q :=
  {| argv := ["node"; "src/index.js"];
     config_locations := None;
     credentials_parse := true;
     now_date := "2025-12-03";
     now_hour := "00";
     http_response := fun _ _ _ _ => Some Examples.success;
     sheet_values := fun _ _ => Some None;
     sheet_accepts := fun _ _ => true |}.

(** A run whose credentials do not parse. *)
Definition bad_credentials : Env Q :=
  {| argv := ["node"; "src/index.js"];
     config_locations := Some Examples.two_places;
     credentials_parse := false;
     now_date := "2025-12-03";
     now_hour := "00";
     http_response := fun _ _ _ _ => Some Examples.success;
     sheet_values := fun _ _ => Some None;
     sheet_accepts := fun _ _ => true |}.

(** A provider that answers requests for latitude 60 with a non-success
    status, on either endpoint. *)
Definition bergen_fails : Env Q :=
  {| argv := ["node"; "src/index.js"];
     config_locations := Some Examples.two_places;
     credentials_parse := true;
     now_date := "2025-12-03";
     now_hour := "00";
     http_response := fun _ _ lat _ =>
       if Qeq_bool lat 60 then Some Examples.failure else Some Examples.success;
     sheet_values := fun _ _ => Some None;
     sheet_accepts := fun _ _ => true |}.

(** A provider whose Nowcast endpoint answers requests for latitude 2
    with a non-success status. *)
Definition second_fails : Env Q :=
  {| argv := ["node"; "src/index.js"];
     config_locations := Some Examples.interleaved;
     credentials_parse := true;
     now_date := "2025-12-03";
     now_hour := "00";
     http_response := fun _ endpoint lat _ =>
       match endpoint with
       | NowcastComplete =>
           if Qeq_bool lat 2 then Some Examples.failure else Some Examples.success
       | LocationforecastCompact => Some Examples.success
       end;
     sheet_values := fun _ _ => Some None;
     sheet_accepts := fun _ _ => true |}.

(** A sheet with a header of its own that rejects every write. *)
Definition read_only_sheet (header : list string) : Env Q :=
  {| argv := ["node"; "src/index.js"];
     config_locations := Some Examples.two_places;
     credentials_parse := true;
     now_date := "2025-12-03";
     now_hour := "00";
     http_response := fun _ _ _ _ => Some Examples.success;
     sheet_values := fun _ _ =>
       match header with [] => Some None | _ :: _ => Some (Some [header]) end;
     sheet_accepts := fun _ _ => false |}.

(** A sheet with a header of its own that accepts every write. *)
Definition sheet_with (header : list string) (locations : list (Location.t Q)) : Env Q :=
  {| argv := ["node"; "src/index.js"];
     config_locations := Some locations;
     credentials_parse := true;
     now_date := "2025-12-03";
     now_hour := "00";
     http_response := fun _ _ _ _ => Some Examples.success;
     sheet_values := fun _ _ =>
       match header with [] => Some None | _ :: _ => Some (Some [header]) end;
     sheet_accepts := fun _ _ => true |}.

(** A spreadsheet API that fails on reads. *)
Definition sheet_down : Env Q :=
  {| argv := ["node"; "src/index.js"];
     config_locations := Some Examples.two_places;
     credentials_parse := true;
     now_date := "2025-12-03";
     now_hour := "00";
     http_response := fun _ _ _ _ => Some Examples.success;
     sheet_values := fun _ _ => None;
     sheet_accepts := fun _ _ => true |}.

(** A cloud-cover endpoint that answers with a success status and an
    empty series. *)
Definition empty_forecast : Env Q :=
  {| argv := ["node"; "src/index.js"];
     config_locations := Some [Examples.oslo];
     credentials_parse := true;
     now_date := "2025-12-03";
     now_hour := "00";
     http_response := fun _ endpoint _ _ =>
       match endpoint with
       | NowcastComplete => Some Examples.success
       | LocationforecastCompact => Some {| ok := true; status := 200; json := Some [] |}
       end;
     sheet_values := fun _ _ => Some None;
     sheet_accepts := fun _ _ => true |}.

(** A provider that reports the latitude as the temperature, and a cloud
    fraction of 75. *)
Definition by_latitude (endpoint : Endpoint) (lat lon : Q) : Response Q :=
  {| ok := true; status := 200;
     json := Some [ {| time := "2025-12-03T00:00:00Z";
                       instant := Examples.details (Some lat) (Some 75%Q) None;
                       next_1_hours :=
                         Some {| period_details :=
                                   Some (Examples.details None None (Some (1 # 4)%Q)) |} |} ] |}.

Definition thermometer : Env Q :=
  {| argv := ["node"; "src/index.js"];
     config_locations := Some Examples.two_places;
     credentials_parse := true;
     now_date := "2025-12-03";
     now_hour := "00";
     http_response := fun _ endpoint lat lon => Some (by_latitude endpoint lat lon);
     sheet_values := fun _ _ => Some None;
     sheet_accepts := fun _ _ => true |}.

(** The same provider in front of a sheet that holds [header]. *)
Definition thermometer_on (header : list string) : Env Q :=
  {| argv := ["node"; "src/index.js"];
     config_locations := Some Examples.two_places;
     credentials_parse := true;
     now_date := "2025-12-03";
     now_hour := "00";
     http_response := fun _ endpoint lat lon => Some (by_latitude endpoint lat lon);
     sheet_values := fun _ _ =>
       match header with [] => Some None | _ :: _ => Some (Some [header]) end;
     sheet_accepts := fun _ _ => true |}.

(** A location whose area label is a property name of [Object.prototype]. *)
Definition odd_places : list (Location.t Q) :=
  [Examples.oslo; Examples.at_place "Troll" 62 (Some "constructor"); Examples.bergen].

(** Two entries for one name. *)
Definition twice_oslo : list (Location.t Q) :=
  [Examples.oslo; Examples.bergen; Examples.at_place "Oslo" 61 None].

End MoreExamples.

(** * Facts *)

(** ** Loops over indices *)

Lemma skipn_nth_error {A : Type} (l : list A) (a : nat) (x : A) :
  nth_error l a = Some x -> skipn a l = x :: skipn (S a) l.
Proof.
  revert l. induction a as [|a IH]; intros [|y l] H; simpl in H; try discriminate.
  - injection H as ->. reflexivity.
  - rewrite skipn_cons. rewrite (IH l H). reflexivity.
Qed.

Lemma skipn_nth_error_None {A : Type} (l : list A) (a : nat) :
  nth_error l a = None -> skipn a l = [].
Proof.
  intros H. apply skipn_all2. apply nth_error_None. exact H.
Qed.

(** A loop [for (i = a; i < a + n; i++)] reading [l[i]] visits the slice
    of [l] that starts at [a]. *)
Lemma fold_indices {A B : Type} (g : B -> A -> B) (l : list A) (n a : nat) (acc : B) :
  fold_left (fun acc i => match nth_error l i with Some x => g acc x | None => acc end)
            (seq a n) acc
  = fold_left g (firstn n (skipn a l)) acc.
Proof.
  revert a acc. induction n as [|n IH]; intros a acc; simpl.
  - reflexivity.
  - destruct (nth_error l a) as [x|] eqn:E.
    + rewrite (skipn_nth_error E). simpl. apply IH.
    + rewrite IH. rewrite (skipn_nth_error_None E).
      assert (E' : nth_error l (S a) = None).
      { apply nth_error_None. apply nth_error_None in E. lia. }
      rewrite (skipn_nth_error_None E'). rewrite firstn_nil. reflexivity.
Qed.

Section FetchFacts.

Context {num : Type} {NumOps : JsNumber num}.
Variable env : Env num.

Lemma precipitation_loop_firstn (series : list (TimeseriesEntry num)) :
  AreaLong.precipitation_loop series = precipitation_accumulated series.
Proof.
  exact (fold_indices accumulate series (Nat.min 6 (List.length series)) 0 num_zero).
Qed.

Lemma skipping_is_adding_zero (Hzero : forall x : num, num_add x num_zero = x)
  (entries : list (TimeseriesEntry num)) (acc : num) :
  fold_left accumulate entries acc = fold_left num_add (map contribution entries) acc.
Proof.
  revert acc. induction entries as [|entry entries IH]; intros acc; simpl.
  - reflexivity.
  - unfold accumulate at 2, contribution at 2.
    destruct (AreaLong.next_hour_precipitation entry); [|rewrite Hzero]; apply IH.
Qed.

(** What [fetchWeather] does once the primary endpoint has answered with a
    success status and a series with a current entry. *)
Lemma fetchWeather_primary_ok (lat lon : num) (h : History num) (r : Response num)
  (current : TimeseriesEntry num) (rest : list (TimeseriesEntry num)) :
  http_response env h NowcastComplete lat lon = Some r ->
  ok r = true ->
  json r = Some (current :: rest) ->
  let h1 := HttpGet NowcastComplete lat lon :: h in
  let h2 := HttpGet LocationforecastCompact lat lon :: h1 in
  let weather cloud :=
    {| AreaLong.Weather.temperature := field_value (air_temperature (instant current));
       AreaLong.Weather.precipitation := AreaLong.precipitation_loop (current :: rest);
       AreaLong.Weather.cloudCover := cloud;
       AreaLong.Weather.timestamp := time current |} in
  AreaLong.fetchWeather env lat lon h =
  match http_response env h1 LocationforecastCompact lat lon with
  | None => (Thrown RejectedFetch, h2)
  | Some r2 =>
      if ok r2 then
        match json r2 with
        | None => (Thrown RejectedJson, h2)
        | Some [] => (Thrown TypeError, h2)
        | Some (forecastCurrent :: _) =>
            (Returned (weather (or_zero (cloud_area_fraction (instant forecastCurrent)))), h2)
        end
      else (Returned (weather Null), h2)
  end.
Proof.
  intros Hr Hok Hjson. cbv zeta.
  unfold AreaLong.fetchWeather, bind, fetch, response_timeseries, first_entry, ret, throw.
  rewrite Hr, Hok, Hjson. simpl.
  destruct (http_response env _ LocationforecastCompact lat lon) as [r2|]; [|reflexivity].
  destruct (ok r2); [|reflexivity].
  destruct (json r2) as [[|fc frest]|]; reflexivity.
Qed.

End FetchFacts.

Lemma Q_add_zero (x : Q) : num_add x num_zero = x.
Proof.
  destruct x as [n d]. unfold num_add, num_zero, Q_JsNumber, Qplus. simpl.
  rewrite Z.mul_1_r, Z.add_0_r, Pos.mul_1_r. reflexivity.
Qed.

Section FetchClaims.

Context {num : Type} {NumOps : JsNumber num}.
Variable env : Env num.

(** C2. When the primary endpoint answers with a series, the precipitation
    of the reading is what the first [min 6 (length series)] entries add
    up to, from 0, each entry adding its [next_1_hours] precipitation
    amount and an entry without that field adding nothing; where adding 0
    changes nothing, this is the sum of the contributions with 0 for such
    an entry.  A reading is produced as soon as the series has a current
    entry and the cloud-cover lookup cannot throw. *)
Theorem precipitation_sums_first_six (lat lon : num) (h : History num)
  (r : Response num) (series : list (TimeseriesEntry num))
  (Hanswer : http_response env h NowcastComplete lat lon = Some r)
  (Hok : ok r = true)
  (Hseries : json r = Some series) :
  (forall w h', AreaLong.fetchWeather env lat lon h = (Returned w, h') ->
     AreaLong.Weather.precipitation w = precipitation_accumulated series
     /\ ((forall x : num, num_add x num_zero = x) ->
         AreaLong.Weather.precipitation w = precipitation_sum series))
  /\ (series <> [] ->
      answers harmless
        (http_response env (HttpGet NowcastComplete lat lon :: h)
                       LocationforecastCompact lat lon) = true ->
      exists w h', AreaLong.fetchWeather env lat lon h = (Returned w, h')).
Proof.
  destruct series as [|current rest].
  - split; [|intros Hne; contradiction Hne; reflexivity].
    intros w h'. unfold AreaLong.fetchWeather, bind, fetch, response_timeseries, first_entry.
    rewrite Hanswer, Hok, Hseries. simpl. discriminate.
  - rewrite (fetchWeather_primary_ok Hanswer Hok Hseries). split.
    + intros w h' Hrun.
      assert (Hw : AreaLong.Weather.precipitation w
                   = AreaLong.precipitation_loop (current :: rest)).
      { destruct (http_response env _ LocationforecastCompact lat lon) as [r2|];
          [|discriminate].
        destruct (ok r2);
          [destruct (json r2) as [[|fc frest]|]; try discriminate|];
          injection Hrun as <- _; reflexivity. }
      rewrite Hw, precipitation_loop_firstn. split; [reflexivity|].
      intros Hzero. unfold precipitation_accumulated, precipitation_sum.
      apply skipping_is_adding_zero. exact Hzero.
    + intros _ Hsecond.
      destruct (http_response env _ LocationforecastCompact lat lon) as [r2|];
        [|discriminate].
      unfold answers, harmless in Hsecond.
      destruct (ok r2); [|eauto].
      destruct (json r2) as [[|fc frest]|]; try discriminate. eauto.
Qed.

(** C4. A non-success status of the primary endpoint makes the fetch fail
    at once; when the primary endpoint succeeds and its series has a
    current entry, a non-success status of the cloud-cover endpoint still
    yields a reading, with [null] for cloud cover. *)
Theorem cloud_cover_degrades_primary_is_fatal (lat lon : num) (h : History num)
  (r : Response num)
  (Hanswer : http_response env h NowcastComplete lat lon = Some r) :
  (ok r = false ->
   AreaLong.fetchWeather env lat lon h
   = (Thrown (ApiError "Nowcast API error" (status r)), HttpGet NowcastComplete lat lon :: h))
  /\ (ok r = true ->
      forall current rest r2,
        json r = Some (current :: rest) ->
        http_response env (HttpGet NowcastComplete lat lon :: h)
                      LocationforecastCompact lat lon = Some r2 ->
        ok r2 = false ->
        exists w,
          AreaLong.fetchWeather env lat lon h
          = (Returned w,
             HttpGet LocationforecastCompact lat lon :: HttpGet NowcastComplete lat lon :: h)
          /\ AreaLong.Weather.cloudCover w = Null
          /\ AreaLong.Weather.temperature w = field_value (air_temperature (instant current))).
Proof.
  split.
  - intros Hok. unfold AreaLong.fetchWeather, bind, fetch.
    rewrite Hanswer, Hok. reflexivity.
  - intros Hok current rest r2 Hjson Hanswer2 Hok2.
    rewrite (fetchWeather_primary_ok Hanswer Hok Hjson), Hanswer2, Hok2.
    eexists. split; [reflexivity|]. split; reflexivity.
Qed.

(** C9. When both endpoints succeed and the current entry of the forecast
    has no [cloud_area_fraction], or a falsy one, the cloud cover of the
    reading is the number 0, which is not the [null] of a failed lookup. *)
Theorem missing_cloud_fraction_is_zero (lat lon : num) (h : History num)
  (r r2 : Response num) (current forecastCurrent : TimeseriesEntry num)
  (rest forecastRest : list (TimeseriesEntry num))
  (Hanswer : http_response env h NowcastComplete lat lon = Some r)
  (Hok : ok r = true)
  (Hjson : json r = Some (current :: rest))
  (Hanswer2 : http_response env (HttpGet NowcastComplete lat lon :: h)
                            LocationforecastCompact lat lon = Some r2)
  (Hok2 : ok r2 = true)
  (Hjson2 : json r2 = Some (forecastCurrent :: forecastRest))
  (Hfalsy : match cloud_area_fraction (instant forecastCurrent) with
            | Some v => num_truthy v = false
            | None => True
            end) :
  exists w h',
    AreaLong.fetchWeather env lat lon h = (Returned w, h')
    /\ AreaLong.Weather.cloudCover w = Num num_zero
    /\ AreaLong.Weather.cloudCover w <> Null.
Proof.
  rewrite (fetchWeather_primary_ok Hanswer Hok Hjson), Hanswer2, Hok2, Hjson2.
  do 2 eexists. split; [reflexivity|]. simpl. unfold or_zero.
  destruct (cloud_area_fraction (instant forecastCurrent)) as [v|];
    [rewrite Hfalsy|]; split; try reflexivity; discriminate.
Qed.

End FetchClaims.

Lemma precipitation_sums_first_six_witness :
  exists w h',
    AreaLong.fetchWeather (Examples.fair_weather [] [Examples.oslo]) 59%Q 10%Q [] = (Returned w, h')
    /\ AreaLong.Weather.precipitation w = precipitation_accumulated Examples.series
    /\ AreaLong.Weather.precipitation w = precipitation_sum Examples.series
    /\ Qeq (AreaLong.Weather.precipitation w) (19 # 10).
Proof.
  destruct (@precipitation_sums_first_six Q _ (Examples.fair_weather [] [Examples.oslo])
              59%Q 10%Q [] Examples.success Examples.series
              eq_refl eq_refl eq_refl) as [Hsum Hruns].
  destruct Hruns as (w & h' & Hrun); [discriminate | reflexivity |].
  exists w, h'. split; [exact Hrun|].
  destruct (Hsum w h' Hrun) as [Hloop Hspec].
  split; [exact Hloop|]. split; [exact (Hspec Q_add_zero)|].
  rewrite Hloop. vm_compute. reflexivity.
Defined.

Lemma cloud_cover_degrades_primary_is_fatal_witness :
  AreaLong.fetchWeather Examples.outage 59%Q 10%Q []
  = (Thrown (ApiError "Nowcast API error" 503), [HttpGet NowcastComplete 59%Q 10%Q])
  /\ exists w,
       AreaLong.fetchWeather Examples.no_clouds 59%Q 10%Q []
       = (Returned w, [HttpGet LocationforecastCompact 59%Q 10%Q; HttpGet NowcastComplete 59%Q 10%Q])
       /\ AreaLong.Weather.cloudCover w = Null
       /\ AreaLong.Weather.temperature w = Num (52 # 10)%Q.
Proof.
  split.
  - apply (proj1 (@cloud_cover_degrades_primary_is_fatal Q _ Examples.outage
                    59%Q 10%Q [] Examples.failure eq_refl)).
    reflexivity.
  - apply (proj2 (@cloud_cover_degrades_primary_is_fatal Q _ Examples.no_clouds
                    59%Q 10%Q [] Examples.success eq_refl) eq_refl
                 (Examples.entry (Some (1 # 2)%Q)) (tl Examples.series) Examples.failure);
      reflexivity.
Defined.

Lemma missing_cloud_fraction_is_zero_witness :
  exists w h',
    AreaLong.fetchWeather (Examples.fair_weather [] [Examples.oslo]) 59%Q 10%Q [] = (Returned w, h')
    /\ AreaLong.Weather.cloudCover w = Num 0%Q
    /\ AreaLong.Weather.cloudCover w <> Null.
Proof.
  exact (@missing_cloud_fraction_is_zero Q Q_JsNumber (Examples.fair_weather [] [Examples.oslo])
           59%Q 10%Q [] Examples.success Examples.success
           (Examples.entry (Some (1 # 2)%Q)) (Examples.entry (Some (1 # 2)%Q))
           (tl Examples.series) (tl Examples.series)
           eq_refl eq_refl eq_refl eq_refl eq_refl eq_refl I).
Defined.

(** ** Grouping by area *)

Lemma eqb_sym_false (a b : string) : String.eqb a b = false -> String.eqb b a = false.
Proof. rewrite (String.eqb_sym b a). trivial. Qed.

Lemma existsb_eqb_In (a : string) (l : list string) :
  existsb (String.eqb a) l = true <-> In a l.
Proof.
  rewrite existsb_exists. split.
  - intros (b & Hin & Heq). apply String.eqb_eq in Heq. subst. exact Hin.
  - intros Hin. exists a. split; [exact Hin|apply String.eqb_refl].
Qed.

Lemma existsb_eqb_not_In (a : string) (l : list string) :
  existsb (String.eqb a) l = false <-> ~ In a l.
Proof.
  rewrite <- existsb_eqb_In. destruct (existsb (String.eqb a) l); split; intros H;
    try discriminate; try reflexivity; try (intros H'; discriminate).
  contradiction H. reflexivity.
Qed.

Lemma distinct_In (a : string) (l : list string) : In a (distinct l) <-> In a l.
Proof.
  induction l as [|b l IH]; simpl; [tauto|].
  rewrite filter_In, IH. destruct (String.eqb a b) eqn:E.
  - apply String.eqb_eq in E. subst. tauto.
  - assert (b <> a) by (intros ->; rewrite String.eqb_refl in E; discriminate).
    simpl. intuition congruence.
Qed.

Lemma distinct_NoDup (l : list string) : NoDup (distinct l).
Proof.
  induction l as [|b l IH]; simpl; constructor.
  - rewrite filter_In. intros [_ H]. rewrite String.eqb_refl in H. discriminate.
  - apply NoDup_filter. exact IH.
Qed.

Lemma existsb_distinct (a : string) (l : list string) :
  existsb (String.eqb a) (distinct l) = existsb (String.eqb a) l.
Proof.
  destruct (existsb (String.eqb a) l) eqn:E.
  - apply existsb_eqb_In, distinct_In, existsb_eqb_In. exact E.
  - apply existsb_eqb_not_In. rewrite distinct_In. apply existsb_eqb_not_In. exact E.
Qed.

Lemma filter_absent (a : string) (l : list string) :
  ~ In a l -> filter (fun b => negb (String.eqb b a)) l = l.
Proof.
  induction l as [|b l IH]; simpl; intros H; [reflexivity|].
  destruct (String.eqb b a) eqn:E.
  - apply String.eqb_eq in E. subst. contradiction H. left. reflexivity.
  - simpl. rewrite IH; [reflexivity|tauto].
Qed.

Lemma distinct_snoc (l : list string) (a : string) :
  distinct (l ++ [a]) = if existsb (String.eqb a) l then distinct l else distinct l ++ [a].
Proof.
  induction l as [|b l IH]; simpl; [reflexivity|].
  rewrite IH. destruct (String.eqb a b) eqn:E; simpl.
  - destruct (existsb (String.eqb a) l); [reflexivity|].
    rewrite filter_app. simpl. rewrite E. simpl. rewrite app_nil_r. reflexivity.
  - destruct (existsb (String.eqb a) l); [reflexivity|].
    rewrite filter_app. simpl. rewrite E. reflexivity.
Qed.

Section ObjectFacts.

Variables (V W : Type) (f : string -> V) (g : string -> W).

Lemma own_property_map (keys : list string) (a : string) :
  own_property (map (fun k => (k, f k)) keys) a
  = if existsb (String.eqb a) keys then Some (f a) else None.
Proof.
  induction keys as [|k keys IH]; simpl; [reflexivity|].
  rewrite (String.eqb_sym a k). destruct (String.eqb k a) eqn:E; simpl.
  - apply String.eqb_eq in E. subst. reflexivity.
  - exact IH.
Qed.

Lemma replace_property_map (keys : list string) (a : string) (f' : string -> V) :
  In a keys ->
  NoDup keys ->
  (forall k, k <> a -> f' k = f k) ->
  replace_property (map (fun k => (k, f k)) keys) a (f' a)
  = map (fun k => (k, f' k)) keys.
Proof.
  intros Hin Hnd Hf'.
  induction keys as [|k keys IH]; simpl; [contradiction|].
  inversion Hnd as [|? ? Hk Hnd']; subst.
  destruct (String.eqb k a) eqn:E.
  - apply String.eqb_eq in E. subst. f_equal.
    apply map_ext_in. intros k Hkin. rewrite Hf'; [reflexivity|].
    intros Heq. subst. contradiction.
  - rewrite (Hf' k) by (intros Heq; subst; rewrite String.eqb_refl in E; discriminate).
    f_equal. apply IH; [|assumption].
    destruct Hin as [Heq|Hin]; [subst; rewrite String.eqb_refl in E; discriminate|exact Hin].
Qed.

Lemma insert_indexed_retag (n : N) (k : string) (v : V) (l : list (N * (string * V))) :
  map (retag g) (insert_indexed n (k, v) l) = insert_indexed n (k, g k) (map (retag g) l).
Proof.
  induction l as [|[m q] l IH]; simpl; [reflexivity|].
  destruct (n <? m)%N; simpl; [reflexivity|]. rewrite IH. reflexivity.
Qed.

Lemma indexed_properties_retag (keys : list string) :
  map (retag g) (indexed_properties (map (fun k => (k, f k)) keys))
  = indexed_properties (map (fun k => (k, g k)) keys).
Proof.
  induction keys as [|k keys IH]; simpl; [reflexivity|].
  destruct (array_index k); [|exact IH].
  rewrite insert_indexed_retag, IH. reflexivity.
Qed.

Lemma named_properties_map (keys : list string) :
  named_properties (map (fun k => (k, f k)) keys)
  = map (fun k => (k, f k))
        (filter (fun k => match array_index k with Some _ => false | None => true end) keys).
Proof.
  unfold named_properties. induction keys as [|k keys IH]; simpl; [reflexivity|].
  destruct (array_index k); simpl; rewrite IH; reflexivity.
Qed.

End ObjectFacts.

Lemma insert_indexed_In (V : Type) (n : N) (q : string * V) (l : list (N * (string * V)))
  (p : N * (string * V)) :
  In p (insert_indexed n q l) <-> p = (n, q) \/ In p l.
Proof.
  induction l as [|[m q'] l IH]; simpl.
  - intuition congruence.
  - destruct (n <? m)%N; simpl; [intuition congruence|].
    rewrite IH. intuition congruence.
Qed.

Lemma indexed_properties_In (V : Type) (o : JsObject V) (p : N * (string * V)) :
  In p (indexed_properties o) -> In (snd p) o /\ array_index (fst (snd p)) = Some (fst p).
Proof.
  induction o as [|q o IH]; simpl; [contradiction|].
  destruct (array_index (fst q)) as [n|] eqn:E.
  - rewrite insert_indexed_In. intros [->|Hin]; simpl; [tauto|].
    destruct (IH Hin). tauto.
  - intros Hin. destruct (IH Hin). tauto.
Qed.

(** [Object.entries] lists the keys in an order that does not depend on
    the values. *)
Lemma Object_entries_map (V : Type) (f : string -> V) (keys : list string) :
  Object_entries (map (fun k => (k, f k)) keys)
  = map (fun k => (k, f k))
        (map fst (Object_entries (map (fun k => (k, tt)) keys))).
Proof.
  unfold Object_entries. rewrite !map_app, !named_properties_map.
  f_equal.
  - rewrite <- (indexed_properties_retag f (fun _ => tt) keys).
    rewrite !map_map. apply map_ext_in. intros [n [k v]] Hin.
    apply indexed_properties_In in Hin. destruct Hin as [Hin _]. simpl in *.
    apply in_map_iff in Hin. destruct Hin as (k' & Heq & _).
    injection Heq as -> ->. reflexivity.
  - rewrite !map_map. simpl. reflexivity.
Qed.

Section GroupFacts.

Context {num : Type} {NumOps : JsNumber num}.

Lemma in_area_snoc (a : string) (p : list (Location.t num)) (x : Location.t num) :
  filter (in_area a) (p ++ [x])
  = filter (in_area a) p ++ (if String.eqb (AreaLong.area_or_other x) a then [x] else []).
Proof. rewrite filter_app. reflexivity. Qed.

Lemma in_area_absent (a : string) (p : list (Location.t num)) :
  ~ In a (map AreaLong.area_or_other p) -> filter (in_area a) p = [].
Proof.
  induction p as [|y p IH]; simpl; intros H; [reflexivity|].
  unfold in_area at 1. destruct (String.eqb (AreaLong.area_or_other y) a) eqn:E.
  - apply String.eqb_eq in E. tauto.
  - apply IH. tauto.
Qed.

(** One step of the reduction adds the location to its area. *)
Lemma group_step_grouped (p : list (Location.t num)) (x : Location.t num) :
  inherited (AreaLong.area_or_other x) = false ->
  AreaLong.group_step (grouped p) x = Returned (grouped (p ++ [x])).
Proof.
  intros Hx. unfold AreaLong.group_step, grouped.
  rewrite (own_property_map (fun a => filter (in_area a) p)), existsb_distinct.
  rewrite map_app. simpl map. rewrite distinct_snoc.
  destruct (existsb (String.eqb (AreaLong.area_or_other x)) (map AreaLong.area_or_other p)) eqn:E.
  - f_equal.
    assert (Hlast : filter (in_area (AreaLong.area_or_other x)) p ++ [x]
                    = filter (in_area (AreaLong.area_or_other x)) (p ++ [x])).
    { rewrite in_area_snoc, String.eqb_refl. reflexivity. }
    rewrite Hlast.
    apply (replace_property_map (f := fun a => filter (in_area a) p)
             (f' := fun a => filter (in_area a) (p ++ [x]))).
    + apply distinct_In. apply existsb_eqb_In. exact E.
    + apply distinct_NoDup.
    + intros k Hk. rewrite in_area_snoc.
      destruct (String.eqb (AreaLong.area_or_other x) k) eqn:Ek.
      * apply String.eqb_eq in Ek. congruence.
      * apply app_nil_r.
  - rewrite Hx. f_equal. rewrite map_app. simpl.
    apply existsb_eqb_not_In in E.
    rewrite in_area_snoc, String.eqb_refl, (in_area_absent E). simpl.
    f_equal. apply map_ext_in. intros k Hk. rewrite in_area_snoc.
    destruct (String.eqb (AreaLong.area_or_other x) k) eqn:Ek.
    + apply String.eqb_eq in Ek. subst. rewrite distinct_In in Hk. contradiction.
    + rewrite app_nil_r. reflexivity.
Qed.

Lemma group_reduce_grouped (q p : list (Location.t num)) :
  no_inherited_label (map AreaLong.area_or_other q) ->
  AreaLong.group_reduce q (grouped p) = Returned (grouped (p ++ q)).
Proof.
  revert p. induction q as [|x q IH]; intros p Hq; simpl.
  - rewrite app_nil_r. reflexivity.
  - inversion Hq as [|? ? Hx Hq']; subst.
    rewrite (group_step_grouped p Hx), (IH _ Hq'), <- app_assoc. reflexivity.
Qed.

(** The reduction succeeds when no area label is inherited from
    [Object.prototype], and builds [grouped]. *)
Lemma locationsByArea_grouped (locations : list (Location.t num))
  (h : History num) :
  no_inherited_label (map AreaLong.area_or_other locations) ->
  AreaLong.locationsByArea locations h = (Returned (grouped locations), h).
Proof.
  intros H. unfold AreaLong.locationsByArea.
  change (@nil (string * list (Location.t num))) with (grouped (@nil (Location.t num))).
  rewrite (@group_reduce_grouped locations [] H). reflexivity.
Qed.

(** The entries of [grouped], flattened, are the locations area by area. *)
Lemma entries_grouped (locations : list (Location.t num)) :
  flat_map snd (Object_entries (grouped locations)) = area_order locations.
Proof.
  unfold grouped, area_order, area_sequence.
  rewrite (Object_entries_map (fun a => filter (in_area a) locations)).
  rewrite flat_map_concat_map, map_map. simpl.
  rewrite <- flat_map_concat_map. reflexivity.
Qed.

End GroupFacts.

(** ** The fetch order as a rearrangement of the input *)

Lemma insert_indexed_Permutation (V : Type) (n : N) (q : string * V)
  (l : list (N * (string * V))) :
  Permutation (insert_indexed n q l) ((n, q) :: l).
Proof.
  induction l as [|[m q'] l IH]; simpl; [apply Permutation_refl|].
  destruct (n <? m)%N; [apply Permutation_refl|].
  eapply perm_trans; [apply perm_skip, IH|apply perm_swap].
Qed.

Lemma Object_entries_Permutation (V : Type) (o : JsObject V) :
  Permutation (Object_entries o) o.
Proof.
  unfold Object_entries, named_properties. induction o as [|q o IH]; simpl.
  - apply Permutation_refl.
  - destruct (array_index (fst q)) as [n|].
    + eapply perm_trans; [|apply perm_skip, IH].
      change (q :: map snd (indexed_properties o) ++ filter _ o)
        with ((q :: map snd (indexed_properties o)) ++
              filter (fun p : string * V =>
                        match array_index (fst p) with Some _ => false | None => true end) o).
      apply Permutation_app_tail.
      change (q :: map snd (indexed_properties o))
        with (map snd ((n, q) :: indexed_properties o)).
      apply Permutation_map, insert_indexed_Permutation.
    + eapply perm_trans; [|apply perm_skip, IH]. apply Permutation_sym, Permutation_middle.
Qed.

(** Without array-index keys, [Object.entries] keeps creation order. *)
Lemma Object_entries_named (V : Type) (o : JsObject V) :
  no_index_label (map fst o) -> Object_entries o = o.
Proof.
  intros H. unfold Object_entries, named_properties.
  assert (Hindexed : indexed_properties o = []).
  { induction o as [|q o IH]; simpl; [reflexivity|].
    inversion H as [|? ? Hq Ho]; subst. rewrite Hq. apply IH. exact Ho. }
  rewrite Hindexed. simpl.
  induction o as [|q o IH]; simpl; [reflexivity|].
  inversion H as [|? ? Hq Ho]; subst. rewrite Hq. f_equal. apply IH.
  - exact Ho.
  - simpl in Hindexed. rewrite Hq in Hindexed. exact Hindexed.
Qed.

Lemma flat_map_agree (A B : Type) (f g : A -> list B) (l : list A) :
  (forall a, In a l -> f a = g a) -> flat_map f l = flat_map g l.
Proof.
  intros H. rewrite !flat_map_concat_map. f_equal. apply map_ext_in. exact H.
Qed.

Section OrderFacts.

Context {num : Type} {NumOps : JsNumber num}.

Lemma area_sequence_Permutation (locations : list (Location.t num)) :
  Permutation (area_sequence locations)
              (distinct (map AreaLong.area_or_other locations)).
Proof.
  unfold area_sequence.
  eapply perm_trans; [apply Permutation_map, Object_entries_Permutation|].
  rewrite map_map. simpl. rewrite map_id. apply Permutation_refl.
Qed.

Lemma filter_in_area_cons (a : string) (x : Location.t num) (p : list (Location.t num)) :
  filter (in_area a) (x :: p)
  = if String.eqb (AreaLong.area_or_other x) a then x :: filter (in_area a) p
    else filter (in_area a) p.
Proof. reflexivity. Qed.

Lemma flat_map_other_areas (x : Location.t num) (p : list (Location.t num))
  (keys : list string) :
  ~ In (AreaLong.area_or_other x) keys ->
  flat_map (fun a => filter (in_area a) (x :: p)) keys
  = flat_map (fun a => filter (in_area a) p) keys.
Proof.
  intros H. apply flat_map_agree. intros a Ha. rewrite filter_in_area_cons.
  destruct (String.eqb (AreaLong.area_or_other x) a) eqn:E; [|reflexivity].
  apply String.eqb_eq in E. subst. contradiction.
Qed.

Lemma flat_map_own_area (x : Location.t num) (p : list (Location.t num))
  (keys : list string) :
  NoDup keys ->
  In (AreaLong.area_or_other x) keys ->
  Permutation (flat_map (fun a => filter (in_area a) (x :: p)) keys)
              (x :: flat_map (fun a => filter (in_area a) p) keys).
Proof.
  induction keys as [|k keys IH]; intros Hnd Hin; [contradiction|].
  inversion Hnd as [|? ? Hk Hnd']; subst. cbn [flat_map].
  rewrite filter_in_area_cons.
  destruct (String.eqb (AreaLong.area_or_other x) k) eqn:E.
  - apply String.eqb_eq in E. subst.
    rewrite (flat_map_other_areas p Hk). apply Permutation_refl.
  - destruct Hin as [Heq|Hin]; [subst; rewrite String.eqb_refl in E; discriminate|].
    eapply perm_trans; [apply Permutation_app_head, (IH Hnd' Hin)|].
    apply Permutation_sym, Permutation_middle.
Qed.

Lemma by_area_Permutation (p : list (Location.t num)) (keys : list string) :
  NoDup keys ->
  incl (map AreaLong.area_or_other p) keys ->
  Permutation (flat_map (fun a => filter (in_area a) p) keys) p.
Proof.
  intros Hnd. induction p as [|x p IH]; intros Hincl.
  - induction keys as [|k keys IHk]; simpl; [constructor|].
    inversion Hnd; subst. apply IHk. assumption. intros ? [].
  - eapply perm_trans; [apply flat_map_own_area; [exact Hnd|]|].
    + apply Hincl. left. reflexivity.
    + apply perm_skip, IH. intros a Ha. apply Hincl. right. exact Ha.
Qed.

(** Every location is fetched exactly once. *)
Lemma area_order_Permutation (locations : list (Location.t num)) :
  Permutation (area_order locations) locations.
Proof.
  unfold area_order.
  eapply perm_trans.
  - apply Permutation_flat_map, area_sequence_Permutation.
  - apply by_area_Permutation; [apply distinct_NoDup|].
    intros a Ha. apply distinct_In. exact Ha.
Qed.

Lemma filter_twice (a : string) (l : list string) :
  filter (fun b => negb (String.eqb b a)) (filter (fun b => negb (String.eqb b a)) l)
  = filter (fun b => negb (String.eqb b a)) l.
Proof.
  induction l as [|b l IH]; simpl; [reflexivity|].
  destruct (negb (String.eqb b a)) eqn:E; simpl; [rewrite E, IH|]; auto.
Qed.

Lemma flat_map_skip_area (x : Location.t num) (p : list (Location.t num))
  (keys : list string) :
  flat_map (fun b => filter (in_area b) (x :: p))
           (filter (fun b => negb (String.eqb b (AreaLong.area_or_other x))) keys)
  = flat_map (fun b => filter (in_area b) p)
             (filter (fun b => negb (String.eqb b (AreaLong.area_or_other x))) keys).
Proof.
  apply flat_map_other_areas. rewrite filter_In. intros [_ H].
  rewrite String.eqb_refl in H. discriminate.
Qed.

(** When the locations of each area are adjacent, listing them area by
    area in order of first appearance gives the list back. *)
Lemma adjacent_by_area (p : list (Location.t num)) :
  adjacent_areas (map AreaLong.area_or_other p) ->
  flat_map (fun a => filter (in_area a) p) (distinct (map AreaLong.area_or_other p)) = p.
Proof.
  induction p as [|x p IH]; [reflexivity|].
  intros [Hhead Hrest]. specialize (IH Hrest).
  change (distinct (map AreaLong.area_or_other (x :: p)))
    with (AreaLong.area_or_other x
          :: filter (fun b => negb (String.eqb b (AreaLong.area_or_other x)))
                    (distinct (map AreaLong.area_or_other p))).
  cbn [flat_map]. rewrite flat_map_skip_area, filter_in_area_cons, String.eqb_refl.
  cbn [app]. f_equal.
  destruct p as [|y p]; [reflexivity|].
  destruct Hhead as [Hsame|Hfresh].
  - change (AreaLong.area_or_other x = AreaLong.area_or_other y) in Hsame.
    assert (Hd : distinct (map AreaLong.area_or_other (y :: p))
                 = AreaLong.area_or_other x
                   :: filter (fun b => negb (String.eqb b (AreaLong.area_or_other x)))
                             (distinct (map AreaLong.area_or_other p))).
    { simpl. rewrite <- Hsame. reflexivity. }
    rewrite Hd in IH |- *. cbn [flat_map] in IH.
    cbn [filter]. rewrite String.eqb_refl. cbn [negb].
    rewrite filter_twice. exact IH.
  - rewrite (in_area_absent Hfresh). cbn [app].
    rewrite filter_absent; [exact IH|].
    rewrite distinct_In. exact Hfresh.
Qed.

Lemma area_order_adjacent (locations : list (Location.t num)) :
  adjacent_areas (map AreaLong.area_or_other locations) ->
  no_index_label (map AreaLong.area_or_other locations) ->
  area_order locations = locations.
Proof.
  intros Hadj Hidx. unfold area_order, area_sequence.
  rewrite Object_entries_named.
  - rewrite map_map. simpl. rewrite map_id. apply adjacent_by_area. exact Hadj.
  - rewrite map_map. simpl. rewrite map_id.
    apply Forall_forall. intros a Ha. rewrite distinct_In in Ha.
    unfold no_index_label in Hidx. rewrite Forall_forall in Hidx. auto.
Qed.

End OrderFacts.

(** ** Runs in which every fetch succeeds *)

Section SuccessfulRuns.

Context {num : Type} {NumOps : JsNumber num}.
Variable env : Env num.

Hypothesis primary_up : always env NowcastComplete usable.

Lemma usable_inv (a : option (Response num)) :
  answers usable a = true ->
  exists r current rest, a = Some r /\ ok r = true /\ json r = Some (current :: rest).
Proof.
  destruct a as [r|]; [|discriminate]. unfold answers, usable.
  intros H. apply andb_true_iff in H. destruct H as [Hok Hjson].
  destruct (json r) as [[|current rest]|] eqn:Ej; try discriminate.
  exists r, current, rest. auto.
Qed.

Lemma long_fetchWeather_up (lat lon : num) (h : History num) :
  exists w,
    NowcastLong.fetchWeather env lat lon h
    = (Returned w, HttpGet NowcastComplete lat lon :: h).
Proof.
  destruct (usable_inv (primary_up h lat lon)) as (r & current & rest & Hr & Hok & Hjson).
  unfold NowcastLong.fetchWeather, bind, fetch, response_timeseries, first_entry.
  rewrite Hr, Hok, Hjson. simpl. eexists. reflexivity.
Qed.

Lemma long_collect_up (locations : list (Location.t num))
  (weatherData : list (NowcastLong.Reading.t num)) (h : History num) :
  exists readings,
    NowcastLong.collect env locations weatherData h
    = (Returned (weatherData ++ readings), rev (flat_map calls_long locations) ++ h)
    /\ map place_long readings = map place locations.
Proof.
  revert weatherData h. induction locations as [|x locations IH]; intros weatherData h.
  - exists []. simpl. rewrite app_nil_r. split; reflexivity.
  - destruct (long_fetchWeather_up (Location.latitude x) (Location.longitude x) h)
      as (w & Hw).
    simpl NowcastLong.collect. unfold bind at 1. unfold NowcastLong.collect_one.
    unfold bind at 1. rewrite Hw. unfold bind at 1. unfold setTimeout at 1. unfold ret at 1.
    match goal with |- context [NowcastLong.collect env locations ?wd ?h1] =>
      destruct (IH wd h1) as (readings & Hrun & Hplaces) end.
    eexists (_ :: readings). split.
    + rewrite Hrun. f_equal.
      * rewrite <- app_assoc. reflexivity.
      * change (flat_map calls_long (x :: locations))
          with (calls_long x ++ flat_map calls_long locations).
        rewrite rev_app_distr, <- app_assoc. reflexivity.
    + simpl. rewrite Hplaces. reflexivity.
Qed.

Hypothesis secondary_harmless : always env LocationforecastCompact harmless.

Lemma area_fetchWeather_up (lat lon : num) (h : History num) :
  exists w,
    AreaLong.fetchWeather env lat lon h
    = (Returned w,
       HttpGet LocationforecastCompact lat lon :: HttpGet NowcastComplete lat lon :: h).
Proof.
  destruct (usable_inv (primary_up h lat lon)) as (r & current & rest & Hr & Hok & Hjson).
  rewrite (fetchWeather_primary_ok Hr Hok Hjson).
  pose proof (secondary_harmless (HttpGet NowcastComplete lat lon :: h) lat lon) as H2.
  destruct (http_response env _ LocationforecastCompact lat lon) as [r2|]; [|discriminate].
  unfold answers, harmless in H2.
  destruct (ok r2); [|eexists; reflexivity].
  destruct (json r2) as [[|fc frest]|]; try discriminate. eexists. reflexivity.
Qed.

Lemma area_collect_area_up (areaLocations : list (Location.t num))
  (weatherData : list (AreaLong.Reading.t num)) (h : History num) :
  exists readings,
    AreaLong.collect_area env areaLocations weatherData h
    = (Returned (weatherData ++ readings), rev (flat_map calls_area areaLocations) ++ h)
    /\ map place_area readings = map place areaLocations
    /\ map (@AreaLong.Reading.area num) readings
       = map AreaLong.area_or_other areaLocations.
Proof.
  revert weatherData h. induction areaLocations as [|x locations IH]; intros weatherData h.
  - exists []. simpl. rewrite app_nil_r. repeat split; reflexivity.
  - destruct (area_fetchWeather_up (Location.latitude x) (Location.longitude x) h)
      as (w & Hw).
    simpl AreaLong.collect_area. unfold bind at 1. unfold AreaLong.collect_one.
    unfold bind at 1. rewrite Hw. unfold bind at 1. unfold setTimeout at 1. unfold ret at 1.
    match goal with |- context [AreaLong.collect_area env locations ?wd ?h1] =>
      destruct (IH wd h1) as (readings & Hrun & Hplaces & Hareas) end.
    eexists (_ :: readings). split; [|split].
    + rewrite Hrun. f_equal.
      * rewrite <- app_assoc. reflexivity.
      * change (flat_map calls_area (x :: locations))
          with (calls_area x ++ flat_map calls_area locations).
        rewrite rev_app_distr, <- app_assoc. reflexivity.
    + simpl. rewrite Hplaces. reflexivity.
    + simpl. rewrite Hareas. reflexivity.
Qed.

Lemma area_collect_entries_up (entries : list (string * list (Location.t num)))
  (weatherData : list (AreaLong.Reading.t num)) (h : History num) :
  exists readings,
    AreaLong.collect_entries env entries weatherData h
    = (Returned (weatherData ++ readings),
       rev (flat_map calls_area (flat_map snd entries)) ++ h)
    /\ map place_area readings = map place (flat_map snd entries)
    /\ map (@AreaLong.Reading.area num) readings
       = map AreaLong.area_or_other (flat_map snd entries).
Proof.
  revert weatherData h. induction entries as [|[a areaLocations] entries IH];
    intros weatherData h.
  - exists []. simpl. rewrite app_nil_r. repeat split; reflexivity.
  - destruct (area_collect_area_up areaLocations weatherData h)
      as (first & Hfirst & Hplaces1 & Hareas1).
    simpl AreaLong.collect_entries. unfold bind at 1. rewrite Hfirst.
    destruct (IH (weatherData ++ first) (rev (flat_map calls_area areaLocations) ++ h))
      as (others & Hothers & Hplaces2 & Hareas2).
    exists (first ++ others). split; [|split].
    + rewrite Hothers. f_equal.
      * rewrite <- app_assoc. reflexivity.
      * cbn [flat_map snd]. rewrite flat_map_app, rev_app_distr, <- app_assoc. reflexivity.
    + simpl. rewrite !map_app, Hplaces1, Hplaces2. reflexivity.
    + simpl. rewrite !map_app, Hareas1, Hareas2. reflexivity.
Qed.

(** The Reading Collector of the area revision fetches the locations area
    by area. *)
Lemma area_collect_up (locations : list (Location.t num)) (h : History num) :
  no_inherited_label (map AreaLong.area_or_other locations) ->
  exists readings,
    AreaLong.collect env locations h
    = (Returned readings, rev (flat_map calls_area (area_order locations)) ++ h)
    /\ map place_area readings = map place (area_order locations)
    /\ map (@AreaLong.Reading.area num) readings
       = map AreaLong.area_or_other (area_order locations).
Proof.
  intros Hlabels. unfold AreaLong.collect, bind.
  rewrite (locationsByArea_grouped h Hlabels).
  destruct (area_collect_entries_up (Object_entries (grouped locations)) [] h)
    as (readings & Hrun & Hplaces & Hareas).
  rewrite entries_grouped in *. exists readings. auto.
Qed.

End SuccessfulRuns.

(** ** The collection phase and its histories *)

Section CollectionPhase.

Context {num : Type} {NumOps : JsNumber num}.
Variable env : Env num.

Lemma collecting_nil : collecting env [].
Proof. split; reflexivity. Qed.

Lemma collecting_cons (c : Call num) (h : History num) :
  collecting env h ->
  failed_primary env h c = false ->
  is_sheet_call c = false ->
  collecting env (c :: h).
Proof.
  intros [Hf Hs] Hc Hsheet. split.
  - split; assumption.
  - unfold sheet_free in *. simpl. rewrite Hsheet. exact Hs.
Qed.

Lemma collecting_aborted (h : History num) : collecting env h -> aborted env h.
Proof.
  destruct h as [|c before]; [intros; exact I|].
  intros [[Hc Hf] Hs]. unfold sheet_free in Hs. simpl in Hs.
  apply andb_true_iff in Hs. destruct Hs as [Hsheet Hs].
  split.
  - destruct (is_sheet_call c); [discriminate|reflexivity].
  - split; assumption.
Qed.

Lemma aborted_sheet_free (h : History num) : aborted env h -> sheet_free h.
Proof.
  destruct h as [|c before]; [reflexivity|].
  intros [Hsheet [_ Hs]]. unfold sheet_free in *. simpl. rewrite Hsheet. exact Hs.
Qed.

Lemma collects_ret (A : Type) (a : A) : collects env (ret a).
Proof. intros h Hh. exact Hh. Qed.

Lemma collects_throw (A : Type) (e : Error) : collects env (@throw num A e).
Proof. intros h Hh. apply collecting_aborted. exact Hh. Qed.

Lemma collects_bind (A B : Type) (m : Prog num A) (k : A -> Prog num B) :
  collects env m -> (forall a, collects env (k a)) -> collects env (bind m k).
Proof.
  intros Hm Hk h Hh. unfold bind. specialize (Hm h Hh).
  destruct (m h) as [[a|e] h'].
  - apply Hk. exact Hm.
  - exact Hm.
Qed.

(** The primary request followed by the status check of [fetchWeather]. *)
Lemma collects_primary (A : Type) (lat lon : num) (e : Response num -> Error)
  (k : Response num -> Prog num A) :
  (forall r, collects env (k r)) ->
  collects env (bind (fetch env NowcastComplete lat lon)
                     (fun r => if negb (ok r) then throw (e r) else k r)).
Proof.
  intros Hk h Hh. unfold bind, fetch.
  destruct (http_response env h NowcastComplete lat lon) as [r|] eqn:Hr.
  - destruct (ok r) eqn:Hok; simpl.
    + apply Hk. apply collecting_cons; [exact Hh| |reflexivity].
      simpl. rewrite Hr, Hok. reflexivity.
    + split; [reflexivity|exact Hh].
  - split; [reflexivity|exact Hh].
Qed.

(** The request to the cloud-cover endpoint. *)
Lemma collects_secondary (lat lon : num) :
  collects env (fetch env LocationforecastCompact lat lon).
Proof.
  intros h Hh. unfold fetch.
  destruct (http_response env h LocationforecastCompact lat lon).
  - apply collecting_cons; [exact Hh|reflexivity|reflexivity].
  - split; [reflexivity|exact Hh].
Qed.

Lemma collects_setTimeout (ms : nat) : collects env (@setTimeout num ms).
Proof.
  intros h Hh. unfold setTimeout.
  apply collecting_cons; [exact Hh|reflexivity|reflexivity].
Qed.

Lemma collects_response_timeseries (r : Response num) :
  collects env (response_timeseries r).
Proof.
  unfold response_timeseries. destruct (json r); [apply collects_ret|apply collects_throw].
Qed.

Lemma collects_first_entry (ts : list (TimeseriesEntry num)) :
  collects env (first_entry ts).
Proof.
  unfold first_entry. destruct ts; [apply collects_throw|apply collects_ret].
Qed.

Lemma collects_loadLocations : collects env (loadLocations env).
Proof.
  unfold loadLocations. destruct (config_locations env);
    [apply collects_ret|apply collects_throw].
Qed.

Ltac collects_steps :=
  repeat first
    [ apply collects_ret
    | apply collects_throw
    | apply collects_setTimeout
    | apply collects_secondary
    | apply collects_response_timeseries
    | apply collects_first_entry
    | apply collects_primary; intros ?
    | apply collects_bind; [|intros ?] ].

Lemma area_fetchWeather_collects (lat lon : num) :
  collects env (AreaLong.fetchWeather env lat lon).
Proof.
  unfold AreaLong.fetchWeather.
  apply collects_primary with (e := fun r => ApiError "Nowcast API error" (status r)).
  intros r. collects_steps.
  match goal with |- collects env (if ?b then _ else _) => destruct b end;
    collects_steps.
Qed.

Lemma area_collect_one_collects (location : Location.t num)
  (weatherData : list (AreaLong.Reading.t num)) :
  collects env (AreaLong.collect_one env location weatherData).
Proof.
  unfold AreaLong.collect_one. apply collects_bind.
  - apply area_fetchWeather_collects.
  - intros w. collects_steps.
Qed.

Lemma area_collect_area_collects (areaLocations : list (Location.t num))
  (weatherData : list (AreaLong.Reading.t num)) :
  collects env (AreaLong.collect_area env areaLocations weatherData).
Proof.
  revert weatherData. induction areaLocations as [|x rest IH]; intros weatherData; simpl.
  - apply collects_ret.
  - apply collects_bind; [apply area_collect_one_collects|intros wd; apply IH].
Qed.

Lemma area_collect_entries_collects (entries : list (string * list (Location.t num)))
  (weatherData : list (AreaLong.Reading.t num)) :
  collects env (AreaLong.collect_entries env entries weatherData).
Proof.
  revert weatherData. induction entries as [|[a areaLocations] rest IH];
    intros weatherData; simpl.
  - apply collects_ret.
  - apply collects_bind; [apply area_collect_area_collects|intros wd; apply IH].
Qed.

Lemma area_collect_collects (locations : list (Location.t num)) :
  collects env (AreaLong.collect env locations).
Proof.
  unfold AreaLong.collect. apply collects_bind.
  - unfold AreaLong.locationsByArea.
    destruct (AreaLong.group_reduce locations []); [apply collects_ret|apply collects_throw].
  - intros byArea. apply area_collect_entries_collects.
Qed.

Lemma long_fetchWeather_collects (lat lon : num) :
  collects env (NowcastLong.fetchWeather env lat lon).
Proof.
  unfold NowcastLong.fetchWeather.
  apply collects_primary with (e := fun r => ApiError "Weather API error" (status r)).
  intros r. collects_steps.
Qed.

Lemma long_collect_collects (locations : list (Location.t num))
  (weatherData : list (NowcastLong.Reading.t num)) :
  collects env (NowcastLong.collect env locations weatherData).
Proof.
  revert weatherData. induction locations as [|x rest IH]; intros weatherData; simpl.
  - apply collects_ret.
  - apply collects_bind; [|intros wd; apply IH].
    unfold NowcastLong.collect_one. apply collects_bind.
    + apply long_fetchWeather_collects.
    + intros w. collects_steps.
Qed.

(** *** The write phase *)

Lemma no_failed_primary_app (calls h : History num) :
  http_free calls -> no_failed_primary env h -> no_failed_primary env (calls ++ h).
Proof.
  unfold http_free. induction calls as [|c calls IH]; simpl; intros Hfree Hh; [exact Hh|].
  apply andb_true_iff in Hfree. destruct Hfree as [Hc Hfree]. split.
  - destruct c; try reflexivity. discriminate.
  - apply IH; assumption.
Qed.

Lemma no_failed_primary_inside (after before : History num) (c : Call num) :
  no_failed_primary env (after ++ c :: before) -> failed_primary env before c = false.
Proof.
  induction after as [|c' after IH]; simpl; intros H; [tauto|apply IH; tauto].
Qed.

Lemma sheet_only_ret (A : Type) (a : A) : sheet_only (@ret num A a).
Proof. intros h. exists []. split; reflexivity. Qed.

Lemma sheet_only_throw (A : Type) (e : Error) : sheet_only (@throw num A e).
Proof. intros h. exists []. split; reflexivity. Qed.

Lemma sheet_only_bind (A B : Type) (m : Prog num A) (k : A -> Prog num B) :
  sheet_only m -> (forall a, sheet_only (k a)) -> sheet_only (bind m k).
Proof.
  intros Hm Hk h. unfold bind. destruct (Hm h) as (c1 & H1 & F1).
  destruct (m h) as [[a|e] h']; simpl in H1; subst h'.
  - destruct (Hk a (c1 ++ h)) as (c2 & H2 & F2). exists (c2 ++ c1). split.
    + rewrite H2. apply app_assoc.
    + unfold http_free in *. rewrite forallb_app, F1, F2. reflexivity.
  - exists c1. split; [reflexivity|exact F1].
Qed.

Lemma sheet_only_get (range : string) : sheet_only (values_get_first_row env range).
Proof.
  intros h. exists [SheetValuesGet range]. split; [|reflexivity].
  unfold values_get_first_row.
  destruct (sheet_values env h range) as [[[|row rows]|]|]; reflexivity.
Qed.

Lemma sheet_only_update (range : string) (values : list (list (JsValue num))) :
  sheet_only (values_update env range values).
Proof.
  intros h. exists [SheetValuesUpdate range values]. split; [|reflexivity].
  unfold values_update. destruct (sheet_accepts env h _); reflexivity.
Qed.

Lemma sheet_only_append (range : string) (values : list (list (JsValue num))) :
  sheet_only (values_append env range values).
Proof.
  intros h. exists [SheetValuesAppend range values]. split; [|reflexivity].
  unfold values_append. destruct (sheet_accepts env h _); reflexivity.
Qed.

Lemma sheet_only_googleAuth : sheet_only (googleAuth env).
Proof.
  unfold googleAuth. destruct (credentials_parse env);
    [apply sheet_only_ret|apply sheet_only_throw].
Qed.

Lemma area_appendToSheet_sheet_only (auth : unit) (locations : list (Location.t num))
  (weatherData : list (AreaLong.Reading.t num)) :
  sheet_only (AreaLong.appendToSheet env auth locations weatherData).
Proof.
  unfold AreaLong.appendToSheet.
  apply sheet_only_bind; [apply sheet_only_get|intros existingHeaders].
  apply sheet_only_bind; [|intros _; apply sheet_only_append].
  destruct (List.length existingHeaders =? 0);
    [apply sheet_only_update|apply sheet_only_ret].
Qed.

(** *** Whole runs *)

(** A run of the area revision either never saw a failed primary request,
    or ended with exit status 1 when an exception left the Reading
    Collector, before any sheet call. *)
Lemma area_main_outcome (code : nat) (trace : History num) :
  AreaLong.main env = (code, trace) ->
  no_failed_primary env trace
  \/ (code = 1 /\ aborted env trace
      /\ (trace = []
          \/ exists locations e,
               config_locations env = Some locations
               /\ AreaLong.collect env locations [] = (Thrown e, trace))).
Proof.
  unfold AreaLong.main, run_main, AreaLong.main_try. unfold bind at 1.
  unfold loadLocations.
  destruct (config_locations env) as [locations|].
  2:{ intros Hrun. injection Hrun as <- <-. right. simpl. auto. }
  unfold ret at 1. unfold bind at 1.
  pose proof (area_collect_collects locations collecting_nil) as Hcollect.
  destruct (AreaLong.collect env locations []) as [[weatherData|e] h1] eqn:Hrun1.
  2:{ intros Hrun. injection Hrun as <- <-. right.
      split; [reflexivity|]. split; [exact Hcollect|]. right. eauto. }
  destruct (dryRun env).
  - intros Hrun. injection Hrun as <- <-. left. apply Hcollect.
  - intros Hrun. left.
    assert (Hwrite : sheet_only
                       (bind (googleAuth env)
                             (fun auth => AreaLong.appendToSheet env auth locations weatherData))).
    { apply sheet_only_bind; [apply sheet_only_googleAuth|].
      intros auth. apply area_appendToSheet_sheet_only. }
    destruct (Hwrite h1) as (calls & Hcalls & Hfree).
    destruct (bind (googleAuth env) _ h1) as [[u|e] h2];
      simpl in Hcalls; subst h2; injection Hrun as <- <-;
      apply no_failed_primary_app; try assumption; apply Hcollect.
Qed.

(** With the dry-run flag, the history of a run is that of its collection
    phase. *)
Lemma area_main_dry :
  dryRun env = true -> sheet_free (snd (AreaLong.main env)).
Proof.
  intros Hdry.
  unfold AreaLong.main, run_main, AreaLong.main_try. unfold bind at 1.
  pose proof (collects_loadLocations collecting_nil) as Hload.
  destruct (loadLocations env []) as [[locations|e] h0].
  2:{ apply aborted_sheet_free. exact Hload. }
  unfold bind at 1.
  pose proof (area_collect_collects locations Hload) as Hcollect.
  destruct (AreaLong.collect env locations h0) as [[weatherData|e] h1].
  2:{ apply aborted_sheet_free. exact Hcollect. }
  rewrite Hdry. apply Hcollect.
Qed.

Lemma long_main_dry :
  dryRun env = true -> sheet_free (snd (NowcastLong.main env)).
Proof.
  intros Hdry.
  unfold NowcastLong.main, run_main, NowcastLong.main_try. unfold bind at 1.
  pose proof (collects_loadLocations collecting_nil) as Hload.
  destruct (loadLocations env []) as [[locations|e] h0].
  2:{ apply aborted_sheet_free. exact Hload. }
  unfold bind at 1.
  pose proof (long_collect_collects locations [] Hload) as Hcollect.
  destruct (NowcastLong.collect env locations [] h0) as [[weatherData|e] h1].
  2:{ apply aborted_sheet_free. exact Hcollect. }
  rewrite Hdry. apply Hcollect.
Qed.

End CollectionPhase.

(** ** Runs of [main] *)

Section RunClaims.

Context {num : Type} {NumOps : JsNumber num}.
Variable env : Env num.

(** When a primary (Nowcast) request of a run of the area revision is
    answered with a non-success status, that request is the last call of
    the run: the Reading Collector is left by an exception, the history
    holds no call to the spreadsheet API, and the exit status is 1. *)
Lemma failed_primary_request_is_last (code : nat) (trace after before : History num)
  (lat lon : num) (r : Response num)
  (Hrun : AreaLong.main env = (code, trace))
  (Hcall : trace = after ++ HttpGet NowcastComplete lat lon :: before)
  (Hanswer : http_response env before NowcastComplete lat lon = Some r)
  (Hstatus : ok r = false) :
  after = []
  /\ code = 1
  /\ sheet_free trace
  /\ (forall c, In c trace -> is_sheet_write c = false)
  /\ exists locations e,
       config_locations env = Some locations
       /\ AreaLong.collect env locations [] = (Thrown e, trace).
Proof.
  assert (Hfailed : failed_primary env before (HttpGet NowcastComplete lat lon) = true).
  { simpl. rewrite Hanswer, Hstatus. reflexivity. }
  destruct (area_main_outcome Hrun) as [Hclean|(Hcode & Haborted & Hcollector)].
  - rewrite Hcall in Hclean. apply no_failed_primary_inside in Hclean. congruence.
  - assert (Hafter : after = []).
    { destruct after as [|c after]; [reflexivity|].
      rewrite Hcall in Haborted. simpl in Haborted.
      destruct Haborted as [_ [Hclean _]].
      apply no_failed_primary_inside in Hclean. congruence. }
    pose proof (aborted_sheet_free Haborted) as Hfree.
    repeat split; try assumption.
    + intros c Hc. unfold sheet_free in Hfree. rewrite forallb_forall in Hfree.
      specialize (Hfree c Hc). destruct c; try reflexivity; discriminate.
    + destruct Hcollector as [Hnil|Hthrown]; [|exact Hthrown].
      rewrite Hcall in Hnil. destruct after; discriminate.
Qed.

(** C7. With the dry-run flag, no run of either long-layout revision calls
    the spreadsheet API; and when the configuration loads and every fetch
    succeeds, the run fetches each location, in fetch order, and ends with
    exit status 0 right after the last fetch. *)
Theorem dry_run_fetches_without_writing (Hdry : dryRun env = true) :
  (sheet_free (snd (NowcastLong.main env)) /\ sheet_free (snd (AreaLong.main env)))
  /\ (forall locations,
        config_locations env = Some locations ->
        always env NowcastComplete usable ->
        NowcastLong.main env = (0, rev (flat_map calls_long locations))
        /\ (always env LocationforecastCompact harmless ->
            no_inherited_label (map AreaLong.area_or_other locations) ->
            AreaLong.main env = (0, rev (flat_map calls_area (area_order locations))))).
Proof.
  split; [split; [apply long_main_dry|apply area_main_dry]; exact Hdry|].
  intros locations Hconfig Hup. split.
  - unfold NowcastLong.main, run_main, NowcastLong.main_try, bind, loadLocations.
    rewrite Hconfig. unfold ret at 1.
    destruct (long_collect_up Hup locations [] []) as (readings & Hcollect & _).
    rewrite Hcollect, Hdry, app_nil_r. reflexivity.
  - intros Hharmless Hlabels.
    unfold AreaLong.main, run_main, AreaLong.main_try. unfold bind at 1.
    unfold loadLocations. rewrite Hconfig. unfold ret at 1. unfold bind at 1.
    destruct (area_collect_up Hup Hharmless [] Hlabels) as (readings & Hcollect & _).
    rewrite Hcollect, Hdry, app_nil_r. reflexivity.
Qed.

(** C1, as amended. When every fetch succeeds, the Reading Collector
    produces exactly one reading per location.  In the first revision the
    readings follow the input order.  In the area revision they follow the
    locations area by area (areas as [Object.entries] lists them, the
    locations of an area in input order): a rearrangement of the input,
    which is the input order itself when the locations of each area are
    adjacent in the input and no area label is an array index. *)
Theorem collector_reads_each_location_once (locations : list (Location.t num))
  (h : History num)
  (Hup : always env NowcastComplete usable) :
  (exists readings h',
     NowcastLong.collect env locations [] h = (Returned readings, h')
     /\ map place_long readings = map place locations)
  /\ (always env LocationforecastCompact harmless ->
      no_inherited_label (map AreaLong.area_or_other locations) ->
      exists readings h',
        AreaLong.collect env locations h = (Returned readings, h')
        /\ map place_area readings = map place (area_order locations)
        /\ Permutation (map place_area readings) (map place locations)
        /\ List.length readings = List.length locations
        /\ (adjacent_areas (map AreaLong.area_or_other locations) ->
            no_index_label (map AreaLong.area_or_other locations) ->
            map place_area readings = map place locations)).
Proof.
  split.
  - destruct (long_collect_up Hup locations [] h) as (readings & Hcollect & Hplaces).
    exists readings. eexists. split; [exact Hcollect|exact Hplaces].
  - intros Hharmless Hlabels.
    destruct (area_collect_up Hup Hharmless h Hlabels) as (readings & Hcollect & Hplaces & _).
    exists readings. eexists. split; [exact Hcollect|]. split; [exact Hplaces|].
    assert (Hperm : Permutation (map place_area readings) (map place locations)).
    { rewrite Hplaces. apply Permutation_map, area_order_Permutation. }
    split; [exact Hperm|]. split.
    + apply Permutation_length in Hperm. rewrite !length_map in Hperm. exact Hperm.
    + intros Hadjacent Hindex. rewrite Hplaces, area_order_adjacent; auto.
Qed.

End RunClaims.

Lemma dry_run_fetches_without_writing_witness :
  let env := Examples.fair_weather ["node"; "src/index.js"; "--dry-run"] Examples.interleaved in
  NowcastLong.main env = (0, rev (flat_map calls_long Examples.interleaved))
  /\ AreaLong.main env = (0, rev (flat_map calls_area (area_order Examples.interleaved)))
  /\ sheet_free (snd (AreaLong.main env)).
Proof.
  intros env.
  destruct (@dry_run_fetches_without_writing Q Q_JsNumber env eq_refl) as [[_ Hfree] Hruns].
  destruct (Hruns Examples.interleaved eq_refl) as [Hlong Harea].
  - intros h lat lon. reflexivity.
  - split; [exact Hlong|]. split; [|exact Hfree].
    apply Harea.
    + intros h lat lon. reflexivity.
    + repeat constructor.
Defined.

Lemma collector_reads_each_location_once_witness :
  let env := Examples.fair_weather [] Examples.by_area in
  (exists readings h',
     NowcastLong.collect env Examples.by_area [] [] = (Returned readings, h')
     /\ map place_long readings = map place Examples.by_area)
  /\ (exists readings h',
        AreaLong.collect env Examples.by_area [] = (Returned readings, h')
        /\ map place_area readings = map place Examples.by_area).
Proof.
  intros env.
  destruct (@collector_reads_each_location_once Q Q_JsNumber env Examples.by_area [])
    as [Hlong Harea].
  - intros h lat lon. reflexivity.
  - split; [exact Hlong|].
    destruct Harea as (readings & h' & Hrun & _ & _ & _ & Hsame).
    + intros h lat lon. reflexivity.
    + repeat constructor.
    + exists readings, h'. split; [exact Hrun|]. apply Hsame.
      * simpl. intuition discriminate.
      * repeat constructor.
Defined.

(** C1 as stated fails in the area revision: with areas X, Y, X the
    readings come out as A, C, B. *)
Lemma collector_order_counterexample :
  let env := Examples.fair_weather [] Examples.interleaved in
  always env NowcastComplete usable
  /\ always env LocationforecastCompact harmless
  /\ exists readings h',
       AreaLong.collect env Examples.interleaved [] = (Returned readings, h')
       /\ map (@AreaLong.Reading.location Q) readings = ["A"; "C"; "B"]
       /\ map (@Location.name Q) Examples.interleaved = ["A"; "B"; "C"]
       /\ map (@AreaLong.Reading.location Q) readings
          <> map (@Location.name Q) Examples.interleaved.
Proof.
  intros env. split; [intros h lat lon; reflexivity|].
  split; [intros h lat lon; reflexivity|].
  do 2 eexists. split; [vm_compute; reflexivity|].
  split; [reflexivity|]. split; [reflexivity|]. simpl. discriminate.
Qed.

(** ** The sheet writers *)

Section LongWriter.

Context {num : Type} {NumOps : JsNumber num}.
Variable env : Env num.

(** A [values.get] always lands in the history, whatever it returns. *)
Lemma values_get_first_row_history (range : string) (h : History num) :
  snd (values_get_first_row env range h) = SheetValuesGet range :: h.
Proof.
  unfold values_get_first_row.
  destruct (sheet_values env h range) as [[[|row rows]|]|]; reflexivity.
Qed.

Lemma values_get_first_row_returned (range : string) (h : History num)
  (row : list string) :
  fst (values_get_first_row env range h) = Returned row ->
  values_get_first_row env range h = (Returned row, SheetValuesGet range :: h).
Proof.
  intros H. rewrite <- H, <- values_get_first_row_history.
  destruct (values_get_first_row env range h). reflexivity.
Qed.

(** C6. In both long-layout revisions, when the header read from the
    sheet is empty and the sheet accepts the header, the writer issues
    three calls: the read, the write of the default header, and one append
    of exactly one row per reading, each row holding for every column of
    that header the cell of that name; the writer returns if the append is
    accepted. *)
Theorem empty_sheet_gets_header_then_rows (auth : unit)
  (locations : list (Location.t num)) (h : History num) :
  let date := now_date env in
  let hour := now_hour env in
  (forall weatherData : list (NowcastLong.Reading.t num),
     let get := SheetValuesGet "Sheet1!A1:D1" in
     let update := SheetValuesUpdate "Sheet1!A1" [map (@Str num) long_header] in
     let rows := map (fun w => map (long_cell date hour w) long_header) weatherData in
     let append := SheetValuesAppend "Sheet1!A:D" rows in
     fst (values_get_first_row env "Sheet1!A1:D1" h) = Returned [] ->
     sheet_accepts env (get :: h) update = true ->
     NowcastLong.appendToSheet env auth locations weatherData h
     = (if sheet_accepts env (update :: get :: h) append
        then Returned tt else Thrown SheetApiError,
        append :: update :: get :: h)
     /\ List.length rows = List.length weatherData)
  /\ (forall weatherData : list (AreaLong.Reading.t num),
        let get := SheetValuesGet "Sheet1!A1:G1" in
        let update := SheetValuesUpdate "Sheet1!A1" [map (@Str num) area_header] in
        let rows := map (fun w => map (area_cell date hour w) area_header) weatherData in
        let append := SheetValuesAppend "Sheet1!A:G" rows in
        fst (values_get_first_row env "Sheet1!A1:G1" h) = Returned [] ->
        sheet_accepts env (get :: h) update = true ->
        AreaLong.appendToSheet env auth locations weatherData h
        = (if sheet_accepts env (update :: get :: h) append
           then Returned tt else Thrown SheetApiError,
           append :: update :: get :: h)
        /\ List.length rows = List.length weatherData).
Proof.
  cbv zeta. split; intros weatherData Hempty Haccepted;
    (split; [|apply length_map]);
    apply values_get_first_row_returned in Hempty.
  - unfold NowcastLong.appendToSheet, bind. rewrite Hempty.
    unfold long_cell, long_header in *. simpl in *.
    unfold values_update, values_append. rewrite Haccepted.
    match goal with |- context [sheet_accepts env ?h1 ?c] => destruct (sheet_accepts env h1 c) end;
      reflexivity.
  - unfold AreaLong.appendToSheet, bind. rewrite Hempty.
    unfold area_cell, area_header in *. simpl in *.
    unfold values_update, values_append. rewrite Haccepted.
    match goal with |- context [sheet_accepts env ?h1 ?c] => destruct (sheet_accepts env h1 c) end;
      reflexivity.
Qed.

End LongWriter.

Lemma empty_sheet_gets_header_then_rows_witness :
  let env := Examples.fair_weather [] [Examples.oslo] in
  NowcastLong.appendToSheet env tt [Examples.oslo] [Examples.long_reading "Oslo" (52 # 10)] []
  = (Returned tt,
     [ SheetValuesAppend "Sheet1!A:D"
         [[Str "2025-12-03"; Str "00"; Str "Oslo"; Num (52 # 10)%Q]];
       SheetValuesUpdate "Sheet1!A1"
         [[Str "Date"; Str "Hour"; Str "Location"; Str "Temperature"]];
       SheetValuesGet "Sheet1!A1:D1" ])
  /\ AreaLong.appendToSheet env tt [Examples.oslo]
       [Examples.area_reading "Other" "Oslo" (52 # 10)] []
     = (Returned tt,
        [ SheetValuesAppend "Sheet1!A:G"
            [[Str "2025-12-03"; Str "00"; Str "Other"; Str "Oslo"; Num (52 # 10)%Q;
              Num (1 # 2)%Q; Null]];
          SheetValuesUpdate "Sheet1!A1"
            [[Str "Date"; Str "Hour"; Str "Area"; Str "Location"; Str "Temperature";
              Str "Precipitation"; Str "CloudCover"]];
          SheetValuesGet "Sheet1!A1:G1" ]).
Proof.
  intros env.
  destruct (@empty_sheet_gets_header_then_rows Q env tt [Examples.oslo] [])
    as [Hlong Harea].
  split.
  - apply (Hlong [Examples.long_reading "Oslo" (52 # 10)]); reflexivity.
  - apply (Harea [Examples.area_reading "Other" "Oslo" (52 # 10)]); reflexivity.
Defined.

Section BulkUpload.

Context {num : Type} {NumOps : JsNumber num}.
Variable env : Env num.

Lemma values_append_history (range : string) (values : list (list (JsValue num)))
  (h : History num) :
  snd (values_append env range values h) = SheetValuesAppend range values :: h.
Proof.
  unfold values_append. destruct (sheet_accepts env h _); reflexivity.
Qed.

Lemma slice_batch (rows : list (list (JsValue num))) (i : nat) :
  skipn i rows
  = SampleData.slice rows i (i + SampleData.batchSize)
    ++ skipn (i + SampleData.batchSize) rows.
Proof.
  unfold SampleData.slice.
  replace (i + SampleData.batchSize - i) with SampleData.batchSize by lia.
  rewrite (Nat.add_comm i), <- skipn_skipn. symmetry. apply firstn_skipn.
Qed.

Lemma slice_length (rows : list (list (JsValue num))) (i : nat) :
  List.length (SampleData.slice rows i (i + SampleData.batchSize)) <= 1000.
Proof.
  unfold SampleData.slice.
  replace (i + SampleData.batchSize - i) with 1000 by (unfold SampleData.batchSize; lia).
  apply firstn_le_length.
Qed.

Lemma slice_nonempty (rows : list (list (JsValue num))) (i : nat) :
  i < List.length rows -> SampleData.slice rows i (i + SampleData.batchSize) <> [].
Proof.
  intros Hi Hnil. apply (f_equal (@List.length _)) in Hnil. unfold SampleData.slice in Hnil.
  rewrite length_firstn, length_skipn in Hnil. simpl in Hnil.
  unfold SampleData.batchSize in Hnil. lia.
Qed.

(** What the upload loop sends from index [i] on. *)
Lemma upload_from_batches (rows : list (list (JsValue num))) (i : nat) (h : History num) :
  exists batches,
    appended (snd (SampleData.upload_from env rows i h)) = appended h ++ batches
    /\ Forall (fun batch => batch <> [] /\ List.length batch <= 1000) batches
    /\ (exists rest, skipn i rows = List.concat batches ++ rest)
    /\ (fst (SampleData.upload_from env rows i h) = Returned tt ->
        List.concat batches = skipn i rows)
    /\ ((forall h' c, sheet_accepts env h' c = true) ->
        fst (SampleData.upload_from env rows i h) = Returned tt).
Proof.
  funelim (SampleData.upload_from env rows i h).
  - (* past the last row *)
    exists []. simpl. rewrite app_nil_r.
    assert (Hnil : skipn i rows = []) by (apply skipn_all2; lia).
    rewrite Hnil. repeat split; auto. exists []. reflexivity.
  - (* the batch was accepted *)
    match goal with IH : exists _, _ |- _ =>
      destruct IH as (batches & Happended & Hsizes & (rest & Hprefix) & Hall & Hruns) end.
    match goal with Hsent : values_append _ _ _ _ = _ |- _ =>
      pose proof (values_append_history "Sheet1!A:D"
                    (SampleData.slice rows i (i + SampleData.batchSize)) h) as Hh';
      rewrite Hsent in Hh'; simpl in Hh' end.
    subst h'.
    exists (SampleData.slice rows i (i + SampleData.batchSize) :: batches).
    rewrite Happended. simpl appended. rewrite <- app_assoc. simpl.
    split; [reflexivity|]. split.
    { constructor; [split; [apply slice_nonempty; assumption|apply slice_length]|exact Hsizes]. }
    split.
    { exists rest. rewrite (slice_batch rows i), Hprefix, app_assoc. reflexivity. }
    split.
    { intros Hret. rewrite (slice_batch rows i), (Hall Hret). reflexivity. }
    exact Hruns.
  - (* the batch was rejected *)
    match goal with Hsent : values_append _ _ _ _ = _ |- _ =>
      pose proof (values_append_history "Sheet1!A:D"
                    (SampleData.slice rows i (i + SampleData.batchSize)) h) as Hh';
      rewrite Hsent in Hh'; simpl in Hh';
      rename Hsent into Hrejected end.
    subst h'.
    exists [SampleData.slice rows i (i + SampleData.batchSize)]. simpl.
    split; [reflexivity|]. split.
    { constructor; [split; [apply slice_nonempty; assumption|apply slice_length]|constructor]. }
    split.
    { exists (skipn (i + SampleData.batchSize) rows). rewrite app_nil_r. apply slice_batch. }
    split; [discriminate|].
    intros Haccept. unfold values_append in Hrejected. rewrite Haccept in Hrejected.
    discriminate.
Qed.

(** C8. The bulk upload appends the rows in batches of at most 1000 rows
    (none of them empty) that, put end to end, are a prefix of the rows in
    their original order; when the writer returns they are all the rows,
    and the writer returns whenever the sheet answers the header read and
    accepts every write. *)
Theorem bulk_rows_go_out_in_batches (auth : unit) (rows : list (list (JsValue num)))
  (h : History num) :
  exists batches,
    appended (snd (SampleData.appendToSheet env auth rows h)) = appended h ++ batches
    /\ Forall (fun batch => batch <> [] /\ List.length batch <= 1000) batches
    /\ (exists rest, rows = List.concat batches ++ rest)
    /\ (fst (SampleData.appendToSheet env auth rows h) = Returned tt ->
        List.concat batches = rows)
    /\ ((forall h' c, sheet_accepts env h' c = true) ->
        (forall h' range, sheet_values env h' range <> None) ->
        fst (SampleData.appendToSheet env auth rows h) = Returned tt).
Proof.
  remember (SampleData.appendToSheet env auth rows h) as result eqn:Hresult.
  unfold SampleData.appendToSheet, bind in Hresult.
  pose proof (values_get_first_row_history env "Sheet1!A1:D1" h) as Hh1.
  destruct (values_get_first_row env "Sheet1!A1:D1" h) as [[existing|e] h1] eqn:Hget;
    simpl in Hh1; subst h1.
  - assert (Hloop : forall h1, appended h1 = appended h ->
              result = SampleData.upload_from env rows 0 h1 ->
              exists batches,
                appended (snd result) = appended h ++ batches
                /\ Forall (fun batch => batch <> [] /\ List.length batch <= 1000) batches
                /\ (exists rest, rows = List.concat batches ++ rest)
                /\ (fst result = Returned tt -> List.concat batches = rows)
                /\ ((forall h' c, sheet_accepts env h' c = true) ->
                    (forall h' range, sheet_values env h' range <> None) ->
                    fst result = Returned tt)).
    { intros h1 Hh1 ->.
      destruct (upload_from_batches rows 0 h1)
        as (batches & Happended & Hsizes & Hprefix & Hall & Hruns).
      exists batches. rewrite Happended, Hh1. simpl in Hprefix, Hall. auto 10. }
    destruct (List.length existing =? 0).
    + unfold values_update in Hresult.
      destruct (sheet_accepts env _ (SheetValuesUpdate "Sheet1!A1" _)) eqn:Hupdate.
      * eapply Hloop; [|exact Hresult]. reflexivity.
      * subst result. exists []. simpl. rewrite app_nil_r. repeat split; auto.
        -- exists rows. reflexivity.
        -- discriminate.
        -- intros Haccept. rewrite Haccept in Hupdate. discriminate.
    + eapply Hloop; [|exact Hresult]. reflexivity.
  - subst result. exists []. simpl. rewrite app_nil_r.
    repeat split; auto.
    + exists rows. reflexivity.
    + discriminate.
    + intros _ Hanswer. unfold values_get_first_row in Hget.
      specialize (Hanswer h "Sheet1!A1:D1").
      destruct (sheet_values env h "Sheet1!A1:D1") as [[[|row rest]|]|];
        try discriminate. contradiction Hanswer. reflexivity.
Qed.

End BulkUpload.

Lemma bulk_rows_go_out_in_batches_witness :
  let env := Examples.fair_weather [] [Examples.oslo] in
  let rows := Examples.sample_rows 2500 in
  exists batches,
    appended (snd (SampleData.appendToSheet env tt rows [])) = batches
    /\ map (@List.length _) batches = [1000; 1000; 500]
    /\ List.concat batches = rows.
Proof.
  intros env rows.
  destruct (@bulk_rows_go_out_in_batches Q env tt rows [])
    as (batches & Happended & Hsizes & Hprefix & Hall & Hruns).
  exists batches. split; [exact Happended|].
  assert (Hret : fst (SampleData.appendToSheet env tt rows []) = Returned tt).
  { apply Hruns; [reflexivity|discriminate]. }
  split; [|exact (Hall Hret)].
  simpl in Happended. rewrite <- Happended. vm_compute. reflexivity.
Defined.

Section WideWriter.

Context {num : Type} {NumOps : JsNumber num}.
Variable env : Env num.

Lemma fold_left_pointwise (A B : Type) (f g : B -> A -> B) (l : list A) (acc : B) :
  (forall b a, f b a = g b a) -> fold_left f l acc = fold_left g l acc.
Proof.
  intros H. revert acc. induction l as [|a l IH]; intros acc; simpl; [reflexivity|].
  rewrite H. apply IH.
Qed.

Lemma fold_left_push (A B : Type) (cell : A -> B) (l : list A) (row : list B) :
  fold_left (fun row a => row ++ [cell a]) l row = row ++ map cell l.
Proof.
  revert row. induction l as [|a l IH]; intros row; simpl.
  - rewrite app_nil_r. reflexivity.
  - rewrite IH, <- app_assoc. reflexivity.
Qed.

(** The row loop pushes one cell per location column, in column order. *)
Lemma build_row_cells (date hour : string) (header : list string)
  (weatherData : list (Wide.Reading.t num)) :
  Wide.build_row date hour header weatherData
  = [Str date; Str hour] ++ map (wide_cell weatherData) (skipn 2 header).
Proof.
  unfold Wide.build_row.
  rewrite (fold_left_pointwise
             (g := fun row i =>
                     match nth_error header i with
                     | Some column => row ++ [wide_cell weatherData column]
                     | None => row
                     end)).
  - rewrite (fold_indices (fun row column => row ++ [wide_cell weatherData column])).
    rewrite fold_left_push, firstn_all2; [reflexivity|].
    rewrite length_skipn. lia.
  - intros row i. destruct (nth_error header i) as [column|]; [|reflexivity].
    unfold wide_cell. destruct (Wide.find_reading weatherData column); reflexivity.
Qed.

Lemma newLocationNames_In (header : list string) (locations : list (Location.t num))
  (n : string) :
  In n (Wide.newLocationNames header locations)
  <-> In n (map (@Location.name num) locations) /\ ~ In n (skipn 2 header).
Proof.
  unfold Wide.newLocationNames. rewrite filter_In, negb_true_iff.
  unfold Wide.includes. rewrite existsb_eqb_not_In. reflexivity.
Qed.

Lemma skipn_incl (A : Type) (k : nat) (l : list A) (x : A) : In x (skipn k l) -> In x l.
Proof.
  revert l. induction k as [|k IH]; intros [|y l]; simpl; auto.
Qed.

(** What the wide writer does on a sheet that accepts its writes. *)
Lemma wide_appendToSheet_run (auth : unit) (locations : list (Location.t num))
  (weatherData : list (Wide.Reading.t num)) (h : History num) (existing : list string) :
  fst (values_get_first_row env "Sheet1!A1:ZZ1" h) = Returned existing ->
  (forall h' c, sheet_accepts env h' c = true) ->
  let header := wide_base existing in
  let added := Wide.newLocationNames header locations in
  Wide.appendToSheet env auth locations weatherData h
  = (Returned tt,
     SheetValuesAppend "Sheet1!A:ZZ"
       [Wide.build_row (now_date env) (now_hour env) (header ++ added) weatherData]
     :: column_update header added ++ default_update existing
        ++ SheetValuesGet "Sheet1!A1:ZZ1" :: h).
Proof.
  intros Hget Haccept. apply values_get_first_row_returned in Hget. cbv zeta.
  assert (Hupdate : forall range values h0,
            values_update env range values h0
            = (Returned tt, SheetValuesUpdate range values :: h0)).
  { intros. unfold values_update. rewrite Haccept. reflexivity. }
  assert (Happend : forall range values h0,
            values_append env range values h0
            = (Returned tt, SheetValuesAppend range values :: h0)).
  { intros. unfold values_append. rewrite Haccept. reflexivity. }
  unfold Wide.appendToSheet, bind. rewrite Hget.
  destruct existing as [|c0 existing].
  - change (List.length (@nil string) =? 0) with true. cbv iota beta.
    rewrite Hupdate. unfold ret at 1. simpl wide_base.
    destruct (Wide.newLocationNames ["Date"; "Hour"] locations) as [|n added].
    + change (0 <? List.length (@nil string)) with false. cbv iota beta.
      unfold ret. rewrite Happend, app_nil_r. reflexivity.
    + change (0 <? List.length (n :: added)) with true. cbv iota beta.
      rewrite Hupdate. unfold ret. rewrite Happend. reflexivity.
  - change (List.length (c0 :: existing) =? 0) with false. cbv iota beta.
    unfold ret at 1. simpl wide_base.
    destruct (Wide.newLocationNames (c0 :: existing) locations) as [|n added].
    + change (0 <? List.length (@nil string)) with false. cbv iota beta.
      unfold ret. rewrite Happend, app_nil_r. reflexivity.
    + change (0 <? List.length (n :: added)) with true. cbv iota beta.
      rewrite Hupdate. unfold ret. rewrite Happend. reflexivity.
Qed.

(** C5. In the wide layout, on a sheet that accepts its writes and for
    locations with distinct names, the header the writer ends up with is
    the header it started from (the default one on an empty sheet)
    followed by the new columns: every column read from the sheet keeps
    its index, each name of the batch that is not among the location
    columns gets exactly one new column, and nothing else is added; the
    grown header is written back whenever a column was added. *)
Theorem wide_header_only_grows (auth : unit) (locations : list (Location.t num))
  (weatherData : list (Wide.Reading.t num)) (h : History num) (existing : list string)
  (Hget : fst (values_get_first_row env "Sheet1!A1:ZZ1" h) = Returned existing)
  (Haccept : forall h' c, sheet_accepts env h' c = true)
  (Hreadings : map (@Wide.Reading.location num) weatherData
               = map (@Location.name num) locations)
  (Hdistinct : NoDup (map (@Location.name num) locations)) :
  exists added,
    let header := wide_base existing ++ added in
    Wide.appendToSheet env auth locations weatherData h
    = (Returned tt,
       SheetValuesAppend "Sheet1!A:ZZ"
         [Wide.build_row (now_date env) (now_hour env) header weatherData]
       :: column_update (wide_base existing) added ++ default_update existing
          ++ SheetValuesGet "Sheet1!A1:ZZ1" :: h)
    /\ (forall i column, nth_error existing i = Some column ->
                         nth_error header i = Some column)
    /\ NoDup added
    /\ (forall n, In n added <->
                  In n (map (@Wide.Reading.location num) weatherData)
                  /\ ~ In n (skipn 2 (wide_base existing)))
    /\ (forall n, In n (map (@Wide.Reading.location num) weatherData) ->
                  ~ In n existing -> count_occ string_dec added n = 1).
Proof.
  exists (Wide.newLocationNames (wide_base existing) locations). cbv zeta.
  split; [apply wide_appendToSheet_run; assumption|].
  assert (Hnodup : NoDup (Wide.newLocationNames (wide_base existing) locations)).
  { unfold Wide.newLocationNames. apply NoDup_filter. exact Hdistinct. }
  split; [|split; [exact Hnodup|split]].
  - intros i column Hi. destruct existing as [|c0 existing].
    + destruct i; discriminate.
    + simpl wide_base. rewrite nth_error_app1; [exact Hi|].
      apply nth_error_Some. congruence.
  - intros n. rewrite Hreadings. apply newLocationNames_In.
  - intros n Hn Hnew.
    assert (Hadded : In n (Wide.newLocationNames (wide_base existing) locations)).
    { apply newLocationNames_In. rewrite <- Hreadings. split; [exact Hn|].
      destruct existing as [|c0 existing]; [simpl; tauto|].
      intros Hin. apply Hnew. apply (skipn_incl Hin). }
    pose proof (proj1 (NoDup_count_occ string_dec _) Hnodup n) as Hle.
    apply (count_occ_In string_dec) in Hadded. lia.
Qed.

(** C10. In the wide layout, on a sheet that accepts its writes, the
    appended row has as many cells as the grown header has columns: the
    date, the hour, and for each location column the temperature of the
    first reading of that name, or the empty string when there is none.
    The one excluded case is a header of a single cell met with an empty
    location list, which leaves a header shorter than the two leading
    columns. *)
Theorem wide_row_matches_header (auth : unit) (locations : list (Location.t num))
  (weatherData : list (Wide.Reading.t num)) (h : History num) (existing : list string)
  (Hget : fst (values_get_first_row env "Sheet1!A1:ZZ1" h) = Returned existing)
  (Haccept : forall h' c, sheet_accepts env h' c = true)
  (Hheader : List.length existing <> 1 \/ locations <> []) :
  exists header row before,
    header = wide_base existing ++ Wide.newLocationNames (wide_base existing) locations
    /\ Wide.appendToSheet env auth locations weatherData h
       = (Returned tt, SheetValuesAppend "Sheet1!A:ZZ" [row] :: before)
    /\ List.length row = List.length header
    /\ nth_error row 0 = Some (Str (now_date env))
    /\ nth_error row 1 = Some (Str (now_hour env))
    /\ (forall i column,
          2 <= i -> nth_error header i = Some column ->
          nth_error row i = Some (wide_cell weatherData column)
          /\ ((forall w, In w weatherData -> Wide.Reading.location w <> column) ->
              nth_error row i = Some (Str ""))).
Proof.
  eexists. eexists. eexists. split; [reflexivity|].
  split; [apply (wide_appendToSheet_run auth locations weatherData Hget Haccept)|].
  set (header := wide_base existing
                 ++ Wide.newLocationNames (wide_base existing) locations).
  assert (Hlong : 2 <= List.length header).
  { unfold header. rewrite length_app.
    destruct existing as [|c0 [|c1 existing]]; simpl; try lia.
    destruct Hheader as [Hlen|Hsome]; [contradiction Hlen; reflexivity|].
    destruct locations as [|l locations]; [contradiction Hsome; reflexivity|].
    simpl. lia. }
  rewrite build_row_cells.
  split; [|split; [reflexivity|split; [reflexivity|]]].
  - rewrite length_app, length_map, length_skipn. simpl. lia.
  - intros i column Hi Hcolumn.
    assert (Hcell : nth_error ([Str (now_date env); Str (now_hour env)]
                               ++ map (wide_cell weatherData) (skipn 2 header)) i
                    = Some (wide_cell weatherData column)).
    { rewrite nth_error_app2 by (simpl; lia). simpl List.length.
      rewrite nth_error_map, nth_error_skipn.
      replace (2 + (i - 2)) with i by lia. rewrite Hcolumn. reflexivity. }
    split; [exact Hcell|].
    intros Hnone. rewrite Hcell. unfold wide_cell, Wide.find_reading.
    destruct (find _ weatherData) as [w|] eqn:Hfind; [|reflexivity].
    apply find_some in Hfind. destruct Hfind as [Hin Heq].
    apply String.eqb_eq in Heq. contradiction (Hnone w Hin).
Qed.

End WideWriter.

Lemma wide_header_only_grows_witness :
  exists added,
    let header := wide_base ["Date"; "Hour"; "Bergen"] ++ added in
    Wide.appendToSheet Examples.wide_sheet tt Examples.two_places Examples.two_readings []
    = (Returned tt,
       SheetValuesAppend "Sheet1!A:ZZ"
         [Wide.build_row "2025-12-03" "06" header Examples.two_readings]
       :: column_update (wide_base ["Date"; "Hour"; "Bergen"]) added
          ++ default_update ["Date"; "Hour"; "Bergen"] ++ [SheetValuesGet "Sheet1!A1:ZZ1"])
    /\ (forall i column, nth_error ["Date"; "Hour"; "Bergen"] i = Some column ->
                         nth_error header i = Some column)
    /\ NoDup added
    /\ (forall n, In n added <->
                  In n (map (@Wide.Reading.location Q) Examples.two_readings)
                  /\ ~ In n (skipn 2 (wide_base ["Date"; "Hour"; "Bergen"])))
    /\ (forall n, In n (map (@Wide.Reading.location Q) Examples.two_readings) ->
                  ~ In n ["Date"; "Hour"; "Bergen"] -> count_occ string_dec added n = 1).
Proof.
  apply (@wide_header_only_grows Q Examples.wide_sheet tt Examples.two_places
           Examples.two_readings [] ["Date"; "Hour"; "Bergen"]).
  - reflexivity.
  - reflexivity.
  - reflexivity.
  - repeat constructor; simpl; intuition discriminate.
Defined.

Lemma wide_row_matches_header_witness :
  exists header row before,
    header = wide_base ["Date"; "Hour"; "Bergen"]
             ++ Wide.newLocationNames (wide_base ["Date"; "Hour"; "Bergen"]) Examples.two_places
    /\ Wide.appendToSheet Examples.wide_sheet tt Examples.two_places
         [Examples.wide_reading "Oslo" (52 # 10)] []
       = (Returned tt, SheetValuesAppend "Sheet1!A:ZZ" [row] :: before)
    /\ List.length row = List.length header
    /\ nth_error row 0 = Some (Str "2025-12-03")
    /\ nth_error row 1 = Some (Str "06")
    /\ (forall i column,
          2 <= i -> nth_error header i = Some column ->
          nth_error row i = Some (wide_cell [Examples.wide_reading "Oslo" (52 # 10)] column)
          /\ ((forall w, In w [Examples.wide_reading "Oslo" (52 # 10)] ->
                         Wide.Reading.location w <> column) ->
              nth_error row i = Some (Str ""))).
Proof.
  apply (@wide_row_matches_header Q Examples.wide_sheet tt Examples.two_places
           [Examples.wide_reading "Oslo" (52 # 10)] [] ["Date"; "Hour"; "Bergen"]).
  - reflexivity.
  - reflexivity.
  - left. simpl. lia.
Defined.

(** * Further facts *)

(** ** Aborted runs of the other revisions *)

Section OtherRuns.

Context {num : Type} {NumOps : JsNumber num}.
Variable env : Env num.

Lemma long_appendToSheet_sheet_only (auth : unit) (locations : list (Location.t num))
  (weatherData : list (NowcastLong.Reading.t num)) :
  sheet_only (NowcastLong.appendToSheet env auth locations weatherData).
Proof.
  unfold NowcastLong.appendToSheet.
  apply sheet_only_bind; [apply sheet_only_get|intros existingHeaders].
  apply sheet_only_bind; [|intros _; apply sheet_only_append].
  destruct (List.length existingHeaders =? 0);
    [apply sheet_only_update|apply sheet_only_ret].
Qed.

Lemma wide_appendToSheet_sheet_only (auth : unit) (locations : list (Location.t num))
  (weatherData : list (Wide.Reading.t num)) :
  sheet_only (Wide.appendToSheet env auth locations weatherData).
Proof.
  unfold Wide.appendToSheet.
  apply sheet_only_bind; [apply sheet_only_get|intros existingHeaders].
  apply sheet_only_bind.
  { destruct (List.length existingHeaders =? 0); [|apply sheet_only_ret].
    apply sheet_only_bind; [apply sheet_only_update|intros _; apply sheet_only_ret]. }
  intros headers. apply sheet_only_bind; [|intros final; apply sheet_only_append].
  destruct (0 <? List.length (Wide.newLocationNames headers locations));
    [|apply sheet_only_ret].
  apply sheet_only_bind; [apply sheet_only_update|intros _; apply sheet_only_ret].
Qed.

Lemma long_main_outcome (code : nat) (trace : History num) :
  NowcastLong.main env = (code, trace) ->
  no_failed_primary env trace
  \/ (code = 1 /\ aborted env trace
      /\ (trace = []
          \/ exists locations e,
               config_locations env = Some locations
               /\ NowcastLong.collect env locations [] [] = (Thrown e, trace))).
Proof.
  unfold NowcastLong.main, run_main, NowcastLong.main_try. unfold bind at 1.
  unfold loadLocations.
  destruct (config_locations env) as [locations|].
  2:{ intros Hrun. injection Hrun as <- <-. right. simpl. auto. }
  unfold ret at 1. unfold bind at 1.
  pose proof (long_collect_collects locations [] (collecting_nil env)) as Hcollect.
  destruct (NowcastLong.collect env locations [] []) as [[weatherData|e] h1] eqn:Hrun1.
  2:{ intros Hrun. injection Hrun as <- <-. right.
      split; [reflexivity|]. split; [exact Hcollect|]. right. eauto. }
  destruct (dryRun env).
  - intros Hrun. injection Hrun as <- <-. left. apply Hcollect.
  - intros Hrun. left.
    assert (Hwrite : sheet_only
                       (bind (googleAuth env)
                             (fun auth => NowcastLong.appendToSheet env auth locations weatherData))).
    { apply sheet_only_bind; [apply sheet_only_googleAuth|].
      intros auth. apply long_appendToSheet_sheet_only. }
    destruct (Hwrite h1) as (calls & Hcalls & Hfree).
    destruct (bind (googleAuth env) _ h1) as [[u|e] h2];
      simpl in Hcalls; subst h2; injection Hrun as <- <-;
      apply no_failed_primary_app; try assumption; apply Hcollect.
Qed.

(** X1. In the first revision, a Nowcast request answered with a
    non-success status is the last call of the run: the collector is left
    by an exception, no spreadsheet call is made, the exit status is 1. *)
Theorem long_failed_fetch_aborts_run (code : nat) (trace after before : History num)
  (lat lon : num) (r : Response num)
  (Hrun : NowcastLong.main env = (code, trace))
  (Hcall : trace = after ++ HttpGet NowcastComplete lat lon :: before)
  (Hanswer : http_response env before NowcastComplete lat lon = Some r)
  (Hstatus : ok r = false) :
  after = []
  /\ code = 1
  /\ sheet_free trace
  /\ exists locations e,
       config_locations env = Some locations
       /\ NowcastLong.collect env locations [] [] = (Thrown e, trace).
Proof.
  assert (Hfailed : failed_primary env before (HttpGet NowcastComplete lat lon) = true).
  { simpl. rewrite Hanswer, Hstatus. reflexivity. }
  destruct (long_main_outcome Hrun) as [Hclean|(Hcode & Haborted & Hcollector)].
  - rewrite Hcall in Hclean. apply no_failed_primary_inside in Hclean. congruence.
  - assert (Hafter : after = []).
    { destruct after as [|c after]; [reflexivity|].
      rewrite Hcall in Haborted. simpl in Haborted.
      destruct Haborted as [_ [Hclean _]].
      apply no_failed_primary_inside in Hclean. congruence. }
    pose proof (aborted_sheet_free Haborted) as Hfree.
    repeat split; try assumption.
    destruct Hcollector as [Hnil|Hthrown]; [|exact Hthrown].
    rewrite Hcall in Hnil. destruct after; discriminate.
Qed.

End OtherRuns.

Section WideRuns.

Context {num : Type} {NumOps : JsNumber num}.
Variable env : Env num.

Lemma wide_collecting_nil : wide_collecting env [].
Proof. split; reflexivity. Qed.

Lemma wide_collecting_cons (c : Call num) (h : History num) :
  wide_collecting env h ->
  failed_forecast env h c = false ->
  is_sheet_call c = false ->
  wide_collecting env (c :: h).
Proof.
  intros [Hf Hs] Hc Hsheet. split.
  - split; assumption.
  - unfold sheet_free in *. simpl. rewrite Hsheet. exact Hs.
Qed.

Lemma wide_collecting_aborted (h : History num) :
  wide_collecting env h -> wide_aborted env h.
Proof.
  destruct h as [|c before]; [intros; exact I|].
  intros [[Hc Hf] Hs]. unfold sheet_free in Hs. simpl in Hs.
  apply andb_true_iff in Hs. destruct Hs as [Hsheet Hs].
  split.
  - destruct (is_sheet_call c); [discriminate|reflexivity].
  - split; assumption.
Qed.

Lemma wide_aborted_sheet_free (h : History num) : wide_aborted env h -> sheet_free h.
Proof.
  destruct h as [|c before]; [reflexivity|].
  intros [Hsheet [_ Hs]]. unfold sheet_free in *. simpl. rewrite Hsheet. exact Hs.
Qed.

Lemma wide_collects_ret (A : Type) (a : A) : wide_collects env (ret a).
Proof. intros h Hh. exact Hh. Qed.

Lemma wide_collects_throw (A : Type) (e : Error) : wide_collects env (@throw num A e).
Proof. intros h Hh. apply wide_collecting_aborted. exact Hh. Qed.

Lemma wide_collects_bind (A B : Type) (m : Prog num A) (k : A -> Prog num B) :
  wide_collects env m -> (forall a, wide_collects env (k a)) -> wide_collects env (bind m k).
Proof.
  intros Hm Hk h Hh. unfold bind. specialize (Hm h Hh).
  destruct (m h) as [[a|e] h'].
  - apply Hk. exact Hm.
  - exact Hm.
Qed.

Lemma wide_fetchWeather_collects (lat lon : num) :
  wide_collects env (Wide.fetchWeather env lat lon).
Proof.
  intros h Hh. unfold Wide.fetchWeather, bind, fetch.
  destruct (http_response env h LocationforecastCompact lat lon) as [r|] eqn:Hr.
  - destruct (ok r) eqn:Hok; simpl.
    + assert (Hnext : wide_collecting env (HttpGet LocationforecastCompact lat lon :: h)).
      { apply wide_collecting_cons; [exact Hh| |reflexivity].
        simpl. rewrite Hr, Hok. reflexivity. }
      unfold response_timeseries. destruct (json r) as [[|current rest]|]; simpl;
        first [exact Hnext | split; [reflexivity|exact Hh]].
    + split; [reflexivity|exact Hh].
  - split; [reflexivity|exact Hh].
Qed.

Lemma wide_collect_collects (locations : list (Location.t num))
  (weatherData : list (Wide.Reading.t num)) :
  wide_collects env (Wide.collect env locations weatherData).
Proof.
  revert weatherData. induction locations as [|x rest IH]; intros weatherData; simpl.
  - apply wide_collects_ret.
  - apply wide_collects_bind; [|intros wd; apply IH].
    unfold Wide.collect_one. apply wide_collects_bind.
    + apply wide_fetchWeather_collects.
    + intros w. apply wide_collects_bind; [|intros _; apply wide_collects_ret].
      intros h Hh. unfold setTimeout.
      apply wide_collecting_cons; [exact Hh|reflexivity|reflexivity].
Qed.

Lemma no_failed_forecast_app (calls h : History num) :
  http_free calls -> no_failed_forecast env h -> no_failed_forecast env (calls ++ h).
Proof.
  unfold http_free. induction calls as [|c calls IH]; simpl; intros Hfree Hh; [exact Hh|].
  apply andb_true_iff in Hfree. destruct Hfree as [Hc Hfree]. split.
  - destruct c; try reflexivity. discriminate.
  - apply IH; assumption.
Qed.

Lemma no_failed_forecast_inside (after before : History num) (c : Call num) :
  no_failed_forecast env (after ++ c :: before) -> failed_forecast env before c = false.
Proof.
  induction after as [|c' after IH]; simpl; intros H; [tauto|apply IH; tauto].
Qed.

(** The two phases of a run of the wide revision. *)
Lemma wide_main_phases :
  match config_locations env with
  | None => Wide.main env = (1, [])
  | Some locations =>
      match Wide.collect env locations [] [] with
      | (Thrown e, h1) => Wide.main env = (1, h1) /\ wide_aborted env h1
      | (Returned weatherData, h1) =>
          wide_collecting env h1
          /\ exists calls,
               snd (Wide.main env) = calls ++ h1 /\ http_free calls
               /\ (credentials_parse env = false -> Wide.main env = (1, h1))
      end
  end.
Proof.
  unfold Wide.main, run_main, Wide.main_try, bind, loadLocations.
  destruct (config_locations env) as [locations|]; [|reflexivity].
  unfold ret. cbv beta iota.
  pose proof (wide_collect_collects locations [] wide_collecting_nil) as Hcollect.
  destruct (Wide.collect env locations [] []) as [[weatherData|e] h1].
  2:{ split; [reflexivity|exact Hcollect]. }
  split; [exact Hcollect|].
  unfold googleAuth. destruct (credentials_parse env); unfold ret, throw; cbv beta iota.
  - destruct (wide_appendToSheet_sheet_only env tt locations weatherData h1)
      as (calls & Hcalls & Hfree).
    exists calls. split; [|split; [exact Hfree|discriminate]].
    destruct (Wide.appendToSheet env tt locations weatherData h1) as [[u|e] h2];
      exact Hcalls.
  - exists []. repeat split; reflexivity.
Qed.

(** X2. In the wide revision, a Locationforecast request answered with a
    non-success status is the last call of the run: the collector is left
    by an exception, no spreadsheet call is made, the exit status is 1. *)
Theorem wide_failed_fetch_aborts_run (code : nat) (trace after before : History num)
  (lat lon : num) (r : Response num)
  (Hrun : Wide.main env = (code, trace))
  (Hcall : trace = after ++ HttpGet LocationforecastCompact lat lon :: before)
  (Hanswer : http_response env before LocationforecastCompact lat lon = Some r)
  (Hstatus : ok r = false) :
  after = []
  /\ code = 1
  /\ sheet_free trace
  /\ exists locations e,
       config_locations env = Some locations
       /\ Wide.collect env locations [] [] = (Thrown e, trace).
Proof.
  assert (Hfailed : failed_forecast env before (HttpGet LocationforecastCompact lat lon) = true).
  { simpl. rewrite Hanswer, Hstatus. reflexivity. }
  pose proof wide_main_phases as Hphases.
  destruct (config_locations env) as [locations|].
  2:{ rewrite Hphases in Hrun. injection Hrun as <- <-. destruct after; discriminate. }
  destruct (Wide.collect env locations [] []) as [[weatherData|e] h1] eqn:Hcollect.
  - destruct Hphases as [[Hclean _] (calls & Hcalls & Hfree & _)].
    rewrite Hrun in Hcalls. simpl in Hcalls.
    assert (Hall : no_failed_forecast env trace).
    { rewrite Hcalls. apply no_failed_forecast_app; assumption. }
    rewrite Hcall in Hall. apply no_failed_forecast_inside in Hall. congruence.
  - destruct Hphases as [Hmain Haborted]. rewrite Hmain in Hrun.
    injection Hrun as <- <-.
    assert (Hafter : after = []).
    { destruct after as [|c after]; [reflexivity|].
      rewrite Hcall in Haborted. simpl in Haborted.
      destruct Haborted as [_ [Hclean _]].
      apply no_failed_forecast_inside in Hclean. congruence. }
    repeat split; try assumption; try reflexivity.
    + apply wide_aborted_sheet_free. exact Haborted.
    + exists locations, e. split; [reflexivity|exact Hcollect].
Qed.

End WideRuns.

(** ** The two phases of a run *)

Section Phases.

Context {num : Type} {NumOps : JsNumber num}.
Variable env : Env num.

Lemma long_main_phases :
  match config_locations env with
  | None => NowcastLong.main env = (1, [])
  | Some locations =>
      match NowcastLong.collect env locations [] [] with
      | (Thrown e, h1) => NowcastLong.main env = (1, h1) /\ aborted env h1
      | (Returned weatherData, h1) =>
          collecting env h1
          /\ (dryRun env = true -> NowcastLong.main env = (0, h1))
          /\ (dryRun env = false -> credentials_parse env = false ->
              NowcastLong.main env = (1, h1))
          /\ (dryRun env = false -> credentials_parse env = true ->
              NowcastLong.main env
              = run_main (fun _ => NowcastLong.appendToSheet env tt locations weatherData h1))
          /\ exists calls, snd (NowcastLong.main env) = calls ++ h1 /\ http_free calls
      end
  end.
Proof.
  unfold NowcastLong.main, run_main, NowcastLong.main_try, bind, loadLocations.
  destruct (config_locations env) as [locations|]; [|reflexivity].
  unfold ret. cbv beta iota.
  pose proof (long_collect_collects locations [] (collecting_nil env)) as Hcollect.
  destruct (NowcastLong.collect env locations [] []) as [[weatherData|e] h1].
  2:{ split; [reflexivity|exact Hcollect]. }
  split; [exact Hcollect|].
  destruct (dryRun env).
  { repeat split; try discriminate. exists []. split; reflexivity. }
  unfold googleAuth. destruct (credentials_parse env); unfold ret, throw; cbv beta iota.
  - repeat split; try discriminate.
    destruct (long_appendToSheet_sheet_only env tt locations weatherData h1)
      as (calls & Hcalls & Hfree).
    exists calls. split; [|exact Hfree].
    destruct (NowcastLong.appendToSheet env tt locations weatherData h1) as [[u|e] h2];
      exact Hcalls.
  - repeat split; try discriminate. exists []. split; reflexivity.
Qed.

Lemma area_main_phases :
  match config_locations env with
  | None => AreaLong.main env = (1, [])
  | Some locations =>
      match AreaLong.collect env locations [] with
      | (Thrown e, h1) => AreaLong.main env = (1, h1) /\ aborted env h1
      | (Returned weatherData, h1) =>
          collecting env h1
          /\ (dryRun env = true -> AreaLong.main env = (0, h1))
          /\ (dryRun env = false -> credentials_parse env = false ->
              AreaLong.main env = (1, h1))
          /\ (dryRun env = false -> credentials_parse env = true ->
              AreaLong.main env
              = run_main (fun _ => AreaLong.appendToSheet env tt locations weatherData h1))
          /\ exists calls, snd (AreaLong.main env) = calls ++ h1 /\ http_free calls
      end
  end.
Proof.
  unfold AreaLong.main, run_main, AreaLong.main_try, bind, loadLocations.
  destruct (config_locations env) as [locations|]; [|reflexivity].
  unfold ret. cbv beta iota.
  pose proof (area_collect_collects locations (collecting_nil env)) as Hcollect.
  destruct (AreaLong.collect env locations []) as [[weatherData|e] h1].
  2:{ split; [reflexivity|exact Hcollect]. }
  split; [exact Hcollect|].
  destruct (dryRun env).
  { repeat split; try discriminate. exists []. split; reflexivity. }
  unfold googleAuth. destruct (credentials_parse env); unfold ret, throw; cbv beta iota.
  - repeat split; try discriminate.
    destruct (area_appendToSheet_sheet_only env tt locations weatherData h1)
      as (calls & Hcalls & Hfree).
    exists calls. split; [|exact Hfree].
    destruct (AreaLong.appendToSheet env tt locations weatherData h1) as [[u|e] h2];
      exact Hcalls.
  - repeat split; try discriminate. exists []. split; reflexivity.
Qed.

(** X3. In every revision the run first fetches and then writes: its
    history is the spreadsheet calls on top of the calls of the collection
    phase, with no request to the weather provider among the former and no
    spreadsheet call among the latter. *)
Theorem fetches_precede_sheet_calls :
  (exists writes fetches,
     snd (NowcastLong.main env) = writes ++ fetches
     /\ http_free writes /\ sheet_free fetches)
  /\ (exists writes fetches,
        snd (AreaLong.main env) = writes ++ fetches
        /\ http_free writes /\ sheet_free fetches)
  /\ (exists writes fetches,
        snd (Wide.main env) = writes ++ fetches
        /\ http_free writes /\ sheet_free fetches).
Proof.
  split; [|split].
  - pose proof long_main_phases as H.
    destruct (config_locations env) as [locations|].
    2:{ exists [], []. rewrite H. repeat split. }
    destruct (NowcastLong.collect env locations [] []) as [[weatherData|e] h1].
    + destruct H as ([_ Hfree] & _ & _ & _ & calls & Hcalls & Hhttp).
      exists calls, h1. auto.
    + destruct H as [Hmain Haborted]. exists [], h1. rewrite Hmain.
      repeat split. apply (aborted_sheet_free Haborted).
  - pose proof area_main_phases as H.
    destruct (config_locations env) as [locations|].
    2:{ exists [], []. rewrite H. repeat split. }
    destruct (AreaLong.collect env locations []) as [[weatherData|e] h1].
    + destruct H as ([_ Hfree] & _ & _ & _ & calls & Hcalls & Hhttp).
      exists calls, h1. auto.
    + destruct H as [Hmain Haborted]. exists [], h1. rewrite Hmain.
      repeat split. apply (aborted_sheet_free Haborted).
  - pose proof (wide_main_phases env) as H.
    destruct (config_locations env) as [locations|].
    2:{ exists [], []. rewrite H. repeat split. }
    destruct (Wide.collect env locations [] []) as [[weatherData|e] h1].
    + destruct H as ([_ Hfree] & calls & Hcalls & Hhttp & _).
      exists calls, h1. auto.
    + destruct H as [Hmain Haborted]. exists [], h1. rewrite Hmain.
      repeat split. apply (wide_aborted_sheet_free Haborted).
Qed.

End Phases.

(** ** Runs that fail before writing *)

Section Setup.

Context {num : Type} {NumOps : JsNumber num}.
Variable env : Env num.

Lemma wide_fetchWeather_up (lat lon : num) (h : History num) :
  always env LocationforecastCompact usable ->
  exists w,
    Wide.fetchWeather env lat lon h
    = (Returned w, HttpGet LocationforecastCompact lat lon :: h).
Proof.
  intros Hup.
  destruct (usable_inv (Hup h lat lon)) as (r & current & rest & Hr & Hok & Hjson).
  unfold Wide.fetchWeather, bind, fetch, response_timeseries, first_entry.
  rewrite Hr, Hok, Hjson. simpl. eexists. reflexivity.
Qed.

Lemma wide_collect_up (locations : list (Location.t num))
  (weatherData : list (Wide.Reading.t num)) (h : History num) :
  always env LocationforecastCompact usable ->
  exists readings,
    Wide.collect env locations weatherData h
    = (Returned (weatherData ++ readings), rev (flat_map calls_wide locations) ++ h)
    /\ map place_wide readings = map place locations.
Proof.
  intros Hup. revert weatherData h.
  induction locations as [|x locations IH]; intros weatherData h.
  - exists []. simpl. rewrite app_nil_r. split; reflexivity.
  - destruct (wide_fetchWeather_up (Location.latitude x) (Location.longitude x) h Hup)
      as (w & Hw).
    simpl Wide.collect. unfold bind at 1. unfold Wide.collect_one.
    unfold bind at 1. rewrite Hw. unfold bind at 1. unfold setTimeout at 1. unfold ret at 1.
    match goal with |- context [Wide.collect env locations ?wd ?h1] =>
      destruct (IH wd h1) as (readings & Hrun & Hplaces) end.
    eexists (_ :: readings). split.
    + rewrite Hrun. f_equal.
      * rewrite <- app_assoc. reflexivity.
      * change (flat_map calls_wide (x :: locations))
          with (calls_wide x ++ flat_map calls_wide locations).
        rewrite rev_app_distr, <- app_assoc. reflexivity.
    + simpl. rewrite Hplaces. reflexivity.
Qed.

(** X4. Without a readable configuration every revision exits with
    status 1 before any call.  With credentials that do not parse, a run
    that is to write still fetches every location first and then exits
    with status 1 without a single spreadsheet call. *)
Theorem broken_setup_fails_without_writing :
  (config_locations env = None ->
   NowcastLong.main env = (1, []) /\ AreaLong.main env = (1, [])
   /\ Wide.main env = (1, []))
  /\ (credentials_parse env = false ->
      forall locations, config_locations env = Some locations ->
        (always env LocationforecastCompact usable ->
         Wide.main env = (1, rev (flat_map calls_wide locations)))
        /\ (dryRun env = false ->
            always env NowcastComplete usable ->
            NowcastLong.main env = (1, rev (flat_map calls_long locations))
            /\ (always env LocationforecastCompact harmless ->
                no_inherited_label (map AreaLong.area_or_other locations) ->
                AreaLong.main env
                = (1, rev (flat_map calls_area (area_order locations)))))).
Proof.
  split.
  - intros Hconfig.
    pose proof (long_main_phases env) as Hlong.
    pose proof (area_main_phases env) as Harea.
    pose proof (wide_main_phases env) as Hwide.
    rewrite Hconfig in *. auto.
  - intros Hcred locations Hconfig. split.
    + intros Hup. pose proof (wide_main_phases env) as Hwide. rewrite Hconfig in Hwide.
      destruct (wide_collect_up locations [] [] Hup) as (readings & Hcollect & _).
      rewrite Hcollect, app_nil_r in Hwide.
      destruct Hwide as (_ & calls & _ & _ & Hmain). apply Hmain. exact Hcred.
    + intros Hdry Hup. split.
      * pose proof (long_main_phases env) as Hlong. rewrite Hconfig in Hlong.
        destruct (long_collect_up Hup locations [] []) as (readings & Hcollect & _).
        rewrite Hcollect, app_nil_r in Hlong.
        destruct Hlong as (_ & _ & Hmain & _). apply Hmain; assumption.
      * intros Hharmless Hlabels.
        pose proof (area_main_phases env) as Harea. rewrite Hconfig in Harea.
        destruct (area_collect_up Hup Hharmless [] Hlabels) as (readings & Hcollect & _).
        rewrite Hcollect, app_nil_r in Harea.
        destruct Harea as (_ & _ & Hmain & _). apply Hmain; assumption.
Qed.

End Setup.

Lemma broken_setup_fails_without_writing_witness :
  (NowcastLong.main MoreExamples.no_config = (1, [])
   /\ AreaLong.main MoreExamples.no_config = (1, [])
   /\ Wide.main MoreExamples.no_config = (1, []))
  /\ Wide.main MoreExamples.bad_credentials
     = (1, rev (flat_map calls_wide Examples.two_places))
  /\ NowcastLong.main MoreExamples.bad_credentials
     = (1, rev (flat_map calls_long Examples.two_places))
  /\ AreaLong.main MoreExamples.bad_credentials
     = (1, rev (flat_map calls_area (area_order Examples.two_places))).
Proof.
  split.
  - apply (proj1 (@broken_setup_fails_without_writing Q Q_JsNumber MoreExamples.no_config)).
    reflexivity.
  - destruct (proj2 (@broken_setup_fails_without_writing Q Q_JsNumber
                       MoreExamples.bad_credentials)
                    eq_refl Examples.two_places eq_refl) as [Hwide Hlong].
    split; [apply Hwide; intros h lat lon; reflexivity|].
    destruct Hlong as [Hlong Harea]; [reflexivity|intros h lat lon; reflexivity|].
    split; [exact Hlong|]. apply Harea.
    + intros h lat lon. reflexivity.
    + repeat constructor.
Defined.

Lemma long_failed_fetch_aborts_run_witness :
  NowcastLong.main MoreExamples.bergen_fails
  = (1, [ HttpGet NowcastComplete 60%Q 10%Q; SetTimeout 1000;
          HttpGet NowcastComplete 59%Q 10%Q ])
  /\ sheet_free (snd (NowcastLong.main MoreExamples.bergen_fails)).
Proof.
  split; [reflexivity|].
  apply (@long_failed_fetch_aborts_run Q MoreExamples.bergen_fails 1
           (snd (NowcastLong.main MoreExamples.bergen_fails)) []
           [ SetTimeout 1000; HttpGet NowcastComplete 59%Q 10%Q ]
           60%Q 10%Q Examples.failure);
    reflexivity.
Defined.

Lemma wide_failed_fetch_aborts_run_witness :
  Wide.main MoreExamples.bergen_fails
  = (1, [ HttpGet LocationforecastCompact 60%Q 10%Q; SetTimeout 1000;
          HttpGet LocationforecastCompact 59%Q 10%Q ])
  /\ sheet_free (snd (Wide.main MoreExamples.bergen_fails)).
Proof.
  split; [reflexivity|].
  apply (@wide_failed_fetch_aborts_run Q MoreExamples.bergen_fails 1
           (snd (Wide.main MoreExamples.bergen_fails)) []
           [ SetTimeout 1000; HttpGet LocationforecastCompact 59%Q 10%Q ]
           60%Q 10%Q Examples.failure);
    reflexivity.
Defined.

(** ** Writers and the state of the sheet *)

Section Writers.

Context {num : Type} {NumOps : JsNumber num}.
Variable env : Env num.

(** X5. The long-layout writers never rewrite a header that is there:
    when the header read is not empty, whatever its columns, they issue
    the read and one append of the same rows as on an empty sheet, and
    return if the append is accepted. *)
Theorem long_writers_keep_existing_header (auth : unit)
  (locations : list (Location.t num)) (h : History num)
  (c0 : string) (existing : list string) :
  let date := now_date env in
  let hour := now_hour env in
  (forall weatherData : list (NowcastLong.Reading.t num),
     let get := SheetValuesGet "Sheet1!A1:D1" in
     let rows := map (fun w => map (long_cell date hour w) long_header) weatherData in
     let append := SheetValuesAppend "Sheet1!A:D" rows in
     fst (values_get_first_row env "Sheet1!A1:D1" h) = Returned (c0 :: existing) ->
     NowcastLong.appendToSheet env auth locations weatherData h
     = (if sheet_accepts env (get :: h) append
        then Returned tt else Thrown SheetApiError,
        append :: get :: h))
  /\ (forall weatherData : list (AreaLong.Reading.t num),
        let get := SheetValuesGet "Sheet1!A1:G1" in
        let rows := map (fun w => map (area_cell date hour w) area_header) weatherData in
        let append := SheetValuesAppend "Sheet1!A:G" rows in
        fst (values_get_first_row env "Sheet1!A1:G1" h) = Returned (c0 :: existing) ->
        AreaLong.appendToSheet env auth locations weatherData h
        = (if sheet_accepts env (get :: h) append
           then Returned tt else Thrown SheetApiError,
           append :: get :: h)).
Proof.
  cbv zeta. split; intros weatherData Hget;
    apply values_get_first_row_returned in Hget.
  - unfold NowcastLong.appendToSheet, bind. rewrite Hget.
    unfold long_cell, long_header. simpl. unfold values_append.
    match goal with |- context [sheet_accepts env ?h1 ?c] => destruct (sheet_accepts env h1 c) end;
      reflexivity.
  - unfold AreaLong.appendToSheet, bind. rewrite Hget.
    unfold area_cell, area_header. simpl. unfold values_append.
    match goal with |- context [sheet_accepts env ?h1 ?c] => destruct (sheet_accepts env h1 c) end;
      reflexivity.
Qed.

(** X6. The long-layout writers stop at the first spreadsheet error: a
    failed header read is their only call, and a rejected header write on
    an empty sheet is their last one, so that no row is appended. *)
Theorem long_writers_stop_at_sheet_errors (auth : unit)
  (locations : list (Location.t num)) (h : History num) :
  (forall weatherData : list (NowcastLong.Reading.t num),
     let get := SheetValuesGet "Sheet1!A1:D1" in
     let update := SheetValuesUpdate "Sheet1!A1" [map (@Str num) long_header] in
     (sheet_values env h "Sheet1!A1:D1" = None ->
      NowcastLong.appendToSheet env auth locations weatherData h
      = (Thrown SheetApiError, get :: h))
     /\ (header_read env "Sheet1!A1:D1" h = [] ->
         sheet_values env h "Sheet1!A1:D1" <> None ->
         sheet_accepts env (get :: h) update = false ->
         NowcastLong.appendToSheet env auth locations weatherData h
         = (Thrown SheetApiError, update :: get :: h)))
  /\ (forall weatherData : list (AreaLong.Reading.t num),
        let get := SheetValuesGet "Sheet1!A1:G1" in
        let update := SheetValuesUpdate "Sheet1!A1" [map (@Str num) area_header] in
        (sheet_values env h "Sheet1!A1:G1" = None ->
         AreaLong.appendToSheet env auth locations weatherData h
         = (Thrown SheetApiError, get :: h))
        /\ (header_read env "Sheet1!A1:G1" h = [] ->
            sheet_values env h "Sheet1!A1:G1" <> None ->
            sheet_accepts env (get :: h) update = false ->
            AreaLong.appendToSheet env auth locations weatherData h
            = (Thrown SheetApiError, update :: get :: h))).
Proof.
  cbv zeta. split; intros weatherData; split.
  - intros Hnone. unfold NowcastLong.appendToSheet, bind, values_get_first_row.
    rewrite Hnone. reflexivity.
  - unfold header_read. intros Hempty Hanswer Hreject.
    unfold NowcastLong.appendToSheet, bind, values_get_first_row.
    destruct (sheet_values env h "Sheet1!A1:D1") as [[[|row rows]|]|];
      try (contradiction Hanswer; reflexivity); subst; simpl;
      unfold values_update; simpl in Hreject; rewrite Hreject; reflexivity.
  - intros Hnone. unfold AreaLong.appendToSheet, bind, values_get_first_row.
    rewrite Hnone. reflexivity.
  - unfold header_read. intros Hempty Hanswer Hreject.
    unfold AreaLong.appendToSheet, bind, values_get_first_row.
    destruct (sheet_values env h "Sheet1!A1:G1") as [[[|row rows]|]|];
      try (contradiction Hanswer; reflexivity); subst; simpl;
      unfold values_update; simpl in Hreject; rewrite Hreject; reflexivity.
Qed.

Ltac split_accepts :=
  repeat match goal with
         | |- context [sheet_accepts env ?h1 ?c] =>
             destruct (sheet_accepts env h1 c)
         end.

Ltac once_or_never :=
  first
    [ left; split; [reflexivity|discriminate]
    | right; do 3 eexists; split; reflexivity ].

(** X9. Every writer of the weather scripts appends at most once per run,
    as its last call: either it throws without having appended, or its
    last call is the one append of the run. *)
Theorem writers_append_at_most_once (auth : unit) (locations : list (Location.t num))
  (h : History num) :
  (forall weatherData,
     appends_at_most_once h (NowcastLong.appendToSheet env auth locations weatherData h))
  /\ (forall weatherData,
        appends_at_most_once h (AreaLong.appendToSheet env auth locations weatherData h))
  /\ (forall weatherData,
        appends_at_most_once h (Wide.appendToSheet env auth locations weatherData h)).
Proof.
  unfold appends_at_most_once. split; [|split]; intros weatherData.
  - unfold NowcastLong.appendToSheet, bind, values_get_first_row.
    destruct (sheet_values env h "Sheet1!A1:D1") as [[[|row rows]|]|];
      try destruct row; simpl; unfold values_update, values_append, ret;
      split_accepts; simpl; once_or_never.
  - unfold AreaLong.appendToSheet, bind, values_get_first_row.
    destruct (sheet_values env h "Sheet1!A1:G1") as [[[|row rows]|]|];
      try destruct row; simpl; unfold values_update, values_append, ret;
      split_accepts; simpl; once_or_never.
  - unfold Wide.appendToSheet, bind, values_get_first_row.
    destruct (sheet_values env h "Sheet1!A1:ZZ1") as [[[|row rows]|]|];
      try destruct row; simpl; unfold values_update, values_append, ret;
      split_accepts; simpl;
      try once_or_never;
      match goal with
      | |- context [Wide.newLocationNames ?hd locations] =>
          destruct (Wide.newLocationNames hd locations)
      end; simpl; split_accepts; simpl; once_or_never.
Qed.

End Writers.

Lemma long_writers_keep_existing_header_witness :
  let env := MoreExamples.sheet_with ["Date"; "Hour"; "Bergen"] Examples.two_places in
  NowcastLong.appendToSheet env tt Examples.two_places
    [Examples.long_reading "Oslo" (52 # 10)] []
  = (Returned tt,
     [ SheetValuesAppend "Sheet1!A:D"
         [[Str "2025-12-03"; Str "00"; Str "Oslo"; Num (52 # 10)%Q]];
       SheetValuesGet "Sheet1!A1:D1" ])
  /\ AreaLong.appendToSheet env tt Examples.two_places
       [Examples.area_reading "Other" "Oslo" (52 # 10)] []
     = (Returned tt,
        [ SheetValuesAppend "Sheet1!A:G"
            [[Str "2025-12-03"; Str "00"; Str "Other"; Str "Oslo"; Num (52 # 10)%Q;
              Num (1 # 2)%Q; Null]];
          SheetValuesGet "Sheet1!A1:G1" ]).
Proof.
  intros env.
  destruct (@long_writers_keep_existing_header Q env tt Examples.two_places []
              "Date" ["Hour"; "Bergen"]) as [Hlong Harea].
  split.
  - apply (Hlong [Examples.long_reading "Oslo" (52 # 10)]). reflexivity.
  - apply (Harea [Examples.area_reading "Other" "Oslo" (52 # 10)]). reflexivity.
Defined.

Lemma long_writers_stop_at_sheet_errors_witness :
  (NowcastLong.appendToSheet MoreExamples.sheet_down tt Examples.two_places
     [Examples.long_reading "Oslo" (52 # 10)] []
   = (Thrown SheetApiError, [SheetValuesGet "Sheet1!A1:D1"])
   /\ NowcastLong.appendToSheet (MoreExamples.read_only_sheet []) tt Examples.two_places
        [Examples.long_reading "Oslo" (52 # 10)] []
      = (Thrown SheetApiError,
         [ SheetValuesUpdate "Sheet1!A1"
             [[Str "Date"; Str "Hour"; Str "Location"; Str "Temperature"]];
           SheetValuesGet "Sheet1!A1:D1" ]))
  /\ (AreaLong.appendToSheet MoreExamples.sheet_down tt Examples.two_places
        [Examples.area_reading "Other" "Oslo" (52 # 10)] []
      = (Thrown SheetApiError, [SheetValuesGet "Sheet1!A1:G1"])
      /\ AreaLong.appendToSheet (MoreExamples.read_only_sheet []) tt Examples.two_places
           [Examples.area_reading "Other" "Oslo" (52 # 10)] []
         = (Thrown SheetApiError,
            [ SheetValuesUpdate "Sheet1!A1"
                [[Str "Date"; Str "Hour"; Str "Area"; Str "Location"; Str "Temperature";
                  Str "Precipitation"; Str "CloudCover"]];
              SheetValuesGet "Sheet1!A1:G1" ])).
Proof.
  pose proof (@long_writers_stop_at_sheet_errors Q MoreExamples.sheet_down tt
                Examples.two_places []) as [Hlong1 Harea1].
  pose proof (@long_writers_stop_at_sheet_errors Q (MoreExamples.read_only_sheet []) tt
                Examples.two_places []) as [Hlong2 Harea2].
  split; split.
  - apply (proj1 (Hlong1 _)). reflexivity.
  - apply (proj2 (Hlong2 _)); [reflexivity|discriminate|reflexivity].
  - apply (proj1 (Harea1 _)). reflexivity.
  - apply (proj2 (Harea2 _)); [reflexivity|discriminate|reflexivity].
Defined.

(** ** The header of the wide layout *)

Section WideHeader.

Context {num : Type} {NumOps : JsNumber num}.
Variable env : Env num.

Lemma count_occ_filter (f : string -> bool) (l : list string) (n : string) :
  count_occ string_dec (filter f l) n = if f n then count_occ string_dec l n else 0.
Proof.
  destruct (f n) eqn:Hf; induction l as [|a l IH]; simpl; try reflexivity.
  - destruct (string_dec a n) as [Heq|Hne].
    + subst a. rewrite Hf. simpl. destruct (string_dec n n); [|contradiction].
      rewrite IH. reflexivity.
    + destruct (f a); simpl; [|exact IH].
      destruct (string_dec a n); [contradiction|exact IH].
  - destruct (f a) eqn:Hfa; simpl; [|exact IH].
    destruct (string_dec a n) as [Heq|Hne]; [|exact IH].
    subst a. congruence.
Qed.

(** X8. The wide writer adds one column per entry of the configuration,
    not per name: a name that is not yet among the location columns gets
    as many new columns as the configuration lists it, and a name that is
    among them gets none. *)
Theorem wide_columns_follow_configuration_entries (header : list string)
  (locations : list (Location.t num)) (n : string) :
  count_occ string_dec (Wide.newLocationNames header locations) n
  = if Wide.includes (skipn 2 header) n then 0
    else count_occ string_dec (map (@Location.name num) locations) n.
Proof.
  unfold Wide.newLocationNames. rewrite count_occ_filter.
  destruct (Wide.includes (skipn 2 header) n); reflexivity.
Qed.

Lemma no_new_names (header : list string) (locations : list (Location.t num)) :
  (forall l, In l locations -> In (Location.name l) (skipn 2 header)) ->
  Wide.newLocationNames header locations = [].
Proof.
  intros Hseen. unfold Wide.newLocationNames.
  induction locations as [|l locations IH]; cbn [map filter]; [reflexivity|].
  assert (Hl : Wide.includes (skipn 2 header) (Location.name l) = true).
  { apply existsb_eqb_In. apply Hseen. left. reflexivity. }
  rewrite Hl. cbn [negb]. apply IH. intros l' Hl'. apply Hseen. right. exact Hl'.
Qed.

Lemma grown_header_holds_names (header : list string) (locations : list (Location.t num))
  (l : Location.t num) :
  2 <= List.length header ->
  In l locations ->
  In (Location.name l) (skipn 2 (header ++ Wide.newLocationNames header locations)).
Proof.
  intros Hlong Hl. rewrite skipn_app.
  replace (2 - List.length header) with 0 by lia. simpl skipn at 2.
  apply in_or_app.
  destruct (in_dec string_dec (Location.name l) (skipn 2 header))
    as [Hin|Hout]; [left; exact Hin|right].
  apply newLocationNames_In. split; [|exact Hout].
  apply in_map. exact Hl.
Qed.

(** X7. The header of the wide layout settles.  Grown from a header with
    at least the two leading columns, it holds every configured name among
    its location columns; and when the header read holds every configured
    name there, the writer leaves it alone: it issues the read and the
    append only. *)
Theorem wide_header_settles (auth : unit) (locations : list (Location.t num))
  (weatherData : list (Wide.Reading.t num)) (h : History num) (existing : list string) :
  (2 <= List.length (wide_base existing) ->
   forall l, In l locations ->
     In (Location.name l)
        (skipn 2 (wide_base existing
                  ++ Wide.newLocationNames (wide_base existing) locations)))
  /\ (fst (values_get_first_row env "Sheet1!A1:ZZ1" h) = Returned existing ->
      existing <> [] ->
      (forall l, In l locations -> In (Location.name l) (skipn 2 existing)) ->
      let get := SheetValuesGet "Sheet1!A1:ZZ1" in
      let append :=
        SheetValuesAppend "Sheet1!A:ZZ"
          [Wide.build_row (now_date env) (now_hour env) existing weatherData] in
      Wide.appendToSheet env auth locations weatherData h
      = (if sheet_accepts env (get :: h) append
         then Returned tt else Thrown SheetApiError,
         append :: get :: h)).
Proof.
  split.
  - intros Hlong l Hl. apply grown_header_holds_names; assumption.
  - intros Hget Hsome Hseen. cbv zeta.
    apply values_get_first_row_returned in Hget.
    unfold Wide.appendToSheet, bind. rewrite Hget.
    destruct existing as [|c0 existing]; [contradiction Hsome; reflexivity|].
    change (List.length (c0 :: existing) =? 0) with false. cbv iota beta.
    unfold ret at 1. rewrite (no_new_names Hseen).
    change (0 <? List.length (@nil string)) with false. cbv iota beta.
    unfold ret, values_append.
    match goal with |- context [sheet_accepts env ?h1 ?c] => destruct (sheet_accepts env h1 c) end;
      reflexivity.
Qed.

End WideHeader.

Lemma wide_header_settles_witness :
  let env := MoreExamples.sheet_with ["Date"; "Hour"; "Bergen"; "Oslo"] Examples.two_places in
  (forall l, In l Examples.two_places ->
     In (Location.name l)
        (skipn 2 (wide_base ["Date"; "Hour"; "Bergen"]
                  ++ Wide.newLocationNames (wide_base ["Date"; "Hour"; "Bergen"])
                       Examples.two_places)))
  /\ Wide.appendToSheet env tt Examples.two_places Examples.two_readings []
     = (Returned tt,
        [ SheetValuesAppend "Sheet1!A:ZZ"
            [[Str "2025-12-03"; Str "00"; Num 7%Q; Num (52 # 10)%Q]];
          SheetValuesGet "Sheet1!A1:ZZ1" ]).
Proof.
  intros env. split.
  - apply (proj1 (@wide_header_settles Q env tt Examples.two_places Examples.two_readings
                    [] ["Date"; "Hour"; "Bergen"])).
    simpl. lia.
  - apply (proj2 (@wide_header_settles Q env tt Examples.two_places Examples.two_readings
                    [] ["Date"; "Hour"; "Bergen"; "Oslo"])).
    + reflexivity.
    + discriminate.
    + intros l [<-|[<-|[]]]; simpl; tauto.
Defined.

(** ** Edge cases of the fetch and of the grouping *)

Section FetchEdges.

Context {num : Type} {NumOps : JsNumber num}.
Variable env : Env num.

Lemma group_reduce_app (p q : list (Location.t num))
  (acc : JsObject (list (Location.t num))) :
  AreaLong.group_reduce (p ++ q) acc
  = match AreaLong.group_reduce p acc with
    | Returned acc' => AreaLong.group_reduce q acc'
    | Thrown e => Thrown e
    end.
Proof.
  revert acc. induction p as [|x p IH]; intros acc; simpl; [reflexivity|].
  destruct (AreaLong.group_step acc x); [apply IH|reflexivity].
Qed.

Lemma first_inherited (locations : list (Location.t num)) :
  no_inherited_label (map AreaLong.area_or_other locations)
  \/ exists p x q,
       locations = p ++ x :: q
       /\ no_inherited_label (map AreaLong.area_or_other p)
       /\ inherited (AreaLong.area_or_other x) = true.
Proof.
  induction locations as [|y locations IH]; [left; constructor|].
  destruct (inherited (AreaLong.area_or_other y)) eqn:Hy.
  - right. exists [], y, locations. repeat split; [constructor|exact Hy].
  - destruct IH as [Hall|(p & x & q & -> & Hp & Hx)].
    + left. constructor; assumption.
    + right. exists (y :: p), x, q. repeat split; [constructor; assumption|exact Hx].
Qed.

Lemma group_reduce_inherited (p q : list (Location.t num)) (x : Location.t num) :
  no_inherited_label (map AreaLong.area_or_other p) ->
  inherited (AreaLong.area_or_other x) = true ->
  AreaLong.group_reduce (p ++ x :: q) [] = Thrown TypeError.
Proof.
  intros Hp Hx. rewrite group_reduce_app.
  change (@nil (string * list (Location.t num))) with (grouped (@nil (Location.t num))).
  rewrite (group_reduce_grouped [] Hp). simpl app. simpl AreaLong.group_reduce.
  unfold AreaLong.group_step, grouped.
  rewrite (own_property_map (fun a => filter (in_area a) p)), existsb_distinct.
  assert (Hout : existsb (String.eqb (AreaLong.area_or_other x))
                         (map AreaLong.area_or_other p) = false).
  { apply existsb_eqb_not_In. intros Hin. unfold no_inherited_label in Hp.
    rewrite Forall_forall in Hp. specialize (Hp _ Hin). congruence. }
  rewrite Hout, Hx. reflexivity.
Qed.

(** X10. The grouping by area throws a [TypeError] exactly when some
    location carries an area label that names a property inherited from
    [Object.prototype]; the collector then throws without a single
    request, and the run exits with status 1 and an empty history. *)
Theorem inherited_area_label_fails_run (locations : list (Location.t num)) :
  let odd := Exists (fun l => inherited (AreaLong.area_or_other l) = true) locations in
  (AreaLong.group_reduce locations [] = Thrown TypeError <-> odd)
  /\ (odd -> forall h, AreaLong.collect env locations h = (Thrown TypeError, h))
  /\ (odd -> config_locations env = Some locations -> AreaLong.main env = (1, [])).
Proof.
  cbv zeta.
  assert (Hthrows : Exists (fun l => inherited (AreaLong.area_or_other l) = true) locations ->
                    AreaLong.group_reduce locations [] = Thrown TypeError).
  { intros Hodd. destruct (first_inherited locations) as [Hall|(p & x & q & -> & Hp & Hx)].
    - exfalso. apply Exists_exists in Hodd. destruct Hodd as (l & Hl & Hinh).
      unfold no_inherited_label in Hall. rewrite Forall_forall in Hall.
      specialize (Hall _ (in_map _ _ _ Hl)). congruence.
    - apply group_reduce_inherited; assumption. }
  assert (Hcollect : Exists (fun l => inherited (AreaLong.area_or_other l) = true) locations ->
                     forall h, AreaLong.collect env locations h = (Thrown TypeError, h)).
  { intros Hodd h. unfold AreaLong.collect, bind, AreaLong.locationsByArea.
    rewrite (Hthrows Hodd). reflexivity. }
  split; [split; [|exact Hthrows]|split; [exact Hcollect|]].
  - intros Hthrown. destruct (first_inherited locations) as [Hall|(p & x & q & -> & Hp & Hx)].
    + change (@nil (string * list (Location.t num)))
        with (grouped (@nil (Location.t num))) in Hthrown.
      rewrite (group_reduce_grouped [] Hall) in Hthrown. discriminate.
    + apply Exists_exists. exists x. split; [|exact Hx].
      apply in_or_app. right. left. reflexivity.
  - intros Hodd Hconfig.
    unfold AreaLong.main, run_main, AreaLong.main_try, bind, loadLocations.
    rewrite Hconfig. unfold ret. cbv beta iota. rewrite (Hcollect Hodd). reflexivity.
Qed.

(** X11. Once the primary endpoint has answered with a success status
    and a series with a current entry, [fetchWeather] returns a reading
    exactly when the cloud-cover endpoint answers with a non-success
    status or with a success status and a series with a current entry.
    A rejected request, a body that does not parse, or an empty series
    there makes the whole fetch throw, after both requests. *)
Theorem reading_needs_harmless_cloud_answer (lat lon : num) (h : History num)
  (r : Response num) (current : TimeseriesEntry num) (rest : list (TimeseriesEntry num))
  (Hanswer : http_response env h NowcastComplete lat lon = Some r)
  (Hok : ok r = true)
  (Hjson : json r = Some (current :: rest)) :
  let h1 := HttpGet NowcastComplete lat lon :: h in
  let h2 := HttpGet LocationforecastCompact lat lon :: h1 in
  ((exists w h', AreaLong.fetchWeather env lat lon h = (Returned w, h'))
   <-> answers harmless (http_response env h1 LocationforecastCompact lat lon) = true)
  /\ (answers harmless (http_response env h1 LocationforecastCompact lat lon) = false ->
      exists e, AreaLong.fetchWeather env lat lon h = (Thrown e, h2)).
Proof.
  cbv zeta. rewrite (fetchWeather_primary_ok Hanswer Hok Hjson).
  destruct (http_response env _ LocationforecastCompact lat lon) as [r2|]; simpl.
  - unfold harmless. destruct (ok r2); simpl.
    + destruct (json r2) as [[|fc frest]|]; split;
        try (split; [intros (w & h' & H); discriminate|discriminate]);
        try (split; [reflexivity|intros _; do 2 eexists; reflexivity]);
        try discriminate;
        intros _; eexists; reflexivity.
    + split; [split; [reflexivity|intros _; do 2 eexists; reflexivity]|discriminate].
  - split; [split; [intros (w & h' & H); discriminate|discriminate]|].
    intros _. eexists. reflexivity.
Qed.

Lemma firstn_subset (A : Type) (n : nat) (l : list A) (x : A) :
  In x (firstn n l) -> In x l.
Proof.
  revert l. induction n as [|n IH]; intros [|y l]; simpl; try tauto.
  intros [Heq|Hin]; [left; exact Heq|right; apply IH; exact Hin].
Qed.

(** X12. The precipitation loop looks at six entries at most: whatever
    follows the sixth entry of the series changes nothing, and a series
    in which no entry has a next-hour amount gives exactly 0. *)
Theorem precipitation_window_is_six_entries (front later : list (TimeseriesEntry num)) :
  (6 <= List.length front ->
   AreaLong.precipitation_loop (front ++ later) = AreaLong.precipitation_loop front)
  /\ ((forall entry, In entry front -> AreaLong.next_hour_precipitation entry = None) ->
      AreaLong.precipitation_loop front = num_zero).
Proof.
  rewrite !precipitation_loop_firstn. unfold precipitation_accumulated. split.
  - intros Hsix. rewrite length_app.
    replace (Nat.min 6 (List.length front + List.length later)) with 6 by lia.
    replace (Nat.min 6 (List.length front)) with 6 by lia.
    rewrite firstn_app. replace (6 - List.length front) with 0 by lia.
    simpl firstn at 2. rewrite app_nil_r. reflexivity.
  - intros Hnone.
    assert (Hskip : forall entries acc,
              (forall entry, In entry entries ->
                 AreaLong.next_hour_precipitation entry = None) ->
              fold_left accumulate entries acc = acc).
    { induction entries as [|entry entries IH]; intros acc Hall; simpl; [reflexivity|].
      unfold accumulate at 2. rewrite (Hall entry (or_introl eq_refl)).
      apply IH. intros e He. apply Hall. right. exact He. }
    apply Hskip. intros entry Hentry. apply Hnone.
    apply (firstn_subset Hentry).
Qed.

End FetchEdges.

Lemma inherited_area_label_fails_run_witness :
  AreaLong.group_reduce MoreExamples.odd_places [] = Thrown TypeError
  /\ AreaLong.main (Examples.fair_weather [] MoreExamples.odd_places) = (1, []).
Proof.
  destruct (@inherited_area_label_fails_run Q Q_JsNumber
              (Examples.fair_weather [] MoreExamples.odd_places) MoreExamples.odd_places)
    as (Hiff & _ & Hmain).
  assert (Hodd : Exists (fun l => inherited (AreaLong.area_or_other l) = true)
                        MoreExamples.odd_places).
  { apply Exists_cons_tl, Exists_cons_hd. reflexivity. }
  split; [apply (proj2 Hiff Hodd)|apply (Hmain Hodd eq_refl)].
Defined.

Lemma reading_needs_harmless_cloud_answer_witness :
  exists e,
    AreaLong.fetchWeather MoreExamples.empty_forecast 59%Q 10%Q []
    = (Thrown e, [HttpGet LocationforecastCompact 59%Q 10%Q; HttpGet NowcastComplete 59%Q 10%Q]).
Proof.
  apply (proj2 (@reading_needs_harmless_cloud_answer Q Q_JsNumber MoreExamples.empty_forecast
                  59%Q 10%Q [] Examples.success (Examples.entry (Some (1 # 2)%Q))
                  (tl Examples.series) eq_refl eq_refl eq_refl)).
  reflexivity.
Defined.

Lemma precipitation_window_is_six_entries_witness :
  AreaLong.precipitation_loop (firstn 6 Examples.series ++ skipn 6 Examples.series)
  = AreaLong.precipitation_loop (firstn 6 Examples.series)
  /\ AreaLong.precipitation_loop [Examples.bare_entry; Examples.entry None] = 0%Q.
Proof.
  split.
  - apply (proj1 (@precipitation_window_is_six_entries Q Q_JsNumber
                    (firstn 6 Examples.series) (skipn 6 Examples.series))).
    simpl. lia.
  - apply (proj2 (@precipitation_window_is_six_entries Q Q_JsNumber
                    [Examples.bare_entry; Examples.entry None] [])).
    intros entry [<-|[<-|[]]]; reflexivity.
Defined.

(** ** No request is repeated *)

Section Requests.

Context {num : Type} {NumOps : JsNumber num}.
Variable env : Env num.


















End Requests.


(** ** The batches of the bulk upload, in closed form *)

Section Batches.

Context {num : Type} {NumOps : JsNumber num}.
Variable env : Env num.

Lemma batch_count_step (n i : nat) :
  i < n -> (n - i + 999) / 1000 = S ((n - (i + 1000) + 999) / 1000).
Proof.
  intros Hi. destruct (le_lt_dec (n - i) 1000) as [Hshort|Hlong].
  - replace (n - (i + 1000)) with 0 by lia. simpl (0 + 999).
    rewrite (Nat.div_small 999 1000) by lia.
    symmetry. apply (Nat.div_unique (n - i + 999) 1000 1 (n - i - 1)); lia.
  - replace (n - i + 999) with ((n - (i + 1000) + 999) + 1 * 1000) by lia.
    rewrite Nat.div_add by lia. lia.
Qed.

Lemma batches_from_step (rows : list (list (JsValue num))) (i : nat) :
  i < List.length rows ->
  batches_from rows i
  = SampleData.slice rows i (i + SampleData.batchSize)
    :: batches_from rows (i + SampleData.batchSize).
Proof.
  intros Hi. unfold batches_from, SampleData.batchSize.
  rewrite (batch_count_step Hi). cbn [seq map].
  f_equal.
  - f_equal; lia.
  - rewrite <- seq_shift, map_map. apply map_ext. intros k. f_equal; lia.
Qed.

Lemma batches_from_end (rows : list (list (JsValue num))) (i : nat) :
  ~ i < List.length rows -> batches_from rows i = [].
Proof.
  intros Hi. unfold batches_from.
  replace (List.length rows - i) with 0 by lia. reflexivity.
Qed.

Lemma upload_from_closed_form (rows : list (list (JsValue num))) (i : nat)
  (h : History num) :
  fst (SampleData.upload_from env rows i h) = Returned tt ->
  appended (snd (SampleData.upload_from env rows i h))
  = appended h ++ batches_from rows i.
Proof.
  funelim (SampleData.upload_from env rows i h).
  - intros _. rewrite batches_from_end by assumption. simpl. rewrite app_nil_r. reflexivity.
  - intros Hret.
    match goal with IH : _ -> appended _ = _ |- _ => rewrite (IH Hret) end.
    match goal with Hsent : values_append _ _ _ _ = _ |- _ =>
      pose proof (values_append_history env "Sheet1!A:D"
                    (SampleData.slice rows i (i + SampleData.batchSize)) h) as Hh';
      rewrite Hsent in Hh'; simpl in Hh' end.
    subst h'. rewrite (@batches_from_step rows i) by assumption.
    simpl appended. rewrite <- app_assoc. reflexivity.
  - discriminate.
Qed.

Lemma batches_from_start (rows : list (list (JsValue num))) :
  batches_from rows 0 = batches_of rows.
Proof.
  unfold batches_from, batches_of. rewrite Nat.sub_0_r. reflexivity.
Qed.

(** X14. When the bulk upload returns, the batches it appended are the
    slices of 1000 rows taken at 0, 1000, 2000, ...: as many as the rows
    need, none for no rows, and every batch but the last holds exactly
    1000 rows. *)
Theorem bulk_upload_sends_full_batches (auth : unit) (rows : list (list (JsValue num)))
  (h : History num)
  (Hreturned : fst (SampleData.appendToSheet env auth rows h) = Returned tt) :
  appended (snd (SampleData.appendToSheet env auth rows h)) = appended h ++ batches_of rows
  /\ List.length (batches_of rows) = (List.length rows + 999) / 1000
  /\ (rows = [] -> batches_of rows = [])
  /\ (forall k, S k < List.length (batches_of rows) ->
        List.length (nth k (batches_of rows) []) = 1000).
Proof.
  split; [|split; [|split]].
  - revert Hreturned. unfold SampleData.appendToSheet, bind.
    pose proof (values_get_first_row_history env "Sheet1!A1:D1" h) as Hh1.
    destruct (values_get_first_row env "Sheet1!A1:D1" h) as [[existing|e] h1];
      simpl in Hh1; subst h1; [|discriminate].
    destruct (List.length existing =? 0).
    + unfold values_update.
      destruct (sheet_accepts env _ (SheetValuesUpdate "Sheet1!A1" _)); [|discriminate].
      intros Hret. rewrite (upload_from_closed_form Hret), batches_from_start.
      reflexivity.
    + unfold ret. intros Hret.
      rewrite (upload_from_closed_form Hret), batches_from_start. reflexivity.
  - unfold batches_of. rewrite length_map, length_seq. reflexivity.
  - intros ->. reflexivity.
  - intros k Hk. unfold batches_of in *. rewrite length_map, length_seq in Hk.
    set (count := (List.length rows + 999) / 1000) in *.
    assert (Hrows : 1000 * count <= List.length rows + 999).
    { apply Nat.Div0.mul_div_le. }
    rewrite (nth_indep _ [] (SampleData.slice rows (0 * 1000) (0 * 1000 + 1000)))
      by (rewrite length_map, length_seq; lia).
    rewrite (map_nth (fun k => SampleData.slice rows (k * 1000) (k * 1000 + 1000))).
    rewrite seq_nth by lia. unfold SampleData.slice.
    rewrite length_firstn, length_skipn. lia.
Qed.

End Batches.

Lemma bulk_upload_sends_full_batches_witness :
  let env := Examples.fair_weather [] [Examples.oslo] in
  let rows := Examples.sample_rows 2500 in
  appended (snd (SampleData.appendToSheet env tt rows [])) = batches_of rows
  /\ List.length (batches_of rows) = 3
  /\ List.length (nth 1 (batches_of rows) []) = 1000.
Proof.
  intros env rows.
  destruct (@bulk_upload_sends_full_batches Q env tt rows [])
    as (Hsent & Hcount & _ & Hfull).
  - vm_compute. reflexivity.
  - split; [exact Hsent|]. split; [rewrite Hcount; vm_compute; reflexivity|].
    apply Hfull. rewrite Hcount. vm_compute. lia.
Defined.

(** ** Whole runs that write *)

Section WritingRuns.

Context {num : Type} {NumOps : JsNumber num}.
Variable env : Env num.

Hypothesis sheet_up : sheet_answers env.
Hypothesis sheet_writable : sheet_accepts_all env.

Lemma header_read_returned (range : string) (h : History num) :
  values_get_first_row env range h
  = (Returned (header_read env range h), SheetValuesGet range :: h).
Proof.
  unfold values_get_first_row, header_read.
  pose proof sheet_up as Hanswer. specialize (Hanswer h range).
  destruct (sheet_values env h range) as [[[|row rows]|]|]; try reflexivity.
  contradiction Hanswer. reflexivity.
Qed.

Lemma long_appendToSheet_run (auth : unit) (locations : list (Location.t num))
  (weatherData : list (NowcastLong.Reading.t num)) (h : History num) :
  NowcastLong.appendToSheet env auth locations weatherData h
  = (Returned tt,
     SheetValuesAppend "Sheet1!A:D"
       (map (fun w => map (long_cell (now_date env) (now_hour env) w) long_header)
            weatherData)
     :: header_write (header_read env "Sheet1!A1:D1" h) long_header
        ++ SheetValuesGet "Sheet1!A1:D1" :: h).
Proof.
  unfold NowcastLong.appendToSheet, bind. rewrite header_read_returned.
  unfold long_cell, long_header. simpl map.
  destruct (header_read env "Sheet1!A1:D1" h) as [|c0 existing]; simpl;
    unfold values_update, values_append, ret; rewrite ?sheet_writable; reflexivity.
Qed.

Lemma area_appendToSheet_run (auth : unit) (locations : list (Location.t num))
  (weatherData : list (AreaLong.Reading.t num)) (h : History num) :
  AreaLong.appendToSheet env auth locations weatherData h
  = (Returned tt,
     SheetValuesAppend "Sheet1!A:G"
       (map (fun w => map (area_cell (now_date env) (now_hour env) w) area_header)
            weatherData)
     :: header_write (header_read env "Sheet1!A1:G1" h) area_header
        ++ SheetValuesGet "Sheet1!A1:G1" :: h).
Proof.
  unfold AreaLong.appendToSheet, bind. rewrite header_read_returned.
  unfold area_cell, area_header. simpl map.
  destruct (header_read env "Sheet1!A1:G1" h) as [|c0 existing]; simpl;
    unfold values_update, values_append, ret; rewrite ?sheet_writable; reflexivity.
Qed.

(** X15. A run of the long-layout revisions that is to write, with a
    provider that answers every fetch and a sheet that answers and accepts
    every call, exits with status 0 after these calls, in order: the
    fetches of every location, the header read, the header write if the
    sheet was empty, and one append with one row per location, in fetch
    order. *)
Theorem long_runs_write_one_row_per_location (locations : list (Location.t num))
  (Hconfig : config_locations env = Some locations)
  (Hwrite : dryRun env = false)
  (Hcredentials : credentials_parse env = true)
  (Hup : always env NowcastComplete usable) :
  (exists readings,
     let fetches := rev (flat_map calls_long locations) in
     NowcastLong.main env
     = (0,
        SheetValuesAppend "Sheet1!A:D"
          (map (fun w => map (long_cell (now_date env) (now_hour env) w) long_header)
               readings)
        :: header_write (header_read env "Sheet1!A1:D1" fetches) long_header
           ++ SheetValuesGet "Sheet1!A1:D1" :: fetches)
     /\ map place_long readings = map place locations)
  /\ (always env LocationforecastCompact harmless ->
      no_inherited_label (map AreaLong.area_or_other locations) ->
      exists readings,
        let fetches := rev (flat_map calls_area (area_order locations)) in
        AreaLong.main env
        = (0,
           SheetValuesAppend "Sheet1!A:G"
             (map (fun w => map (area_cell (now_date env) (now_hour env) w) area_header)
                  readings)
           :: header_write (header_read env "Sheet1!A1:G1" fetches) area_header
              ++ SheetValuesGet "Sheet1!A1:G1" :: fetches)
        /\ map place_area readings = map place (area_order locations)
        /\ map (@AreaLong.Reading.area num) readings
           = map AreaLong.area_or_other (area_order locations)).
Proof.
  split.
  - pose proof (long_main_phases env) as H. rewrite Hconfig in H.
    destruct (long_collect_up Hup locations [] []) as (readings & Hcollect & Hplaces).
    rewrite Hcollect, app_nil_r in H. simpl app in H.
    destruct H as (_ & _ & _ & Hmain & _).
    exists readings. cbv zeta. split; [|exact Hplaces].
    rewrite (Hmain Hwrite Hcredentials). unfold run_main.
    rewrite long_appendToSheet_run. reflexivity.
  - intros Hharmless Hlabels.
    pose proof (area_main_phases env) as H. rewrite Hconfig in H.
    destruct (area_collect_up Hup Hharmless [] Hlabels)
      as (readings & Hcollect & Hplaces & Hareas).
    rewrite Hcollect, app_nil_r in H.
    destruct H as (_ & _ & _ & Hmain & _).
    exists readings. cbv zeta. split; [|split; [exact Hplaces|exact Hareas]].
    rewrite (Hmain Hwrite Hcredentials). unfold run_main.
    rewrite area_appendToSheet_run. reflexivity.
Qed.

Lemma find_reading_unique (readings : list (Wide.Reading.t num)) (w : Wide.Reading.t num) :
  NoDup (map (@Wide.Reading.location num) readings) ->
  In w readings ->
  Wide.find_reading readings (Wide.Reading.location w) = Some w.
Proof.
  unfold Wide.find_reading.
  induction readings as [|r readings IH]; intros Hnd Hin; [contradiction|].
  simpl in Hnd. inversion Hnd as [|? ? Hfresh Hnd']; subst. simpl.
  destruct Hin as [->|Hin].
  - rewrite String.eqb_refl. reflexivity.
  - destruct (String.eqb (Wide.Reading.location r) (Wide.Reading.location w)) eqn:E.
    + apply String.eqb_eq in E. contradiction Hfresh. rewrite E.
      apply in_map. exact Hin.
    + apply IH; assumption.
Qed.

End WritingRuns.

Lemma long_runs_write_one_row_per_location_witness :
  let env := MoreExamples.sheet_with [] Examples.by_area in
  (exists readings,
     NowcastLong.main env
     = (0,
        SheetValuesAppend "Sheet1!A:D"
          (map (fun w => map (long_cell "2025-12-03" "00" w) long_header) readings)
        :: SheetValuesUpdate "Sheet1!A1" [map (@Str Q) long_header]
           :: SheetValuesGet "Sheet1!A1:D1" :: rev (flat_map calls_long Examples.by_area))
     /\ map place_long readings = map place Examples.by_area)
  /\ (exists readings,
        AreaLong.main env
        = (0,
           SheetValuesAppend "Sheet1!A:G"
             (map (fun w => map (area_cell "2025-12-03" "00" w) area_header) readings)
           :: SheetValuesUpdate "Sheet1!A1" [map (@Str Q) area_header]
              :: SheetValuesGet "Sheet1!A1:G1"
                 :: rev (flat_map calls_area (area_order Examples.by_area)))
        /\ map place_area readings = map place (area_order Examples.by_area)
        /\ map (@AreaLong.Reading.area Q) readings
           = map AreaLong.area_or_other (area_order Examples.by_area)).
Proof.
  intros env.
  destruct (@long_runs_write_one_row_per_location Q Q_JsNumber env) with
    (locations := Examples.by_area) as [Hlong Harea].
  - intros h range. discriminate.
  - intros h c. reflexivity.
  - reflexivity.
  - reflexivity.
  - reflexivity.
  - intros h lat lon. reflexivity.
  - split; [exact Hlong|]. apply Harea.
    + intros h lat lon. reflexivity.
    + repeat constructor.
Defined.

(** ** Readings and the answers they come from *)

Section OwnAnswers.

Context {num : Type} {NumOps : JsNumber num}.
Variable env : Env num.
Variable answer : Endpoint -> num -> num -> Response num.

Hypothesis provider : steady env answer.

Lemma usable_current (r : Response num) :
  usable r = true -> ok r = true /\ exists current rest, json r = Some (current :: rest).
Proof.
  unfold usable. intros H. apply andb_true_iff in H. destruct H as [Hok Hjson].
  split; [exact Hok|].
  destruct (json r) as [[|current rest]|] eqn:Ej; try discriminate. eauto.
Qed.

Lemma long_fetchWeather_steady (lat lon : num) (h : History num) :
  usable (answer NowcastComplete lat lon) = true ->
  exists w,
    NowcastLong.fetchWeather env lat lon h
    = (Returned w, HttpGet NowcastComplete lat lon :: h)
    /\ NowcastLong.Weather.temperature w
       = reported_temperature (answer NowcastComplete lat lon).
Proof.
  intros Husable. destruct (usable_current Husable) as (Hok & current & rest & Hjson).
  unfold NowcastLong.fetchWeather, bind, fetch, response_timeseries, first_entry.
  rewrite provider, Hok, Hjson. simpl. eexists. split; [reflexivity|].
  unfold reported_temperature. rewrite Hjson. reflexivity.
Qed.

Lemma wide_fetchWeather_steady (lat lon : num) (h : History num) :
  usable (answer LocationforecastCompact lat lon) = true ->
  exists w,
    Wide.fetchWeather env lat lon h
    = (Returned w, HttpGet LocationforecastCompact lat lon :: h)
    /\ Wide.Weather.temperature w
       = reported_temperature (answer LocationforecastCompact lat lon).
Proof.
  intros Husable. destruct (usable_current Husable) as (Hok & current & rest & Hjson).
  unfold Wide.fetchWeather, bind, fetch, response_timeseries, first_entry.
  rewrite provider, Hok, Hjson. simpl. eexists. split; [reflexivity|].
  unfold reported_temperature. rewrite Hjson. reflexivity.
Qed.

Lemma area_fetchWeather_steady (lat lon : num) (h : History num) :
  usable (answer NowcastComplete lat lon) = true ->
  harmless (answer LocationforecastCompact lat lon) = true ->
  exists w,
    AreaLong.fetchWeather env lat lon h
    = (Returned w,
       HttpGet LocationforecastCompact lat lon :: HttpGet NowcastComplete lat lon :: h)
    /\ AreaLong.Weather.temperature w
       = reported_temperature (answer NowcastComplete lat lon)
    /\ AreaLong.Weather.precipitation w
       = reported_precipitation (answer NowcastComplete lat lon)
    /\ AreaLong.Weather.cloudCover w
       = reported_cloud_cover (answer LocationforecastCompact lat lon).
Proof.
  intros Husable Hharmless.
  destruct (usable_current Husable) as (Hok & current & rest & Hjson).
  rewrite (fetchWeather_primary_ok (provider h NowcastComplete lat lon) Hok Hjson).
  rewrite provider. unfold reported_temperature, reported_precipitation,
    reported_cloud_cover, harmless in *.
  rewrite Hjson, <- precipitation_loop_firstn.
  destruct (ok (answer LocationforecastCompact lat lon)).
  - destruct (json (answer LocationforecastCompact lat lon)) as [[|fc frest]|];
      try discriminate.
    eexists. split; [reflexivity|]. simpl. auto.
  - eexists. split; [reflexivity|]. simpl. auto.
Qed.

Hypothesis primary_usable :
  forall endpoint lat lon, usable (answer endpoint lat lon) = true.

Lemma long_collect_steady (locations : list (Location.t num))
  (weatherData : list (NowcastLong.Reading.t num)) (h : History num) :
  exists h',
    NowcastLong.collect env locations weatherData h
    = (Returned (weatherData ++ map (long_reading_of answer) locations), h').
Proof.
  revert weatherData h. induction locations as [|x locations IH]; intros weatherData h.
  - exists h. simpl. rewrite app_nil_r. reflexivity.
  - destruct (@long_fetchWeather_steady (Location.latitude x) (Location.longitude x) h
                (primary_usable _ _ _)) as (w & Hw & Htemp).
    simpl NowcastLong.collect. unfold bind at 1. unfold NowcastLong.collect_one.
    unfold bind at 1. rewrite Hw. unfold bind at 1. unfold setTimeout at 1. unfold ret at 1.
    match goal with |- context [NowcastLong.collect env locations ?wd ?h1] =>
      destruct (IH wd h1) as (h' & Hrun) end.
    exists h'. rewrite Hrun, <- app_assoc, Htemp. reflexivity.
Qed.

Lemma wide_collect_steady (locations : list (Location.t num))
  (weatherData : list (Wide.Reading.t num)) (h : History num) :
  exists h',
    Wide.collect env locations weatherData h
    = (Returned (weatherData ++ map (wide_reading_of answer) locations), h').
Proof.
  revert weatherData h. induction locations as [|x locations IH]; intros weatherData h.
  - exists h. simpl. rewrite app_nil_r. reflexivity.
  - destruct (@wide_fetchWeather_steady (Location.latitude x) (Location.longitude x) h
                (primary_usable _ _ _)) as (w & Hw & Htemp).
    simpl Wide.collect. unfold bind at 1. unfold Wide.collect_one.
    unfold bind at 1. rewrite Hw. unfold bind at 1. unfold setTimeout at 1. unfold ret at 1.
    match goal with |- context [Wide.collect env locations ?wd ?h1] =>
      destruct (IH wd h1) as (h' & Hrun) end.
    exists h'. rewrite Hrun, <- app_assoc, Htemp. reflexivity.
Qed.

Lemma harmless_of_usable (r : Response num) : usable r = true -> harmless r = true.
Proof.
  unfold usable, harmless. intros H. apply andb_true_iff in H. destruct H as [_ H].
  rewrite H. apply orb_true_r.
Qed.

Lemma area_collect_area_steady (areaLocations : list (Location.t num))
  (weatherData : list (AreaLong.Reading.t num)) (h : History num) :
  exists h',
    AreaLong.collect_area env areaLocations weatherData h
    = (Returned (weatherData ++ map (area_reading_of answer) areaLocations), h').
Proof.
  revert weatherData h. induction areaLocations as [|x locations IH]; intros weatherData h.
  - exists h. simpl. rewrite app_nil_r. reflexivity.
  - destruct (@area_fetchWeather_steady (Location.latitude x) (Location.longitude x) h
                (primary_usable _ _ _) (harmless_of_usable (primary_usable _ _ _)))
      as (w & Hw & Htemp & Hrain & Hcloud).
    simpl AreaLong.collect_area. unfold bind at 1. unfold AreaLong.collect_one.
    unfold bind at 1. rewrite Hw. unfold bind at 1. unfold setTimeout at 1. unfold ret at 1.
    match goal with |- context [AreaLong.collect_area env locations ?wd ?h1] =>
      destruct (IH wd h1) as (h' & Hrun) end.
    exists h'. rewrite Hrun, <- app_assoc, Htemp, Hrain, Hcloud. reflexivity.
Qed.

Lemma area_collect_entries_steady (entries : list (string * list (Location.t num)))
  (weatherData : list (AreaLong.Reading.t num)) (h : History num) :
  exists h',
    AreaLong.collect_entries env entries weatherData h
    = (Returned (weatherData ++ map (area_reading_of answer) (flat_map snd entries)), h').
Proof.
  revert weatherData h. induction entries as [|[a areaLocations] entries IH];
    intros weatherData h.
  - exists h. simpl. rewrite app_nil_r. reflexivity.
  - destruct (area_collect_area_steady areaLocations weatherData h) as (h1 & Hfirst).
    simpl AreaLong.collect_entries. unfold bind at 1. rewrite Hfirst.
    destruct (IH (weatherData ++ map (area_reading_of answer) areaLocations) h1)
      as (h' & Hothers).
    exists h'. rewrite Hothers. cbn [flat_map snd]. rewrite map_app, <- app_assoc.
    reflexivity.
Qed.

(** X18. With a provider that answers by coordinates, always with a
    success status and a series with a current entry, every reading
    carries the values reported for its own location: the collectors of
    the first and of the wide revision return the readings of the
    locations in input order, the collector of the area revision those of
    the locations area by area. *)
Theorem readings_carry_their_own_answers (locations : list (Location.t num))
  (h : History num) :
  (exists h',
     NowcastLong.collect env locations [] h
     = (Returned (map (long_reading_of answer) locations), h'))
  /\ (exists h',
        Wide.collect env locations [] h
        = (Returned (map (wide_reading_of answer) locations), h'))
  /\ (no_inherited_label (map AreaLong.area_or_other locations) ->
      exists h',
        AreaLong.collect env locations h
        = (Returned (map (area_reading_of answer) (area_order locations)), h')).
Proof.
  split; [apply (long_collect_steady locations [] h)|].
  split; [apply (wide_collect_steady locations [] h)|].
  intros Hlabels. unfold AreaLong.collect, bind.
  rewrite (locationsByArea_grouped h Hlabels).
  destruct (area_collect_entries_steady (Object_entries (grouped locations)) [] h)
    as (h' & Hrun).
  rewrite entries_grouped in Hrun. exists h'. exact Hrun.
Qed.

End OwnAnswers.

Lemma readings_carry_their_own_answers_witness :
  (exists h',
     NowcastLong.collect MoreExamples.thermometer Examples.two_places [] []
     = (Returned [Examples.long_reading "Oslo" 59; 
                  {| NowcastLong.Reading.location := "Bergen";
                     NowcastLong.Reading.latitude := 60%Q;
                     NowcastLong.Reading.longitude := 10%Q;
                     NowcastLong.Reading.temperature := Num 60%Q |}], h'))
  /\ (exists h',
        Wide.collect MoreExamples.thermometer Examples.two_places [] []
        = (Returned (map (wide_reading_of MoreExamples.by_latitude) Examples.two_places), h'))
  /\ (exists h',
        AreaLong.collect MoreExamples.thermometer Examples.two_places []
        = (Returned (map (area_reading_of MoreExamples.by_latitude)
                         (area_order Examples.two_places)), h')).
Proof.
  destruct (@readings_carry_their_own_answers Q Q_JsNumber MoreExamples.thermometer
              MoreExamples.by_latitude) with (locations := Examples.two_places) (h := @nil (Call Q))
    as (Hlong & Hwide & Harea).
  - intros h endpoint lat lon. reflexivity.
  - intros endpoint lat lon. reflexivity.
  - split; [exact Hlong|]. split; [exact Hwide|]. apply Harea. repeat constructor.
Defined.

(** ** A header without the leading columns *)

Section OneCellHeader.

Context {num : Type} {NumOps : JsNumber num}.
Variable env : Env num.

(** X17. The wide writer takes the two leading columns for granted: on a
    sheet whose header is a single cell, the first configured location
    gets the column of index 1 in the header written back, and the row
    holds the hour there, not a temperature. *)
Theorem wide_writer_presumes_leading_columns (auth : unit) (l : Location.t num)
  (others : list (Location.t num)) (weatherData : list (Wide.Reading.t num))
  (h : History num) (cell : string)
  (Hget : fst (values_get_first_row env "Sheet1!A1:ZZ1" h) = Returned [cell])
  (Haccept : sheet_accepts_all env) :
  exists header row,
    Wide.appendToSheet env auth (l :: others) weatherData h
    = (Returned tt,
       [ SheetValuesAppend "Sheet1!A:ZZ" [row];
         SheetValuesUpdate "Sheet1!A1" [Wide.header_cells header];
         SheetValuesGet "Sheet1!A1:ZZ1" ] ++ h)
    /\ nth_error header 1 = Some (Location.name l)
    /\ nth_error row 1 = Some (Str (now_hour env)).
Proof.
  exists ([cell] ++ Wide.newLocationNames [cell] (l :: others)).
  exists (Wide.build_row (now_date env) (now_hour env)
            ([cell] ++ Wide.newLocationNames [cell] (l :: others)) weatherData).
  rewrite (wide_appendToSheet_run auth (l :: others) weatherData Hget Haccept).
  split; [|split].
  - reflexivity.
  - reflexivity.
  - rewrite build_row_cells. reflexivity.
Qed.

End OneCellHeader.

Lemma wide_writer_presumes_leading_columns_witness :
  exists header row,
    Wide.appendToSheet (MoreExamples.sheet_with ["Sted"] Examples.two_places) tt
      Examples.two_places Examples.two_readings []
    = (Returned tt,
       [ SheetValuesAppend "Sheet1!A:ZZ" [row];
         SheetValuesUpdate "Sheet1!A1" [Wide.header_cells header];
         SheetValuesGet "Sheet1!A1:ZZ1" ])
    /\ nth_error header 1 = Some "Oslo"
    /\ nth_error row 1 = Some (Str "00").
Proof.
  apply (@wide_writer_presumes_leading_columns Q
           (MoreExamples.sheet_with ["Sted"] Examples.two_places) tt Examples.oslo
           [Examples.bergen] Examples.two_readings [] "Sted").
  - reflexivity.
  - intros h c. reflexivity.
Defined.

(** ** A failed primary request in fetch order *)

Section FetchOrderOfFailure.

Context {num : Type} {NumOps : JsNumber num}.
Variable env : Env num.

(** The histories [fetchWeather] leaves: both requests when it returns, the
    primary request alone or both when it throws. *)
Lemma area_fetchWeather_history (lat lon : num) (h : History num) :
  match AreaLong.fetchWeather env lat lon h with
  | (Returned _, h') =>
      h' = HttpGet LocationforecastCompact lat lon :: HttpGet NowcastComplete lat lon :: h
  | (Thrown _, h') =>
      h' = HttpGet NowcastComplete lat lon :: h
      \/ h' = HttpGet LocationforecastCompact lat lon :: HttpGet NowcastComplete lat lon :: h
  end.
Proof.
  unfold AreaLong.fetchWeather, bind, fetch, response_timeseries, first_entry, ret, throw.
  destruct (http_response env h NowcastComplete lat lon) as [r|]; [|left; reflexivity].
  destruct (ok r); simpl; [|left; reflexivity].
  destruct (json r) as [[|current rest]|]; try (left; reflexivity).
  destruct (http_response env _ LocationforecastCompact lat lon) as [f|];
    [|right; reflexivity].
  destruct (ok f); [|reflexivity].
  destruct (json f) as [[|forecastCurrent rest']|]; try (right; reflexivity).
  reflexivity.
Qed.

(** A primary request answered with a non-success status is where
    [fetchWeather] throws. *)
Lemma area_fetchWeather_failed (lat lon : num) (h : History num) (r : Response num) :
  http_response env h NowcastComplete lat lon = Some r ->
  ok r = false ->
  AreaLong.fetchWeather env lat lon h
  = (Thrown (ApiError "Nowcast API error" (status r)), HttpGet NowcastComplete lat lon :: h).
Proof.
  intros Hanswer Hstatus.
  unfold AreaLong.fetchWeather, bind, fetch. rewrite Hanswer. unfold ret at 1.
  cbv beta iota. rewrite Hstatus. reflexivity.
Qed.

Lemma area_collect_area_app (l1 l2 : list (Location.t num))
  (weatherData : list (AreaLong.Reading.t num)) (h : History num) :
  AreaLong.collect_area env (l1 ++ l2) weatherData h
  = match AreaLong.collect_area env l1 weatherData h with
    | (Returned weatherData', h') => AreaLong.collect_area env l2 weatherData' h'
    | (Thrown e, h') => (Thrown e, h')
    end.
Proof.
  revert weatherData h. induction l1 as [|x l1 IH]; intros weatherData h.
  - reflexivity.
  - simpl. unfold bind.
    destruct (AreaLong.collect_one env x weatherData h) as [[wd'|e] h']; [apply IH|reflexivity].
Qed.

(** The two nested loops amount to one loop over the areas' locations laid
    end to end. *)
Lemma area_collect_entries_flat (entries : list (string * list (Location.t num)))
  (weatherData : list (AreaLong.Reading.t num)) (h : History num) :
  AreaLong.collect_entries env entries weatherData h
  = AreaLong.collect_area env (flat_map snd entries) weatherData h.
Proof.
  revert weatherData h. induction entries as [|[a areaLocations] rest IH]; intros weatherData h.
  - reflexivity.
  - simpl. rewrite area_collect_area_app. unfold bind.
    destruct (AreaLong.collect_area env areaLocations weatherData h) as [[wd'|e] h'];
      [apply IH|reflexivity].
Qed.

(** The loop either reads every location, or stops at the first one whose
    [fetchWeather] throws, having read exactly the locations before it. *)
Lemma area_collect_area_cases (locations : list (Location.t num))
  (weatherData : list (AreaLong.Reading.t num)) (h : History num) :
  (exists readings,
     AreaLong.collect_area env locations weatherData h
     = (Returned (weatherData ++ readings), rev (flat_map calls_area locations) ++ h)
     /\ map place_area readings = map place locations)
  \/ (exists earlier L later readings e h',
        locations = earlier ++ L :: later
        /\ AreaLong.collect_area env earlier weatherData h
           = (Returned (weatherData ++ readings), rev (flat_map calls_area earlier) ++ h)
        /\ map place_area readings = map place earlier
        /\ AreaLong.fetchWeather env (Location.latitude L) (Location.longitude L)
             (rev (flat_map calls_area earlier) ++ h) = (Thrown e, h')
        /\ AreaLong.collect_area env locations weatherData h = (Thrown e, h')).
Proof.
  revert weatherData h. induction locations as [|x rest IH]; intros weatherData h.
  - left. exists []. simpl. rewrite app_nil_r. split; reflexivity.
  - pose proof (area_fetchWeather_history (Location.latitude x) (Location.longitude x) h)
      as Hhistory.
    destruct (AreaLong.fetchWeather env (Location.latitude x) (Location.longitude x) h)
      as [[w|e] h1] eqn:Efetch.
    + subst h1.
      set (reading :=
             {| AreaLong.Reading.area := AreaLong.area_or_other x;
                AreaLong.Reading.location := Location.name x;
                AreaLong.Reading.latitude := Location.latitude x;
                AreaLong.Reading.longitude := Location.longitude x;
                AreaLong.Reading.temperature := AreaLong.Weather.temperature w;
                AreaLong.Reading.precipitation := AreaLong.Weather.precipitation w;
                AreaLong.Reading.cloudCover := AreaLong.Weather.cloudCover w |}).
      assert (Hone : forall others,
                 AreaLong.collect_area env (x :: others) weatherData h
                 = AreaLong.collect_area env others (weatherData ++ [reading])
                     (rev (calls_area x) ++ h)).
      { intros others. simpl. unfold bind at 1. unfold AreaLong.collect_one, bind.
        rewrite Efetch. reflexivity. }
      assert (Hcalls : forall others,
                 rev (flat_map calls_area (x :: others)) ++ h
                 = rev (flat_map calls_area others) ++ rev (calls_area x) ++ h).
      { intros others. cbn [flat_map]. rewrite rev_app_distr, <- app_assoc. reflexivity. }
      destruct (IH (weatherData ++ [reading]) (rev (calls_area x) ++ h))
        as [(readings & Hrun & Hplaces)
           |(earlier & L & later & readings & e & h' & Hsplit & Hrun & Hplaces & Hthrow & Hall)].
      * left. exists (reading :: readings). split.
        -- rewrite Hone, Hcalls, Hrun, <- app_assoc. reflexivity.
        -- simpl. rewrite Hplaces. reflexivity.
      * right. exists (x :: earlier), L, later, (reading :: readings), e, h'.
        split; [rewrite Hsplit; reflexivity|].
        split; [rewrite Hone, Hcalls, Hrun, <- app_assoc; reflexivity|].
        split; [simpl; rewrite Hplaces; reflexivity|].
        split; [rewrite Hcalls; exact Hthrow|].
        rewrite Hone. exact Hall.
    + right. exists [], x, rest, [], e, h1.
      split; [reflexivity|]. split; [simpl; rewrite app_nil_r; reflexivity|].
      split; [reflexivity|]. split; [exact Efetch|].
      simpl. unfold bind at 1. unfold AreaLong.collect_one, bind. rewrite Efetch. reflexivity.
Qed.

(** The Reading Collector is the loop over the locations in fetch order,
    unless an area label names a property of [Object.prototype]. *)
Lemma area_collect_in_fetch_order (locations : list (Location.t num)) (h : History num) :
  AreaLong.collect env locations h = (Thrown TypeError, h)
  \/ AreaLong.collect env locations h
     = AreaLong.collect_area env (area_order locations) [] h.
Proof.
  destruct (first_inherited locations) as [Hlabels|(p & x & q & Hsplit & Hp & Hx)].
  - right. unfold AreaLong.collect, bind. rewrite (locationsByArea_grouped h Hlabels).
    rewrite area_collect_entries_flat, entries_grouped. reflexivity.
  - left. unfold AreaLong.collect, bind, AreaLong.locationsByArea.
    rewrite Hsplit, (group_reduce_inherited q Hp Hx). reflexivity.
Qed.

(** C3. When the provider answers a primary (Nowcast) request of a run of
    the area revision with a non-success status, the request belongs to a
    location L of the configured list taken in fetch order (area by area):
    the locations before L in that order, and only they, have been fetched
    and have a Reading; the request is the last call of the run, so L and
    the locations after it in fetch order get none; the run issues no call
    to the spreadsheet API and exits with status 1. *)
Theorem failed_primary_fetch_stops_fetch_order (locations : list (Location.t num))
  (code : nat) (trace after before : History num) (lat lon : num) (r : Response num)
  (Hconfig : config_locations env = Some locations)
  (Hrun : AreaLong.main env = (code, trace))
  (Hcall : trace = after ++ HttpGet NowcastComplete lat lon :: before)
  (Hanswer : http_response env before NowcastComplete lat lon = Some r)
  (Hstatus : ok r = false) :
  after = []
  /\ code = 1
  /\ sheet_free trace
  /\ exists earlier L later readings,
       area_order locations = earlier ++ L :: later
       /\ lat = Location.latitude L
       /\ lon = Location.longitude L
       /\ before = rev (flat_map calls_area earlier)
       /\ AreaLong.collect_area env earlier [] [] = (Returned readings, before)
       /\ map place_area readings = map place earlier
       /\ AreaLong.collect env locations []
          = (Thrown (ApiError "Nowcast API error" (status r)), trace).
Proof.
  destruct (failed_primary_request_is_last Hrun Hcall Hanswer Hstatus)
    as (Hafter & Hcode & Hfree & _ & locations' & e & Hconfig' & Hcollect).
  rewrite Hconfig in Hconfig'. injection Hconfig' as <-.
  subst after. simpl in Hcall.
  repeat (split; [assumption || reflexivity|]).
  destruct (area_collect_in_fetch_order locations []) as [Htype|Horder].
  { rewrite Htype in Hcollect. injection Hcollect as _ Htrace.
    rewrite <- Htrace in Hcall. discriminate. }
  rewrite Horder in Hcollect.
  destruct (area_collect_area_cases (area_order locations) [] [])
    as [(readings & Hreturned & _)
       |(earlier & L & later & readings & e' & h' & Hsplit & Hearlier & Hplaces & Hthrow
         & Hall)].
  { rewrite Hreturned in Hcollect. discriminate. }
  rewrite Hall in Hcollect. injection Hcollect as He Hh. subst e' h'.
  rewrite app_nil_r in Hearlier, Hthrow. simpl in Hearlier.
  pose proof (area_fetchWeather_history (Location.latitude L) (Location.longitude L)
                (rev (flat_map calls_area earlier))) as Hhistory.
  rewrite Hthrow in Hhistory.
  destruct Hhistory as [Hhistory|Hhistory]; rewrite Hcall in Hhistory;
    [|discriminate].
  injection Hhistory as Hlat Hlon Hbefore.
  exists earlier, L, later, readings.
  repeat (split; [assumption|]).
  split; [rewrite Hbefore; exact Hearlier|].
  split; [exact Hplaces|].
  rewrite Horder, Hall. subst lat lon before.
  rewrite (area_fetchWeather_failed Hanswer Hstatus) in Hthrow.
  injection Hthrow as He Htrace. rewrite <- He, Hcall. reflexivity.
Qed.

End FetchOrderOfFailure.

Lemma failed_primary_fetch_stops_fetch_order_witness :
  let env := Examples.third_fails in
  let before := [ SetTimeout 1000; HttpGet LocationforecastCompact 1%Q 10%Q;
                  HttpGet NowcastComplete 1%Q 10%Q ] in
  let trace := HttpGet NowcastComplete 3%Q 10%Q :: before in
  AreaLong.main env = (1, trace)
  /\ @nil (Call Q) = []
  /\ 1 = 1
  /\ sheet_free trace
  /\ exists earlier L later readings,
       area_order Examples.interleaved = earlier ++ L :: later
       /\ 3%Q = Location.latitude L
       /\ 10%Q = Location.longitude L
       /\ before = rev (flat_map calls_area earlier)
       /\ AreaLong.collect_area env earlier [] [] = (Returned readings, before)
       /\ map place_area readings = map place earlier
       /\ AreaLong.collect env Examples.interleaved []
          = (Thrown (ApiError "Nowcast API error" (status Examples.failure)), trace).
Proof.
  intros env before trace. split; [reflexivity|].
  exact (@failed_primary_fetch_stops_fetch_order Q Q_JsNumber env Examples.interleaved 1
           trace [] before 3%Q 10%Q Examples.failure
           eq_refl eq_refl eq_refl eq_refl eq_refl).
Defined.

(** C3 as stated fails in the area revision: with areas X, Y, X and the
    primary request of B answered with status 503, the location C, listed
    after B, has been fetched and has its Reading by the time B is
    requested. *)
Lemma later_location_read_counterexample :
  let env := MoreExamples.second_fails in
  let A := Examples.at_place "A" 1 (Some "X") in
  let B := Examples.at_place "B" 2 (Some "Y") in
  let C := Examples.at_place "C" 3 (Some "X") in
  let fetched :=
    [ SetTimeout 1000; HttpGet LocationforecastCompact 3%Q 10%Q;
      HttpGet NowcastComplete 3%Q 10%Q;
      SetTimeout 1000; HttpGet LocationforecastCompact 1%Q 10%Q;
      HttpGet NowcastComplete 1%Q 10%Q ] in
  let trace := HttpGet NowcastComplete 2%Q 10%Q :: fetched in
  config_locations env = Some [A; B; C]
  /\ (forall h, http_response env h NowcastComplete (Location.latitude B)
                  (Location.longitude B) = Some Examples.failure)
  /\ ok Examples.failure = false
  /\ AreaLong.main env = (1, trace)
  /\ AreaLong.collect env [A; B; C] []
     = (Thrown (ApiError "Nowcast API error" 503), trace)
  /\ Object_entries (grouped [A; B; C]) = [("X", [A; C]); ("Y", [B])]
  /\ exists readings,
       AreaLong.collect_area env [A; C] [] [] = (Returned readings, fetched)
       /\ map (@AreaLong.Reading.location Q) readings = ["A"; "C"]
       /\ AreaLong.collect_area env [B] readings fetched
          = (Thrown (ApiError "Nowcast API error" 503), trace).
Proof.
  intros env A B C fetched trace.
  split; [reflexivity|]. split; [intros h; reflexivity|]. split; [reflexivity|].
  split; [vm_compute; reflexivity|]. split; [vm_compute; reflexivity|].
  split; [vm_compute; reflexivity|].
  eexists. split; [vm_compute; reflexivity|]. split; [reflexivity|].
  vm_compute. reflexivity.
Qed.

(** ** The columns of a wide row *)

Section WideColumns.

Context {num : Type} {NumOps : JsNumber num}.
Variable env : Env num.
Variable answer : Endpoint -> num -> num -> Response num.

Hypothesis provider : steady env answer.
Hypothesis sheet_up : sheet_answers env.
Hypothesis sheet_writable : sheet_accepts_all env.

(** With a provider that answers by coordinates, the collector of the wide
    revision returns the reading of every location, in input order, and
    leaves one request and one pause per location. *)
Lemma wide_collect_readings (locations : list (Location.t num))
  (weatherData : list (Wide.Reading.t num)) (h : History num) :
  (forall l, In l locations ->
     usable (answer LocationforecastCompact (Location.latitude l) (Location.longitude l))
     = true) ->
  Wide.collect env locations weatherData h
  = (Returned (weatherData ++ map (wide_reading_of answer) locations),
     rev (flat_map calls_wide locations) ++ h).
Proof.
  revert weatherData h. induction locations as [|x rest IH]; intros weatherData h Husable.
  - simpl. rewrite app_nil_r. reflexivity.
  - destruct (wide_fetchWeather_steady provider h (Husable x (or_introl eq_refl)))
      as (w & Hfetch & Htemperature).
    simpl Wide.collect. unfold bind at 1. unfold Wide.collect_one, bind.
    rewrite Hfetch. unfold setTimeout, ret. cbv beta iota.
    rewrite IH by (intros l Hl; apply Husable; right; exact Hl).
    rewrite Htemperature. cbn [flat_map map]. rewrite rev_app_distr, <- !app_assoc.
    reflexivity.
Qed.

(** X16. A run of the wide revision, with a provider that answers by
    coordinates and answers every configured location usably, a sheet
    that answers and accepts every call, distinct location names and a
    header that is empty or has the two leading columns: the run exits
    with status 0; its last call appends one row, built from the readings
    of the configured locations against the header the sheet then holds
    (the header read, or the default, followed by the names it lacked);
    the row is as long as that header, and every configured location has
    a column of its name, at index 2 or more, whose cell is the
    temperature the provider reports for the location's coordinates. *)
Theorem wide_runs_fill_every_location_column (locations : list (Location.t num))
  (Hconfig : config_locations env = Some locations)
  (Hcredentials : credentials_parse env = true)
  (Husable : forall l, In l locations ->
     usable (answer LocationforecastCompact (Location.latitude l) (Location.longitude l))
     = true)
  (Hdistinct : NoDup (map (@Location.name num) locations))
  (Hheader : List.length (header_read env "Sheet1!A1:ZZ1"
                            (rev (flat_map calls_wide locations))) <> 1) :
  let fetches := rev (flat_map calls_wide locations) in
  let existing := header_read env "Sheet1!A1:ZZ1" fetches in
  let added := Wide.newLocationNames (wide_base existing) locations in
  let header := wide_base existing ++ added in
  let row := Wide.build_row (now_date env) (now_hour env) header
               (map (wide_reading_of answer) locations) in
  Wide.main env
  = (0, SheetValuesAppend "Sheet1!A:ZZ" [row]
        :: column_update (wide_base existing) added ++ default_update existing
           ++ SheetValuesGet "Sheet1!A1:ZZ1" :: fetches)
  /\ List.length row = List.length header
  /\ (forall l, In l locations ->
        exists i,
          2 <= i
          /\ nth_error header i = Some (Location.name l)
          /\ nth_error row i
             = Some (reported_temperature
                       (answer LocationforecastCompact (Location.latitude l)
                          (Location.longitude l)))).
Proof.
  intros fetches existing added header row.
  pose proof (wide_collect_readings [] [] Husable) as Hcollect.
  rewrite app_nil_r in Hcollect. simpl app in Hcollect. fold fetches in Hcollect.
  set (readings := map (wide_reading_of answer) locations) in *.
  assert (Hnames : map (@Wide.Reading.location num) readings
                   = map (@Location.name num) locations).
  { unfold readings. rewrite map_map. reflexivity. }
  assert (Hbase : 2 <= List.length (wide_base existing)).
  { fold fetches in Hheader. fold existing in Hheader.
    destruct existing as [|c0 [|c1 rest]]; simpl in *; lia. }
  split; [|split].
  - unfold Wide.main, run_main, Wide.main_try, bind, loadLocations.
    rewrite Hconfig. unfold ret at 1. cbv beta iota. rewrite Hcollect.
    unfold googleAuth. rewrite Hcredentials. unfold ret at 1. cbv beta iota.
    rewrite (@wide_appendToSheet_run num env tt locations readings fetches existing).
    + reflexivity.
    + rewrite (header_read_returned sheet_up). reflexivity.
    + exact sheet_writable.
  - unfold row. rewrite build_row_cells, length_app, length_map, length_skipn.
    unfold header. rewrite length_app. simpl. lia.
  - intros l Hl.
    assert (Hname : In (Location.name l) (skipn 2 header)).
    { apply grown_header_holds_names; assumption. }
    apply In_nth_error in Hname. destruct Hname as (j & Hj).
    exists (2 + j). split; [lia|]. rewrite nth_error_skipn in Hj. split; [exact Hj|].
    unfold row. rewrite build_row_cells, nth_error_app2 by (simpl; lia).
    simpl List.length. replace (2 + j - 2) with j by lia.
    rewrite nth_error_map, nth_error_skipn, Hj. simpl. unfold wide_cell.
    change (Location.name l) with (Wide.Reading.location (wide_reading_of answer l)).
    rewrite find_reading_unique; [reflexivity| |apply in_map; exact Hl].
    fold readings. rewrite Hnames. exact Hdistinct.
Qed.

End WideColumns.

Lemma wide_runs_fill_every_location_column_witness :
  let env := MoreExamples.thermometer_on ["Date"; "Hour"; "Bergen"] in
  let header := ["Date"; "Hour"; "Bergen"; "Oslo"] in
  let row := [Str "2025-12-03"; Str "00"; Num 60%Q; Num 59%Q] in
  Wide.main env
  = (0, [ SheetValuesAppend "Sheet1!A:ZZ" [row];
          SheetValuesUpdate "Sheet1!A1" [Wide.header_cells header];
          SheetValuesGet "Sheet1!A1:ZZ1";
          SetTimeout 1000; HttpGet LocationforecastCompact 60%Q 10%Q;
          SetTimeout 1000; HttpGet LocationforecastCompact 59%Q 10%Q ])
  /\ List.length row = List.length header
  /\ (forall l, In l Examples.two_places ->
        exists i,
          2 <= i
          /\ nth_error header i = Some (Location.name l)
          /\ nth_error row i
             = Some (reported_temperature
                       (MoreExamples.by_latitude LocationforecastCompact
                          (Location.latitude l) (Location.longitude l)))).
Proof.
  intros env header row.
  assert (Hprovider : steady env MoreExamples.by_latitude)
    by (intros h endpoint lat lon; reflexivity).
  assert (Hup : sheet_answers env) by (intros h range; discriminate).
  assert (Hwritable : sheet_accepts_all env) by (intros h c; reflexivity).
  assert (Husable : forall l, In l Examples.two_places ->
            usable (MoreExamples.by_latitude LocationforecastCompact
                      (Location.latitude l) (Location.longitude l)) = true)
    by (intros l Hl; reflexivity).
  assert (Hdistinct : NoDup (map (@Location.name Q) Examples.two_places))
    by (repeat constructor; simpl; intuition discriminate).
  assert (Hheader : List.length (header_read env "Sheet1!A1:ZZ1"
                                   (rev (flat_map calls_wide Examples.two_places))) <> 1)
    by (simpl; lia).
  exact (@wide_runs_fill_every_location_column Q env MoreExamples.by_latitude
           Hprovider Hup Hwritable Examples.two_places eq_refl eq_refl
           Husable Hdistinct Hheader).
Defined.
